(** * Level generation and reachability checking: a shallow embedding

    The definitions below follow [common.c] and [level.c]: the tile and
    level model, the flood fill, the completability check, the random
    source, the wall-adding refiners, the verified entity placer and the
    binary level format. *)

From Stdlib Require Import ZArith Lia Bool Ascii.
From Stdlib Require Import Floats.SpecFloat.
From stdpp Require Import base list list_numbers.

Open Scope Z_scope.

(** ** Tiles and levels (common.c) *)

(** [typedef u16 Tile]: a bit array kept as an integer. *)
Abbreviation Tile := Z (only parsing).

Definition FLOOR  : Z := 1.
Definition WALL   : Z := 2.
Definition SPIKES : Z := 3.
Definition EXIT   : Z := 4.
Definition LOCK   : Z := 5.
Definition GOLD   : Z := 6.
Definition KEY    : Z := 7.
Definition ENEMY  : Z := 8.
Definition PLAYER : Z := 9.

(** [#define BIT(n) (1 << (n))] *)
Definition BIT (n : Z) : Z := Z.shiftl 1 n.

Definition LEVEL_SIZE : Z := 22.

(** [typedef Tile Level[LEVEL_SIZE * LEVEL_SIZE]]: the array is a list,
    well formed when it has [LEVEL_SIZE * LEVEL_SIZE] tiles. *)
Abbreviation Level := (list Tile) (only parsing).

Definition level_wf (level : Level) : Prop :=
  length level = Z.to_nat (LEVEL_SIZE * LEVEL_SIZE).

(** The array index [x + y * LEVEL_SIZE]. *)
Definition cell (x y : Z) : nat := Z.to_nat (x + y * LEVEL_SIZE).

Definition in_level (x y : Z) : Prop :=
  0 <= x < LEVEL_SIZE /\ 0 <= y < LEVEL_SIZE.

(** ** Loops with an early [return] *)

Inductive ctl (A R : Type) : Type :=
| Go (a : A)
| Return (r : R).
Arguments Go {A R} a.
Arguments Return {A R} r.

Fixpoint for_each {A R : Type} (xs : list Z) (body : Z -> A -> ctl A R) (s : A)
  : ctl A R :=
  match xs with
  | [] => Go s
  | x :: xs' =>
      match body x s with
      | Go s' => for_each xs' body s'
      | Return r => Return r
      end
  end.

(** ** Flood fill (common.c, [flood]) *)

(** [enum { TODO = 1, DONE = 2 }] over a zero-initialised [u8] array. *)
Inductive mark : Type := UNMARKED | TODO | DONE.

Global Instance mark_inhabited : Inhabited mark := populate UNMARKED.

Definition is_TODO (m : mark) : bool :=
  match m with TODO => true | _ => false end.
Definition is_DONE (m : mark) : bool :=
  match m with DONE => true | _ => false end.

(** [(tile & mask) == (target & mask)] *)
Definition matches (mask target tile : Tile) : bool :=
  Z.land tile mask =? Z.land target mask.

Section Flood.
Context {D : Type}.

(** [typedef bool (*Flood_Func)(Tile *, int x, int y, void *)]: the
    visitor may write the tile it is given and its data, and returns
    whether to stop. *)
Definition Flood_Func : Type := Tile -> Z -> Z -> D -> Tile * D * bool.

Record flood_state : Type := FloodState {
  fl_level : Level;
  fl_todo : list mark;
  fl_steps : Z;
  fl_data : D;
  fl_cleared : bool
}.

(** What [flood] leaves behind: the level, the visitor's data and the
    returned step count. *)
Record flood_result : Type := FloodResult {
  fr_level : Level;
  fr_data : D;
  fr_steps : Z
}.

(** [if (c && todo[i] != DONE) todo[i] = TODO;] *)
Definition add_neighbour (c : bool) (i : nat) (todo : list mark) : list mark :=
  if c && negb (is_DONE (todo !!! i)) then <[i := TODO]> todo else todo.

(** The body of the two inner loops, at the tile [x, y]. *)
Definition flood_tile (mask target : Tile) (func : Flood_Func) (y x : Z)
    (s : flood_state) : ctl flood_state flood_result :=
  let i := cell x y in
  if is_TODO (fl_todo s !!! i) then
    if matches mask target (fl_level s !!! i) then
      let '(t, d, stop) := func (fl_level s !!! i) x y (fl_data s) in
      let level := <[i := t]> (fl_level s) in
      if stop then Return (FloodResult level d (fl_steps s))
      else
        let todo := <[i := DONE]> (fl_todo s) in
        let todo := add_neighbour (0 <? x) (cell (x - 1) y) todo in
        let todo := add_neighbour (x <? LEVEL_SIZE - 1) (cell (x + 1) y) todo in
        let todo := add_neighbour (0 <? y) (cell x (y - 1)) todo in
        let todo := add_neighbour (y <? LEVEL_SIZE - 1) (cell x (y + 1)) todo in
        Go (FloodState level todo (fl_steps s + 1) d false)
    else
      Go (FloodState (fl_level s) (fl_todo s) (fl_steps s) (fl_data s) false)
  else Go s.

(** One pass over the whole level, rows first. *)
Definition flood_sweep (mask target : Tile) (func : Flood_Func)
    (s : flood_state) : ctl flood_state flood_result :=
  for_each (seqZ 0 LEVEL_SIZE)
    (fun y => for_each (seqZ 0 LEVEL_SIZE) (flood_tile mask target func y)) s.

(** The outer loop: at most [n] passes, left early when a pass meets no
    tile marked TODO. *)
Fixpoint flood_loop (n : nat) (mask target : Tile) (func : Flood_Func)
    (s : flood_state) : flood_result :=
  match n with
  | O => FloodResult (fl_level s) (fl_data s) (fl_steps s)
  | S n' =>
      match flood_sweep mask target func
              (FloodState (fl_level s) (fl_todo s) (fl_steps s) (fl_data s) true) with
      | Return r => r
      | Go s' =>
          if fl_cleared s' then FloodResult (fl_level s') (fl_data s') (fl_steps s')
          else flood_loop n' mask target func s'
      end
  end.

Definition flood (level : Level) (start_x start_y : Z) (mask target : Tile)
    (func : Flood_Func) (data : D) : flood_result :=
  let todo := replicate (Z.to_nat (LEVEL_SIZE * LEVEL_SIZE)) UNMARKED in
  let todo := <[cell start_x start_y := TODO]> todo in
  flood_loop (Z.to_nat (LEVEL_SIZE * LEVEL_SIZE)) mask target func
    (FloodState level todo 0 data true).
End Flood.

Arguments Flood_Func D : clear implicits.
Arguments flood_state D : clear implicits.
Arguments flood_result D : clear implicits.

(** [flood_record_tiles]: ORs the visited tile into the accumulator. *)
Definition flood_record_tiles : Flood_Func Tile :=
  fun tile _ _ result => (tile, Z.lor result tile, false).

(** [find_player]: the first tile, rows first, with the player bit. *)
Definition find_player (level : Level) : option (Z * Z) :=
  match
    for_each (seqZ 0 LEVEL_SIZE)
      (fun y => for_each (seqZ 0 LEVEL_SIZE)
         (fun x (_ : unit) =>
            if negb (Z.land (level !!! cell x y) (BIT PLAYER) =? 0)
            then Return (x, y) else Go tt)) tt
  with
  | Return p => Some p
  | Go _ => None
  end.

(** [level_is_completable], with the level it leaves behind. *)
Definition level_is_completable_run (level : Level) : Level * bool :=
  match find_player level with
  | None => (level, false)
  | Some (px, py) =>
      let r := flood level px py
                 (Z.lor (Z.lor (BIT FLOOR) (BIT WALL)) (BIT SPIKES)) (BIT FLOOR)
                 flood_record_tiles 0 in
      (fr_level r,
       Z.land (fr_data r) (Z.lor (BIT KEY) (BIT EXIT)) =? Z.lor (BIT KEY) (BIT EXIT))
  end.

Definition level_is_completable (level : Level) : bool :=
  snd (level_is_completable_run level).

(** ** Level construction (level.c) *)

(** [fill_level]: every tile becomes exactly the given entity bit. *)
Definition fill_level (level : Level) (entity : Z) : Level :=
  foldl (fun l y => foldl (fun l x => <[cell x y := BIT entity]> l) l (seqZ 0 LEVEL_SIZE))
    level (seqZ 0 LEVEL_SIZE).

(** [empty_level]: floor everywhere, then a wall ring. *)
Definition empty_level (level : Level) : Level :=
  let level := fill_level level FLOOR in
  let level :=
    foldl (fun l x => <[cell x (LEVEL_SIZE - 1) := BIT WALL]> (<[cell x 0 := BIT WALL]> l))
      level (seqZ 1 (LEVEL_SIZE - 2)) in
  foldl (fun l y => <[cell (LEVEL_SIZE - 1) y := BIT WALL]> (<[cell 0 y := BIT WALL]> l))
    level (seqZ 0 LEVEL_SIZE).

(** ** The random source (common.c) *)

(** Single precision: 24 bits of mantissa, infinities at exponent 128. *)
Definition float : Type := spec_float.
Definition float_of_int (n : Z) : float := binary_normalize 24 128 n 0 false.
Definition fmul : float -> float -> float := SFmul 24 128.
Definition fadd : float -> float -> float := SFadd 24 128.
Definition fdiv : float -> float -> float := SFdiv 24 128.
Definition fleb : float -> float -> bool := SFleb.

(** Conversion of a float to [int]: the fractional part is discarded.
    (For an infinity or a NaN the conversion is undefined in C; here 0.) *)
Definition int_of_float (f : float) : Z :=
  match f with
  | S754_finite s m e =>
      let v := if 0 <=? e then Z.pos m * 2 ^ e else Z.pos m / 2 ^ (- e) in
      if s then - v else v
  | _ => 0
  end.

(** A decimal constant [n / d] written with the suffix [f]. *)
Definition float_lit (n d : Z) : float := fdiv (float_of_int n) (float_of_int d).

Definition UINT64_MAX : Z := 2 ^ 64 - 1.
Definition u64 (z : Z) : Z := z mod 2 ^ 64.

(** [u64 random_seed[2]] *)
Definition Seed : Type := Z * Z.

Definition seed_wf (s : Seed) : Prop :=
  0 <= fst s < 2 ^ 64 /\ 0 <= snd s < 2 ^ 64.

(** Code that draws from the random source passes the seed along. *)
Definition Rand (A : Type) : Type := Seed -> A * Seed.
Definition ret {A} (a : A) : Rand A := fun s => (a, s).
Definition bind {A B} (m : Rand A) (k : A -> Rand B) : Rand B :=
  fun s => let '(a, s') := m s in k a s'.

Notation "'draw' x <- m ; k" := (bind m (fun x => k))
  (at level 10, x name, m at level 100, k at level 200).

(** [#define LS(x, k) ((x << k) | (x >> (64 - k)))] on [u64]. *)
Definition LS (x k : Z) : Z := Z.lor (u64 (Z.shiftl x k)) (Z.shiftr x (64 - k)).

(** [random_u64]: xoroshiro128+. *)
Definition random_u64 : Rand Z := fun seed =>
  let s0 := fst seed in
  let s1 := snd seed in
  let result := u64 (s0 + s1) in
  let s1 := Z.lxor s1 s0 in
  (result, (Z.lxor (Z.lxor (LS s0 55) s1) (u64 (Z.shiftl s1 14)), LS s1 36)).

(** [set_seed] *)
Definition set_seed (a b : Z) (seed : Seed) : Seed :=
  let seed := (Z.lxor (fst seed) a, Z.lxor (snd seed) b) in
  fold_left (fun s _ => snd (random_u64 s)) (seq 0 64) seed.

(** [random_float]: [(float)random_u64() / (float)UINT64_MAX]. *)
Definition random_float : Rand float :=
  draw r <- random_u64;
  ret (fdiv (float_of_int r) (float_of_int UINT64_MAX)).

(** [random_int_range]: [int d = abs(high - low) + 1;
    return random_float() * d + low;] *)
Definition random_int_range (low high : Z) : Rand Z :=
  let d := Z.abs (high - low) + 1 in
  draw f <- random_float;
  ret (int_of_float (fadd (fmul f (float_of_int d)) (float_of_int low))).

(** [chance]: [random_float() <= chance_to_be_true]. *)
Definition chance (chance_to_be_true : float) : Rand bool :=
  draw f <- random_float;
  ret (fleb f chance_to_be_true).

(** A counted loop whose body draws from the random source. *)
Fixpoint for_rand {A : Type} (xs : list Z) (body : Z -> A -> Rand A) (a : A) : Rand A :=
  match xs with
  | [] => ret a
  | x :: xs' => draw a' <- body x a; for_rand xs' body a'
  end.

(** ** Subtractive refiners (level.c) *)

(** What one pass of an attempt loop did: [continue] on a player tile,
    the wall taken out again, the wall kept ([break]), or the whole
    function left ([return]). *)
Inductive attempt : Type := Skipped | Rejected | Accepted | Left.

(** The attempt of [reverse_verified_scatter_generator] at the chosen
    tile [x, y]. *)
Definition verified_wall_attempt (level : Level) (x y : Z) : Level * attempt :=
  let i := cell x y in
  if negb (Z.land (level !!! i) (BIT PLAYER) =? 0) then (level, Skipped)
  else
    let level := <[i := Z.lor (level !!! i) (BIT WALL)]> level in
    let '(level, completable) := level_is_completable_run level in
    if negb completable then
      (<[i := Z.lxor (level !!! i) (BIT WALL)]> level, Rejected)
    else
      (<[i := BIT WALL]> level, Accepted).

(** The loop over [attempts], left at the first wall that is kept. *)
Fixpoint verified_wall_attempts (attempts : nat) (level : Level) : Rand Level :=
  match attempts with
  | O => ret level
  | S n =>
      draw x <- random_int_range 1 (LEVEL_SIZE - 2);
      draw y <- random_int_range 1 (LEVEL_SIZE - 2);
      match verified_wall_attempt level x y with
      | (level', Accepted) => ret level'
      | (level', _) => verified_wall_attempts n level'
      end
  end.

Definition reverse_verified_scatter_generator (level : Level) : Rand Level :=
  let portion_of_level_to_be_wall := float_lit 4 1 in
  let wall_count :=
    int_of_float (fmul portion_of_level_to_be_wall
                    (float_of_int (LEVEL_SIZE * LEVEL_SIZE))) in
  let attempts := 32%nat in
  for_rand (seqZ 0 wall_count) (fun _ l => verified_wall_attempts attempts l) level.

(** [count_entities]: counts the tiles that hold more than terrain. *)
Definition count_entities : Flood_Func Z :=
  fun tile _ _ count =>
    (tile,
     if negb (Z.land tile (Z.lnot (Z.lor (Z.lor (BIT FLOOR) (BIT WALL)) (BIT SPIKES))) =? 0)
     then count + 1 else count,
     false).

(** The attempt of [reverse_entity_preserving_scatter_generator] at the
    chosen tile.  [counted_entities] is declared without a value: what it
    holds before the flood is the argument [uninit]. *)
Definition entity_wall_attempt (actual_entity_count uninit : Z)
    (level : Level) (x y : Z) : Level * attempt :=
  let i := cell x y in
  if negb (Z.land (level !!! i) (BIT PLAYER) =? 0) then (level, Skipped)
  else
    let level := <[i := Z.lor (level !!! i) (BIT WALL)]> level in
    match find_player level with
    | None => (level, Left)
    | Some (px, py) =>
        let r := flood level px py
                   (Z.lor (Z.lor (BIT FLOOR) (BIT WALL)) (BIT SPIKES)) (BIT FLOOR)
                   count_entities uninit in
        let level := fr_level r in
        let all_entities_are_accessible := actual_entity_count =? fr_data r in
        if negb all_entities_are_accessible then
          (<[i := Z.lxor (level !!! i) (BIT WALL)]> level, Rejected)
        else
          (<[i := BIT WALL]> level, Accepted)
    end.

Fixpoint entity_wall_attempts (actual uninit : Z) (attempts : nat) (level : Level)
  : Rand (Level * bool) :=
  match attempts with
  | O => ret (level, false)
  | S n =>
      draw x <- random_int_range 1 (LEVEL_SIZE - 2);
      draw y <- random_int_range 1 (LEVEL_SIZE - 2);
      match entity_wall_attempt actual uninit level x y with
      | (level', Accepted) => ret (level', false)
      | (level', Left) => ret (level', true)
      | (level', _) => entity_wall_attempts actual uninit n level'
      end
  end.

Fixpoint entity_walls (actual uninit : Z) (attempts walls : nat) (level : Level)
  : Rand Level :=
  match walls with
  | O => ret level
  | S n =>
      draw r <- entity_wall_attempts actual uninit attempts level;
      if snd r then ret (fst r) else entity_walls actual uninit attempts n (fst r)
  end.

(** The first loop of [reverse_entity_preserving_scatter_generator]:
    [count_entities] on every tile, from 0. *)
Definition count_all_entities (level : Level) : Z :=
  fold_left (fun count tile => snd (fst (count_entities tile 0 0 count))) level 0.

Definition reverse_entity_preserving_scatter_generator (uninit : Z) (level : Level)
  : Rand Level :=
  let portion_of_level_to_be_wall := float_lit 5 10 in
  let wall_count :=
    int_of_float (fmul portion_of_level_to_be_wall
                    (float_of_int (LEVEL_SIZE * LEVEL_SIZE))) in
  let attempts := 32%nat in
  let actual_entity_count := count_all_entities level in
  entity_walls actual_entity_count uninit attempts (Z.to_nat wall_count) level.

(** The body of the inner loop of [reverse_verified_fill_generator]; a
    kept wall leaves the loop over [x]. *)
Definition fill_attempt (y x : Z) (level : Level) : ctl Level Level :=
  let i := cell x y in
  let level := <[i := Z.lor (level !!! i) (BIT WALL)]> level in
  let '(level, completable) := level_is_completable_run level in
  if negb completable then
    Go (<[i := Z.lxor (level !!! i) (BIT WALL)]> level)
  else
    Return (<[i := BIT WALL]> level).

Definition fill_row (level : Level) (y : Z) : Level :=
  match for_each (seqZ 1 (LEVEL_SIZE - 2)) (fill_attempt y) level with
  | Go l => l
  | Return l => l
  end.

Definition reverse_verified_fill_generator (level : Level) : Level :=
  foldl fill_row level (seqZ 1 (LEVEL_SIZE - 2)).

(** ** The verified entity placer (level.c) *)

(** The placement loops of the source are [do ... while] loops without a
    bound: [fuel] is the number of passes allowed to each of them.  An
    index outside the array is reported rather than followed. *)
Inductive outcome (A : Type) : Type :=
| Finished (a : A)
| OutOfFuel
| OutOfBounds.
Arguments Finished {A} a.
Arguments OutOfFuel {A}.
Arguments OutOfBounds {A}.

Definition in_array (x y : Z) : bool :=
  (0 <=? x + y * LEVEL_SIZE) && (x + y * LEVEL_SIZE <? LEVEL_SIZE * LEVEL_SIZE).

(** The first loop of both placers: gold, else an enemy, else spikes on
    every inner tile without a wall. *)
Definition scatter_entities (gold_chance enemy_chance spikes_chance : float)
    (level : Level) : Rand Level :=
  for_rand (seqZ 1 (LEVEL_SIZE - 2))
    (fun y level =>
       for_rand (seqZ 1 (LEVEL_SIZE - 2))
         (fun x level =>
            let t := level !!! cell x y in
            draw t <-
              (if Z.land t (BIT WALL) =? 0 then
                 draw gold <- chance gold_chance;
                 if gold then ret (Z.lor t (BIT GOLD)) else
                 draw enemy <- chance enemy_chance;
                 if enemy then ret (Z.lor t (BIT ENEMY)) else
                 draw spikes <- chance spikes_chance;
                 if spikes then ret (Z.lor t (BIT SPIKES)) else ret t
               else ret t);
            ret (<[cell x y := t]> level))
         level)
    level.

(** [do { x = ...; y = ...; } while (level[x + y * LEVEL_SIZE] != BIT(FLOOR));] *)
Fixpoint choose_floor (fuel : nat) (level : Level) : Rand (outcome (Z * Z)) :=
  match fuel with
  | O => ret OutOfFuel
  | S n =>
      draw x <- random_int_range 1 (LEVEL_SIZE - 1);
      draw y <- random_int_range 1 (LEVEL_SIZE - 1);
      if negb (in_array x y) then ret OutOfBounds
      else if negb (level !!! cell x y =? BIT FLOOR) then choose_floor n level
      else ret (Finished (x, y))
  end.

(** [do { x = ...; y = ...; flood(..., flood_record_tiles, &seen_entity_types); }
    while ((level[x + y * LEVEL_SIZE] != BIT(FLOOR))
        && (seen_entity_types & wanted) == 0);] *)
Fixpoint choose_verified (wanted : Tile) (fuel : nat) (level : Level)
    (seen_entity_types : Tile) : Rand (outcome (Level * (Z * Z))) :=
  match fuel with
  | O => ret OutOfFuel
  | S n =>
      draw x <- random_int_range 1 (LEVEL_SIZE - 1);
      draw y <- random_int_range 1 (LEVEL_SIZE - 1);
      if negb (in_array x y) then ret OutOfBounds
      else
        let r := flood level x y
                   (Z.lor (Z.lor (BIT FLOOR) (BIT WALL)) (BIT SPIKES)) (BIT FLOOR)
                   flood_record_tiles seen_entity_types in
        if negb (fr_level r !!! cell x y =? BIT FLOOR)
           && (Z.land (fr_data r) wanted =? 0)
        then choose_verified wanted n (fr_level r) (fr_data r)
        else ret (Finished (fr_level r, (x, y)))
  end.

Definition verified_scatter_placer (fuel : nat) (level : Level)
    (parameters : option (float * float * float)) : Rand (outcome Level) :=
  let '(gold_chance, enemy_chance, spikes_chance) :=
    match parameters with
    | Some p => p
    | None => (float_lit 7 100, float_lit 3 100, float_lit 3 100)
    end in
  draw level <- scatter_entities gold_chance enemy_chance spikes_chance level;
  draw door <- choose_floor fuel level;
  match door with
  | OutOfFuel => ret OutOfFuel
  | OutOfBounds => ret OutOfBounds
  | Finished (x, y) =>
      let level :=
        <[cell x y := Z.lor (level !!! cell x y) (Z.lor (BIT EXIT) (BIT LOCK))]> level in
      draw key <- choose_verified (BIT EXIT) fuel level 0;
      match key with
      | OutOfFuel => ret OutOfFuel
      | OutOfBounds => ret OutOfBounds
      | Finished (level, (x, y)) =>
          let level := <[cell x y := Z.lor (level !!! cell x y) (BIT KEY)]> level in
          draw player <-
            choose_verified (Z.lor (BIT EXIT) (BIT KEY)) fuel level 0;
          match player with
          | OutOfFuel => ret OutOfFuel
          | OutOfBounds => ret OutOfBounds
          | Finished (level, (x, y)) =>
              ret (Finished
                     (<[cell x y := Z.lor (level !!! cell x y) (BIT PLAYER)]> level))
          end
      end
  end.

(** ** The binary level format (common.c) *)

(** Tiles are stored in the byte order of the machine. *)
Inductive byte_order : Type := LittleEndian | BigEndian.

Section LevelFile.
Variable order : byte_order.

(** The two bytes of a tile in memory. *)
Definition tile_bytes (t : Tile) : list Z :=
  match order with
  | LittleEndian => [t mod 256; t / 256 mod 256]
  | BigEndian => [t / 256 mod 256; t mod 256]
  end.

Definition level_bytes (level : Level) : list Z :=
  flat_map tile_bytes level.

Fixpoint tiles_of_bytes (bytes : list Z) : list Tile :=
  match bytes with
  | b0 :: b1 :: rest =>
      match order with
      | LittleEndian => b0 + 256 * b1
      | BigEndian => 256 * b0 + b1
      end :: tiles_of_bytes rest
  | _ => []
  end.

(** A stream of the C library: its bytes, the position of the next
    transfer, and how many more bytes the device will take. *)
Record FILE : Type := File {
  contents : list Z;
  position : nat;
  room : nat
}.

(** [fread(ptr, size, count, file)]: copies the bytes that are there,
    at most [size * count], over the start of the memory at [ptr], and
    returns the number of whole items copied. *)
Definition fread (memory : list Z) (size count : nat) (file : FILE)
  : nat * list Z * FILE :=
  let got := take (size * count) (drop (position file) (contents file)) in
  (length got / size,
   got ++ drop (length got) memory,
   File (contents file) (position file + length got) (room file))%nat.

(** [fwrite(ptr, size, count, file)]: writes as many of the
    [size * count] bytes as the device takes and returns the number of
    whole items written. *)
Definition fwrite (memory : list Z) (size count : nat) (file : FILE)
  : nat * FILE :=
  let sent := take (Nat.min (size * count) (room file)) memory in
  (length sent / size,
   File (take (position file) (contents file) ++ sent
           ++ drop (position file + length sent) (contents file))
        (position file + length sent) (room file - length sent))%nat.

(** [return (bool)fread(level, sizeof(Tile), LEVEL_SIZE * LEVEL_SIZE, file);] *)
Definition load_level (file : FILE) (level : Level) : bool * Level * FILE :=
  let '(n, memory, file') :=
    fread (level_bytes level) 2 (Z.to_nat (LEVEL_SIZE * LEVEL_SIZE)) file in
  (negb (n =? 0)%nat, tiles_of_bytes memory, file').

(** [return (bool)fwrite(level, sizeof(Tile), LEVEL_SIZE * LEVEL_SIZE, file);] *)
Definition write_level (file : FILE) (level : Level) : bool * FILE :=
  let '(n, file') :=
    fwrite (level_bytes level) 2 (Z.to_nat (LEVEL_SIZE * LEVEL_SIZE)) file in
  (negb (n =? 0)%nat, file').
End LevelFile.

(** A tile fits sixteen bits. *)
Definition tile_wf (t : Tile) : Prop := 0 <= t < 2 ^ 16.

Global Instance tile_wf_dec (t : Tile) : Decision (tile_wf t).
Proof. unfold tile_wf. apply _. Defined.

Definition zero_level : Level := replicate (Z.to_nat (LEVEL_SIZE * LEVEL_SIZE)) 0.

(** ** Notions used to state the properties *)

(** Two tiles side by side or one above the other. *)
Definition adjacent (x y x' y' : Z) : Prop :=
  (x' = x - 1 /\ y' = y) \/ (x' = x + 1 /\ y' = y) \/
  (x' = x /\ y' = y - 1) \/ (x' = x /\ y' = y + 1).

(** The matching tiles joined to the start by steps between adjacent
    matching tiles: the component of the start. *)
Inductive connected (level : Level) (mask target : Tile) (sx sy : Z)
  : Z -> Z -> Prop :=
| connected_start :
    matches mask target (level !!! cell sx sy) = true ->
    connected level mask target sx sy sx sy
| connected_step x y x' y' :
    connected level mask target sx sy x y ->
    adjacent x y x' y' -> in_level x' y' ->
    matches mask target (level !!! cell x' y') = true ->
    connected level mask target sx sy x' y'.

(** A visitor that never asks to stop and leaves the tile as it is. *)
Definition passive {D : Type} (func : Flood_Func D) : Prop :=
  forall t x y d, fst (fst (func t x y d)) = t /\ snd (func t x y d) = false.

(** The data a passive visitor holds after being called once on each of
    [visits], in that order. *)
Definition visit_all {D : Type} (func : Flood_Func D) (level : Level)
    (visits : list (Z * Z)) (data : D) : D :=
  foldl (fun d p => snd (fst (func (level !!! cell p.1 p.2) p.1 p.2 d))) data visits.

(** [tile & BIT(n)] as a truth value. *)
Definition has_bit (n : Z) (t : Tile) : bool := negb (Z.land t (BIT n) =? 0).

(** [x, y] is met before [px, py] by a scan that goes rows first. *)
Definition scanned_before (x y px py : Z) : Prop :=
  y < py \/ (y = py /\ x < px).

Definition first_player (level : Level) (px py : Z) : Prop :=
  in_level px py /\
  has_bit PLAYER (level !!! cell px py) = true /\
  forall x y, in_level x y -> scanned_before x y px py ->
    has_bit PLAYER (level !!! cell x y) = false.

Definition no_player (level : Level) : Prop :=
  forall x y, in_level x y -> has_bit PLAYER (level !!! cell x y) = false.

(** The mask of [level_is_completable]: floor, wall and spikes. *)
Definition walkable : Tile := Z.lor (Z.lor (BIT FLOOR) (BIT WALL)) (BIT SPIKES).

Definition reachable (level : Level) (px py x y : Z) : Prop :=
  connected level walkable (BIT FLOOR) px py x y.

(** The bitwise OR of the tiles at [cells]. *)
Definition tiles_or (level : Level) (cells : list (Z * Z)) : Tile :=
  foldl (fun acc p => Z.lor acc (level !!! cell p.1 p.2)) 0 cells.

Definition reaches_bit (level : Level) (px py n : Z) : Prop :=
  exists x y, reachable level px py x y /\ Z.testbit (level !!! cell x y) n = true.

(** The tiles of a level that carry the entity [n], rows first. *)
Definition cells_with (n : Z) (level : Level) : list (Z * Z) :=
  flat_map
    (fun y => flat_map
       (fun x => if has_bit n (level !!! cell x y) then [(x, y)] else [])
       (seqZ 0 LEVEL_SIZE))
    (seqZ 0 LEVEL_SIZE).

(** ** Notions used in the proofs about [flood] *)

(** A visitor that writes down where it is called. *)
Definition record_visit : Flood_Func (list (Z * Z)) :=
  fun t x y visits => (t, visits ++ [(x, y)], false).

(** What a visit does to the marks. *)
Definition mark_visit (x y : Z) (todo : list mark) : list mark :=
  let todo := <[cell x y := DONE]> todo in
  let todo := add_neighbour (0 <? x) (cell (x - 1) y) todo in
  let todo := add_neighbour (x <? LEVEL_SIZE - 1) (cell (x + 1) y) todo in
  let todo := add_neighbour (0 <? y) (cell x (y - 1)) todo in
  add_neighbour (y <? LEVEL_SIZE - 1) (cell x (y + 1)) todo.

Definition todo_wf (todo : list mark) : Prop :=
  length todo = Z.to_nat (LEVEL_SIZE * LEVEL_SIZE).

Definition bump (b : bool) (m : mark) : mark :=
  if b && negb (is_DONE m) then TODO else m.

(** No tile marked TODO matches: further passes visit nothing. *)
Definition settled (level : Level) (mask target : Tile) (todo : list mark) : Prop :=
  forall x y, in_level x y -> todo !!! cell x y = TODO ->
    matches mask target (level !!! cell x y) = false.

(** The invariant of the recording flood from [sx, sy]. *)
Record flood_inv (level : Level) (mask target : Tile) (sx sy : Z)
    (s : flood_state (list (Z * Z))) : Prop := FloodInv {
  inv_level : fl_level s = level;
  inv_todo : todo_wf (fl_todo s);
  inv_nodup : NoDup (fl_data s);
  inv_visited : forall x y, (x, y) ∈ fl_data s ->
    in_level x y /\ connected level mask target sx sy x y /\
    fl_todo s !!! cell x y = DONE;
  inv_done : forall x y, in_level x y -> fl_todo s !!! cell x y = DONE ->
    (x, y) ∈ fl_data s;
  inv_steps : fl_steps s = Z.of_nat (length (fl_data s));
  inv_marked : forall x y, in_level x y -> fl_todo s !!! cell x y <> UNMARKED ->
    (x = sx /\ y = sy) \/
    exists a b, in_level a b /\ adjacent a b x y /\ fl_todo s !!! cell a b = DONE;
  inv_start : fl_todo s !!! cell sx sy <> UNMARKED;
  inv_front : forall x y a b, in_level x y -> in_level a b -> adjacent x y a b ->
    fl_todo s !!! cell x y = DONE -> fl_todo s !!! cell a b <> UNMARKED
}.

(** The pass that started in [s0] has come to [s] after the tiles in
    [scanned]. *)
Definition sweep_inv (level : Level) (mask target : Tile) (sx sy : Z)
    (s0 : flood_state (list (Z * Z))) (scanned : Z -> Z -> Prop)
    (s : flood_state (list (Z * Z))) : Prop :=
  flood_inv level mask target sx sy s /\
  fl_steps s0 <= fl_steps s /\
  (fl_steps s = fl_steps s0 ->
     fl_todo s = fl_todo s0 /\ fl_data s = fl_data s0 /\
     forall x y, scanned x y -> in_level x y -> fl_todo s0 !!! cell x y = TODO ->
       matches mask target (level !!! cell x y) = false) /\
  (fl_cleared s = true -> fl_steps s = fl_steps s0) /\
  (settled level mask target (fl_todo s0) -> fl_steps s = fl_steps s0).

(** [visits] lists the component of the start, each tile once. *)
Definition enumerates (level : Level) (mask target : Tile) (sx sy : Z)
    (visits : list (Z * Z)) : Prop :=
  NoDup visits /\
  forall x y, (x, y) ∈ visits <-> connected level mask target sx sy x y.

(** A flood with a passive visitor and the recording flood, side by side. *)
Definition flood_sim {D : Type} (level : Level) (func : Flood_Func D) (data : D)
    (s : flood_state D) (r : flood_state (list (Z * Z))) : Prop :=
  fl_level s = level /\ fl_level r = level /\
  fl_todo s = fl_todo r /\ fl_steps s = fl_steps r /\
  fl_cleared s = fl_cleared r /\
  fl_data s = visit_all func level (fl_data r) data.

(** One row of [find_player]. *)
Definition player_row (level : Level) (y : Z) : unit -> ctl unit (Z * Z) :=
  for_each (seqZ 0 LEVEL_SIZE)
    (fun x (_ : unit) =>
       if negb (Z.land (level !!! cell x y) (BIT PLAYER) =? 0)
       then Return (x, y) else Go tt).

(** A tile that neither the flood of [level_is_completable] enters nor
    [find_player] stops at. *)
Definition inert (t : Tile) : Prop :=
  matches walkable (BIT FLOOR) t = false /\ has_bit PLAYER t = false.

Definition same_play (l1 l2 : Level) : Prop :=
  forall x y, in_level x y ->
    l1 !!! cell x y = l2 !!! cell x y \/
    (inert (l1 !!! cell x y) /\ inert (l2 !!! cell x y)).

(** ** The fill sweep as the specification words it *)

(** Every inner tile is tried, whatever happened to the tiles before it:
    [fill_attempt] without leaving the row. *)
Definition fill_try (y : Z) (level : Level) (x : Z) : Level :=
  match fill_attempt y x level with
  | Go l => l
  | Return l => l
  end.

Definition fill_row_spec (level : Level) (y : Z) : Level :=
  foldl (fill_try y) level (seqZ 1 (LEVEL_SIZE - 2)).

Definition fill_sweep_spec (level : Level) : Level :=
  foldl fill_row_spec level (seqZ 1 (LEVEL_SIZE - 2)).

(** ** Sample levels *)

(** The walled room of [empty_level] with the player at (5, 5), the key
    at (7, 9) and the locked exit at (17, 12). *)
Definition sample_level : Level :=
  <[cell 5 5 := Z.lor (BIT FLOOR) (BIT PLAYER)]>
    (<[cell 7 9 := Z.lor (BIT FLOOR) (BIT KEY)]>
       (<[cell 17 12 := Z.lor (BIT FLOOR) (Z.lor (BIT EXIT) (BIT LOCK))]>
          (empty_level zero_level))).

(** The sample level with walls on the four sides of the key. *)
Definition walled_key_level : Level :=
  <[cell 6 9 := BIT WALL]>
    (<[cell 8 9 := BIT WALL]>
       (<[cell 7 8 := BIT WALL]>
          (<[cell 7 10 := BIT WALL]> sample_level))).

(** One corridor, a tile wide, that winds through the level: the odd
    rows, joined at alternating ends. *)
Definition corridor_tile (x y : Z) : Tile :=
  if (0 <? x) && (x <? LEVEL_SIZE - 1) && (0 <? y) && (y <? LEVEL_SIZE - 1)
     && (Z.odd y || (x =? (if y mod 4 =? 2 then LEVEL_SIZE - 2 else 1)))
  then BIT FLOOR else BIT WALL.

Definition corridor_level : Level :=
  flat_map (fun y => map (fun x => corridor_tile x y) (seqZ 0 LEVEL_SIZE))
    (seqZ 0 LEVEL_SIZE).

(** The seed that [set_seed(2018, 1)] leaves from a zeroed state. *)
Definition corridor_seed : Seed := set_seed 2018 1 (0, 0).

(** The seed that [set_seed(234, 1)] leaves from a zeroed state: the
    first tile it draws inside the walls is (6, 9). *)
Definition wall_seed : Seed := set_seed 234 1 (0, 0).

(** ** A flood that stops at the first pass without a visit *)

(** The outer loop of [flood], left also after a pass that visited
    nothing: what the proofs evaluate in place of [flood_loop]. *)
Fixpoint flood_loop_lazy {D : Type} (n : nat) (mask target : Tile) (func : Flood_Func D)
    (s : flood_state D) : flood_result D :=
  match n with
  | O => FloodResult (fl_level s) (fl_data s) (fl_steps s)
  | S n' =>
      match flood_sweep mask target func
              (FloodState (fl_level s) (fl_todo s) (fl_steps s) (fl_data s) true) with
      | Return r => r
      | Go s' =>
          if fl_cleared s' || (fl_steps s' =? fl_steps s)
          then FloodResult (fl_level s') (fl_data s') (fl_steps s')
          else flood_loop_lazy n' mask target func s'
      end
  end.

Definition flood_lazy {D : Type} (level : Level) (start_x start_y : Z) (mask target : Tile)
    (func : Flood_Func D) (data : D) : flood_result D :=
  let todo := replicate (Z.to_nat (LEVEL_SIZE * LEVEL_SIZE)) UNMARKED in
  let todo := <[cell start_x start_y := TODO]> todo in
  flood_loop_lazy (Z.to_nat (LEVEL_SIZE * LEVEL_SIZE)) mask target func
    (FloodState level todo 0 data true).

(** [s'] is [s] after some tiles of a pass: the step count went up, or
    nothing was visited and nothing but the flag has changed. *)
Definition pass_progress {D : Type} (s s' : flood_state D) : Prop :=
  fl_steps s <= fl_steps s' /\
  (fl_steps s' = fl_steps s ->
     fl_level s' = fl_level s /\ fl_todo s' = fl_todo s /\ fl_data s' = fl_data s).

Definition key_and_exit : Tile := Z.lor (BIT KEY) (BIT EXIT).

(** ** Printing a level (common.c, [print_ascii_level]) *)

Definition ENTITY_TYPE_COUNT : Z := 9.

Global Instance ascii_inhabited : Inhabited ascii := populate Ascii.zero.

(** [char entity_chars[] = " _#^E%*KEP"] *)
Definition entity_chars : list ascii :=
  [" "; "_"; "#"; "^"; "E"; "%"; "*"; "K"; "E"; "P"; Ascii.zero]%char.

(** [for (int bit = 1; bit <= ENTITY_TYPE_COUNT; ++bit)
       if (tile & BIT(bit)) top_entity = bit;] from [top_entity = 0]. *)
Definition top_entity (tile : Tile) : Z :=
  foldl (fun top bit => if negb (Z.land tile (BIT bit) =? 0) then bit else top)
    0 (seqZ 1 ENTITY_TYPE_COUNT).

(** The characters [print_ascii_level] writes to the standard output. *)
Definition print_ascii_level (level : Level) : list ascii :=
  flat_map
    (fun y =>
       map (fun x => entity_chars !!! Z.to_nat (top_entity (level !!! cell x y)))
         (seqZ 0 LEVEL_SIZE)
       ++ ["010"%char])
    (seqZ 0 LEVEL_SIZE).

(** ** The unverified generators and placer (level.c) *)

(** [scatter_generator]: walls everywhere, then floor on tiles drawn at
    random. *)
Definition scatter_generator (level : Level) : Rand Level :=
  let portion_of_level_to_be_floor := float_lit 5 10 in
  let floor_count :=
    int_of_float (fmul portion_of_level_to_be_floor
                    (float_of_int (LEVEL_SIZE * LEVEL_SIZE))) in
  let level := fill_level level WALL in
  for_rand (seqZ 0 floor_count)
    (fun _ level =>
       draw x <- random_int_range 1 (LEVEL_SIZE - 2);
       draw y <- random_int_range 1 (LEVEL_SIZE - 2);
       ret (<[cell x y := BIT FLOOR]> level))
    level.

(** [#define MIN(a, b) (a < b ? a : b)], [#define MAX(a, b) (a > b ? a : b)],
    [#define CLAMP(low, val, high) MIN(MAX(low, val), high)] *)
Definition MIN (a b : Z) : Z := if a <? b then a else b.
Definition MAX (a b : Z) : Z := if a >? b then a else b.
Definition CLAMP (low val high : Z) : Z := MIN (MAX low val) high.

(** [enum { UP = 1, DOWN, LEFT, RIGHT }] *)
Definition UP : Z := 1.
Definition DOWN : Z := 2.
Definition LEFT : Z := 3.
Definition RIGHT : Z := 4.

(** The digger of [digger_generator]: the level, where it stands, where
    it heads and the chance that it turns. *)
Record digger : Type := Digger {
  dg_level : Level;
  digger_x : Z;
  digger_y : Z;
  dg_direction : Z;
  turn_chance : float
}.

(** The body of the loop over [count]: dig, step, stay inside the outer
    wall, turn or grow the chance of a turn. *)
Definition dig (turn_chance_step : float) (d : digger) : Rand (outcome digger) :=
  if negb (in_array (digger_x d) (digger_y d)) then ret OutOfBounds
  else
    let i := cell (digger_x d) (digger_y d) in
    let level := <[i := Z.land (dg_level d !!! i) (Z.lnot (BIT WALL))]> (dg_level d) in
    let level := <[i := BIT FLOOR]> level in
    let '(x, y) :=
      if dg_direction d =? UP then (digger_x d, digger_y d - 1)
      else if dg_direction d =? DOWN then (digger_x d, digger_y d + 1)
      else if dg_direction d =? LEFT then (digger_x d - 1, digger_y d)
      else if dg_direction d =? RIGHT then (digger_x d + 1, digger_y d)
      else (digger_x d, digger_y d) in
    let x := CLAMP 1 x (LEVEL_SIZE - 2) in
    let y := CLAMP 1 y (LEVEL_SIZE - 2) in
    draw turn <- chance (turn_chance d);
    if turn then
      draw dir <- random_int_range 1 4;
      ret (Finished (Digger level x y dir (turn_chance d)))
    else
      ret (Finished (Digger level x y (dg_direction d)
                       (fadd (turn_chance d) turn_chance_step))).

Fixpoint digs (turn_chance_step : float) (count : nat) (d : digger)
  : Rand (outcome digger) :=
  match count with
  | O => ret (Finished d)
  | S n =>
      draw r <- dig turn_chance_step d;
      match r with
      | Finished d' => digs turn_chance_step n d'
      | OutOfFuel => ret OutOfFuel
      | OutOfBounds => ret OutOfBounds
      end
  end.

(** [do { digger_x = ...; digger_y = ...; }
    while (i > 0 && (level[digger_x + digger_y * LEVEL_SIZE] != BIT(FLOOR)));]:
    in the first iteration the tile is not read and the first draw
    stands. *)
Definition digger_start (fuel : nat) (i : Z) (level : Level) : Rand (outcome (Z * Z)) :=
  if 0 <? i then choose_floor fuel level
  else
    draw x <- random_int_range 1 (LEVEL_SIZE - 1);
    draw y <- random_int_range 1 (LEVEL_SIZE - 1);
    ret (Finished (x, y)).

(** One pass of the loop over [iterations]. *)
Definition digger_iteration (fuel : nat) (turn_chance_step ideal_walkable_portion : float)
    (i : Z) (level : Level) : Rand (outcome Level) :=
  let turn_chance := turn_chance_step in
  draw start <- digger_start fuel i level;
  match start with
  | OutOfFuel => ret OutOfFuel
  | OutOfBounds => ret OutOfBounds
  | Finished (x, y) =>
      draw dir <- random_int_range 1 4;
      let ideal_walkable :=
        int_of_float (fmul ideal_walkable_portion
                        (float_of_int (LEVEL_SIZE * LEVEL_SIZE))) in
      draw r <- digs turn_chance_step (Z.to_nat ideal_walkable)
                  (Digger level x y dir turn_chance);
      match r with
      | Finished d => ret (Finished (dg_level d))
      | OutOfFuel => ret OutOfFuel
      | OutOfBounds => ret OutOfBounds
      end
  end.

Fixpoint digger_iterations (fuel : nat) (turn_chance_step ideal_walkable_portion : float)
    (passes : list Z) (level : Level) : Rand (outcome Level) :=
  match passes with
  | [] => ret (Finished level)
  | i :: passes' =>
      draw r <- digger_iteration fuel turn_chance_step ideal_walkable_portion i level;
      match r with
      | Finished level' =>
          digger_iterations fuel turn_chance_step ideal_walkable_portion passes' level'
      | OutOfFuel => ret OutOfFuel
      | OutOfBounds => ret OutOfBounds
      end
  end.

(** [digger_generator]; [fuel] bounds each search for a start tile. *)
Definition digger_generator (fuel : nat) (level : Level)
    (parameters : option (float * float * float)) : Rand (outcome Level) :=
  let iterations := 5 in
  let turn_chance_step := float_lit 1 100 in
  let ideal_walkable_portion := float_lit 2 10 in
  let '(turn_chance_step, ideal_walkable_portion) :=
    match parameters with
    | Some (_, p1, p2) =>
        (fmul turn_chance_step (fmul (float_of_int 2) p1),
         fmul ideal_walkable_portion (fmul (float_of_int 2) p2))
    | None => (turn_chance_step, ideal_walkable_portion)
    end in
  digger_iterations fuel turn_chance_step ideal_walkable_portion
    (seqZ 0 iterations) level.

(** The two loops of [basic_room_generator] that lay the floor of a room. *)
Definition room_floor (level : Level) (top_left_x top_left_y width height : Z) : Level :=
  foldl
    (fun level y =>
       foldl
         (fun level x =>
            let tx := top_left_x + x in
            let ty := top_left_y + y in
            let tx := CLAMP 1 tx (LEVEL_SIZE - 2) in
            let ty := CLAMP 1 ty (LEVEL_SIZE - 2) in
            <[cell tx ty := BIT FLOOR]> level)
         level (seqZ 0 width))
    level (seqZ 0 height).

Fixpoint basic_rooms (fuel : nat) (count : nat) (level : Level) : Rand (outcome Level) :=
  match count with
  | O => ret (Finished level)
  | S n =>
      let min_width := 2 in
      let max_width := 6 in
      let min_height := 2 in
      let max_height := 6 in
      draw center <- choose_floor fuel level;
      match center with
      | OutOfFuel => ret OutOfFuel
      | OutOfBounds => ret OutOfBounds
      | Finished (center_x, center_y) =>
          draw width <- random_int_range min_width max_width;
          draw height <- random_int_range min_height max_height;
          let top_left_x := center_x - Z.quot width 2 in
          let top_left_y := center_y - Z.quot height 2 in
          basic_rooms fuel n (room_floor level top_left_x top_left_y width height)
      end
  end.

(** [basic_room_generator]; [fuel] bounds each search for a centre. *)
Definition basic_room_generator (fuel : nat) (level : Level) : Rand (outcome Level) :=
  let count := 8%nat in
  basic_rooms fuel count level.

(** [scatter_placer]: the entities of [scatter_entities], then the locked
    door, the key and the player, each on a bare floor tile drawn at
    random.  The parameters are not read. *)
Definition scatter_placer (fuel : nat) (level : Level)
    (parameters : option (float * float * float)) : Rand (outcome Level) :=
  let gold_chance := float_lit 7 100 in
  let enemy_chance := float_lit 3 100 in
  let spikes_chance := float_lit 3 100 in
  draw level <- scatter_entities gold_chance enemy_chance spikes_chance level;
  draw door <- choose_floor fuel level;
  match door with
  | OutOfFuel => ret OutOfFuel
  | OutOfBounds => ret OutOfBounds
  | Finished (x, y) =>
      let level :=
        <[cell x y := Z.lor (Z.lor (BIT FLOOR) (BIT EXIT)) (BIT LOCK)]> level in
      draw key <- choose_floor fuel level;
      match key with
      | OutOfFuel => ret OutOfFuel
      | OutOfBounds => ret OutOfBounds
      | Finished (x, y) =>
          let level := <[cell x y := Z.lor (BIT FLOOR) (BIT KEY)]> level in
          draw player <- choose_floor fuel level;
          match player with
          | OutOfFuel => ret OutOfFuel
          | OutOfBounds => ret OutOfBounds
          | Finished (x, y) =>
              ret (Finished (<[cell x y := Z.lor (BIT FLOOR) (BIT PLAYER)]> level))
          end
      end
  end.

(** ** The flood of the editor (editor.c) *)

(** [verify_level]: marks the tile with spikes, notes a key and an exit,
    and asks to stop once both have been met. *)
Definition verify_level : Flood_Func (bool * bool) :=
  fun tile _ _ found =>
    let tile := Z.lor tile (BIT SPIKES) in
    let key := if negb (Z.land tile (BIT KEY) =? 0) then true else fst found in
    let exit := if negb (Z.land tile (BIT EXIT) =? 0) then true else snd found in
    (tile, (key, exit), key && exit).

(** [is_key]: marks the tile with spikes and asks to stop on a key. *)
Definition is_key : Flood_Func unit :=
  fun tile _ _ data =>
    let tile := Z.lor tile (BIT SPIKES) in
    (tile, data, negb (Z.land tile (BIT KEY) =? 0)).

(** The flood started by the key Z of the editor at the tile under the
    cursor: [flood(level, tx, ty, BIT(FLOOR), BIT(FLOOR) | BIT(WALL),
    verify_level, &found)] with [found = {0}]. *)
Definition editor_flood (level : Level) (tx ty : Z) : flood_result (bool * bool) :=
  flood level tx ty (BIT FLOOR) (Z.lor (BIT FLOOR) (BIT WALL)) verify_level (false, false).

(** ** One step of the game (game.c, [update_level]) *)

(** [#define STATIC_ENTITIES (BIT(FLOOR) | BIT(WALL) | BIT(SPIKES) | BIT(EXIT))],
    [#define SOLID_ENTITIES (BIT(WALL))] *)
Definition STATIC_ENTITIES : Z :=
  Z.lor (Z.lor (Z.lor (BIT FLOOR) (BIT WALL)) (BIT SPIKES)) (BIT EXIT).
Definition SOLID_ENTITIES : Z := BIT WALL.

(** What [update_level] reads and writes: the level, the level it
    builds, the counters [gold_collected] and [enemies_killed] of the
    program, and its two flags.  (The counters are [int]; they are not
    made to wrap here.) *)
Record game : Type := Game {
  gm_level : Level;
  updated_level : Level;
  gold_collected : Z;
  enemies_killed : Z;
  key_has_been_collected : bool;
  game_over : bool
}.

(** [if (direction == UP) --new_y; else if (direction == DOWN) ++new_y; else
    if (direction == LEFT) --new_x; else if (direction == RIGHT) ++new_x;] *)
Definition step_to (direction x y : Z) : Z * Z :=
  if direction =? UP then (x, y - 1)
  else if direction =? DOWN then (x, y + 1)
  else if direction =? LEFT then (x - 1, y)
  else if direction =? RIGHT then (x + 1, y)
  else (x, y).

(** A counted loop whose body draws from the random source and may
    leave the array. *)
Fixpoint for_outcome {A : Type} (xs : list Z) (body : Z -> A -> Rand (outcome A)) (a : A)
  : Rand (outcome A) :=
  match xs with
  | [] => ret (Finished a)
  | x :: xs' =>
      draw r <- body x a;
      match r with
      | Finished a' => for_outcome xs' body a'
      | OutOfFuel => ret OutOfFuel
      | OutOfBounds => ret OutOfBounds
      end
  end.

(** [if (tile & BIT(ENEMY)) { ... }]: the enemy goes one way out of six,
    two of which are to stay, unless a solid tile is there. *)
Definition move_enemy (x y : Z) (g : game) : Rand (outcome game) :=
  draw direction <- random_int_range 1 6;
  let '(new_x, new_y) := step_to direction x y in
  if negb (in_array new_x new_y) then ret OutOfBounds
  else
    let updated := updated_level g in
    let updated :=
      if Z.land (gm_level g !!! cell new_x new_y) SOLID_ENTITIES =? 0
      then <[cell new_x new_y := Z.lor (updated !!! cell new_x new_y) (BIT ENEMY)]> updated
      else <[cell x y := Z.lor (updated !!! cell x y) (BIT ENEMY)]> updated in
    ret (Finished (Game (gm_level g) updated (gold_collected g) (enemies_killed g)
                     (key_has_been_collected g) (game_over g))).

(** [if (tile & BIT(PLAYER)) { ... }] *)
Definition move_player (direction x y : Z) (g : game) : outcome game :=
  let i := cell x y in
  let '(updated, killed) :=
    if negb (Z.land (updated_level g !!! i) (BIT ENEMY) =? 0)
    then (<[i := Z.lxor (updated_level g !!! i) (BIT ENEMY)]> (updated_level g),
          enemies_killed g + 1)
    else (updated_level g, enemies_killed g) in
  let '(new_x, new_y) := step_to direction x y in
  if negb (in_array new_x new_y) then OutOfBounds
  else
    let j := cell new_x new_y in
    let new_tile := gm_level g !!! j in
    if Z.land new_tile SOLID_ENTITIES =? 0 then
      let updated := <[j := Z.lor (updated !!! j) (BIT PLAYER)]> updated in
      let '(level, gold) :=
        if negb (Z.land new_tile (BIT GOLD) =? 0)
        then (<[j := Z.lxor (gm_level g !!! j) (BIT GOLD)]> (gm_level g),
              gold_collected g + 1)
        else (gm_level g, gold_collected g) in
      let level :=
        if negb (Z.land new_tile (BIT KEY) =? 0)
        then <[j := Z.lxor (level !!! j) (BIT KEY)]> level
        else level in
      let '(level, killed) :=
        if negb (Z.land new_tile (BIT ENEMY) =? 0)
        then (<[j := Z.lxor (level !!! j) (BIT ENEMY)]> level, killed + 1)
        else (level, killed) in
      let over :=
        if negb (Z.land new_tile (BIT EXIT) =? 0) && (Z.land new_tile (BIT LOCK) =? 0)
        then true else game_over g in
      let over :=
        if negb (Z.land new_tile (BIT SPIKES) =? 0) then true else over in
      Finished (Game level updated gold killed (key_has_been_collected g) over)
    else
      Finished (Game (gm_level g) (<[i := Z.lor (updated !!! i) (BIT PLAYER)]> updated)
                  (gold_collected g) killed (key_has_been_collected g) (game_over g)).

(** The body of the first pass at the tile [x, y]. *)
Definition update_tile (direction y x : Z) (g : game) : Rand (outcome game) :=
  let tile := gm_level g !!! cell x y in
  draw r <-
    (if negb (Z.land tile (BIT ENEMY) =? 0) then move_enemy x y g
     else ret (Finished g));
  match r with
  | Finished g =>
      if negb (Z.land tile (BIT PLAYER) =? 0) then ret (move_player direction x y g)
      else ret (Finished g)
  | OutOfFuel => ret OutOfFuel
  | OutOfBounds => ret OutOfBounds
  end.

(** The body of the second pass: gold and keys that are still in the
    level. *)
Definition collect_tile (y x : Z) (g : game) : game :=
  let i := cell x y in
  let tile := gm_level g !!! i in
  let updated :=
    if negb (Z.land tile (BIT GOLD) =? 0)
    then <[i := Z.lor (updated_level g !!! i) (BIT GOLD)]> (updated_level g)
    else updated_level g in
  if negb (Z.land tile (BIT KEY) =? 0) then
    Game (gm_level g) (<[i := Z.lor (updated !!! i) (BIT KEY)]> updated)
      (gold_collected g) (enemies_killed g) false (game_over g)
  else
    Game (gm_level g) updated (gold_collected g) (enemies_killed g)
      (key_has_been_collected g) (game_over g).

(** The body of the last pass: the lock stays while a key is left. *)
Definition lock_tile (y x : Z) (g : game) : game :=
  let i := cell x y in
  let tile := gm_level g !!! i in
  if negb (Z.land tile (BIT LOCK) =? 0) && negb (key_has_been_collected g) then
    Game (gm_level g) (<[i := Z.lor (updated_level g !!! i) (BIT LOCK)]> (updated_level g))
      (gold_collected g) (enemies_killed g) (key_has_been_collected g) (game_over g)
  else g.

(** A pass over every tile, rows first. *)
Definition every_tile {A : Type} (body : Z -> Z -> A -> A) (a : A) : A :=
  foldl (fun a y => foldl (fun a x => body y x a) a (seqZ 0 LEVEL_SIZE))
    a (seqZ 0 LEVEL_SIZE).

(** [Level updated_level = {0};
    for (i ...) updated_level[i] |= level[i] & STATIC_ENTITIES;] *)
Definition static_level (level : Level) : Level :=
  foldl (fun updated i =>
           <[i := Z.lor (updated !!! i) (Z.land (level !!! i) STATIC_ENTITIES)]> updated)
    zero_level (seq 0 (Z.to_nat (LEVEL_SIZE * LEVEL_SIZE))).

(** [for (i ...) level[i] = updated_level[i];] *)
Definition copy_level (level updated : Level) : Level :=
  foldl (fun level i => <[i := updated !!! i]> level)
    level (seq 0 (Z.to_nat (LEVEL_SIZE * LEVEL_SIZE))).

(** [update_level]: the level after the step, whether the game has
    ended, and the two counters. *)
Definition update_level (level : Level) (direction : Z) (gold killed : Z)
  : Rand (outcome (Level * bool * Z * Z)) :=
  let g := Game level (static_level level) gold killed true false in
  draw r <-
    for_outcome (seqZ 0 LEVEL_SIZE)
      (fun y => for_outcome (seqZ 0 LEVEL_SIZE) (update_tile direction y)) g;
  match r with
  | Finished g =>
      let g := every_tile collect_tile g in
      let g := every_tile lock_tile g in
      ret (Finished (copy_level (gm_level g) (updated_level g), game_over g,
                     gold_collected g, enemies_killed g))
  | OutOfFuel => ret OutOfFuel
  | OutOfBounds => ret OutOfBounds
  end.

(** ** Predicates for the properties of the rest of the code *)

(** The tile of the walled room at [x, y]: wall on the border, floor
    inside. *)
Definition ring_tile (x y : Z) : Z :=
  if (x =? 0) || (x =? LEVEL_SIZE - 1) || (y =? 0) || (y =? LEVEL_SIZE - 1)
  then BIT WALL else BIT FLOOR.

(** A level got from [level0] by turning tiles into bare walls, still
    completable. *)
Definition walled_from (level0 l : Level) : Prop :=
  level_wf l /\ level_is_completable l = true /\
  forall i : nat, l !!! i = level0 !!! i \/ l !!! i = BIT WALL.

(** The tiles that hold the player are those of [level0], unchanged. *)
Definition players_kept (level0 l : Level) : Prop :=
  forall i : nat,
    has_bit PLAYER (l !!! i) = has_bit PLAYER (level0 !!! i) /\
    (has_bit PLAYER (level0 !!! i) = true -> l !!! i = level0 !!! i).

(** A tile the flood of [level_is_completable] does not enter gives way
    to one that, besides, holds no player. *)
Definition walls_in (l1 l2 : Level) : Prop :=
  forall x y, in_level x y ->
    l1 !!! cell x y = l2 !!! cell x y \/
    (matches walkable (BIT FLOOR) (l1 !!! cell x y) = false /\ inert (l2 !!! cell x y)).

(** The number of tiles marked DONE. *)
Definition done_count (todo : list mark) : nat :=
  sum_list_with (fun m => if is_DONE m then 1%nat else 0%nat) todo.

(** Between passes and tiles of any flood: every visit so far has left
    one mark DONE. *)
Definition flood_counted {D : Type} (n : nat) (s : flood_state D) : Prop :=
  length (fl_todo s) = Z.to_nat (LEVEL_SIZE * LEVEL_SIZE) /\
  fl_steps s = Z.of_nat (done_count (fl_todo s)) /\
  length (fl_level s) = n.

Definition flood_bounded {D : Type} (n : nat) (r : flood_result D) : Prop :=
  0 <= fr_steps r <= LEVEL_SIZE * LEVEL_SIZE /\ length (fr_level r) = n.

(** What the visitor of the editor may have done to a tile. *)
Definition spiked (t0 t : Tile) : Prop :=
  t = t0 \/ (t = Z.lor t0 (BIT SPIKES) /\ Z.testbit t0 FLOOR = true).

(** [top] is the highest entity of [tile] among the first [n]: 0 when
    the tile holds none of them. *)
Definition highest_entity (n : Z) (tile : Tile) (top : Z) : Prop :=
  (top = 0 /\ forall b, 1 <= b <= n -> has_bit b tile = false) \/
  (1 <= top <= n /\ has_bit top tile = true /\
   forall b, top < b <= n -> has_bit b tile = false).

(** What the scattering of entities may do to a tile: it gains bits,
    and only those of gold, an enemy or spikes. *)
Definition scattered (t t' : Tile) : Prop :=
  forall b, 0 <= b ->
    (Z.testbit t b = true -> Z.testbit t' b = true) /\
    (b <> GOLD -> b <> ENEMY -> b <> SPIKES -> Z.testbit t' b = Z.testbit t b).

(** The tiles of a level hold none of the entities that a placer puts
    down once. *)
Definition unplaced (level : Level) : Prop :=
  forall i : nat,
    has_bit EXIT (level !!! i) = false /\ has_bit LOCK (level !!! i) = false /\
    has_bit KEY (level !!! i) = false /\ has_bit PLAYER (level !!! i) = false.

(** The exit and the lock are at the index [i] and nowhere else, the key
    at [j], the player at [k]. *)
Definition placed_once (level : Level) (i j k : nat) : Prop :=
  forall n : nat,
    has_bit EXIT (level !!! n) = bool_decide (n = i) /\
    has_bit LOCK (level !!! n) = bool_decide (n = i) /\
    has_bit KEY (level !!! n) = bool_decide (n = j) /\
    has_bit PLAYER (level !!! n) = bool_decide (n = k).

(** An index that is not one of the inner tiles. *)
Definition outside_inner (j : nat) : Prop :=
  forall x y, 1 <= x <= LEVEL_SIZE - 2 -> 1 <= y <= LEVEL_SIZE - 2 -> cell x y <> j.

(** A level got from [level0] by laying bare floor. *)
Definition dug_from (level0 l : Level) : Prop :=
  length l = length level0 /\
  forall j : nat, l !!! j = level0 !!! j \/ l !!! j = BIT FLOOR.

(** The entities that [update_level] copies over as they are. *)
Definition static_bit (b : Z) : Prop := b = FLOOR \/ b = WALL \/ b = SPIKES \/ b = EXIT.

(** During the first pass of [update_level] on [level0]: the level has
    lost at most gold, keys and enemies, the level that is built has the
    static entities of [level0] and, besides, only enemies and players,
    none of them in a wall unless [level0] had it there. *)
Record playing (level0 level updated : Level) : Prop := Playing {
  pl_level_len : length level = 484%nat;
  pl_updated_len : length updated = 484%nat;
  pl_level_fixed : forall (i : nat) b, (i < 484)%nat ->
    0 <= b -> b <> GOLD -> b <> KEY -> b <> ENEMY ->
    Z.testbit (level !!! i) b = Z.testbit (level0 !!! i) b;
  pl_level_less : forall (i : nat) b, (i < 484)%nat -> 0 <= b ->
    Z.testbit (level !!! i) b = true -> Z.testbit (level0 !!! i) b = true;
  pl_static : forall (i : nat) b, (i < 484)%nat -> static_bit b ->
    Z.testbit (updated !!! i) b = Z.testbit (level0 !!! i) b;
  pl_solid : forall (i : nat) b, (i < 484)%nat -> b = ENEMY \/ b = PLAYER ->
    Z.testbit (updated !!! i) b = true ->
    Z.testbit (level0 !!! i) WALL = false \/ Z.testbit (level0 !!! i) b = true;
  pl_moving : forall (i : nat) b, (i < 484)%nat -> 0 <= b ->
    Z.testbit (updated !!! i) b = true ->
    static_bit b \/ b = ENEMY \/ b = PLAYER
}.

(** During the later passes, over the level [level1] that the first pass
    has left. *)
Record collecting (level0 level1 updated : Level) : Prop := Collecting {
  co_updated_len : length updated = 484%nat;
  co_static : forall (i : nat) b, (i < 484)%nat -> static_bit b ->
    Z.testbit (updated !!! i) b = Z.testbit (level0 !!! i) b;
  co_solid : forall (i : nat) b, (i < 484)%nat -> b = ENEMY \/ b = PLAYER ->
    Z.testbit (updated !!! i) b = true ->
    Z.testbit (level0 !!! i) WALL = false \/ Z.testbit (level0 !!! i) b = true;
  co_known : forall (i : nat) b, (i < 484)%nat -> 0 <= b ->
    Z.testbit (updated !!! i) b = true -> 1 <= b <= ENTITY_TYPE_COUNT;
  co_kept : forall (i : nat) b, (i < 484)%nat -> b = GOLD \/ b = KEY \/ b = LOCK ->
    Z.testbit (updated !!! i) b = true -> Z.testbit (level1 !!! i) b = true
}.

(** Without a player nothing ends the game or moves the counters. *)
Definition quiet (gold killed : Z) (g : game) : Prop :=
  game_over g = false /\ gold_collected g = gold /\ enemies_killed g = killed.

(** What the first pass keeps, tile after tile. *)
Definition first_pass_inv (level0 : Level) (gold killed : Z) (g : game) : Prop :=
  playing level0 (gm_level g) (updated_level g) /\
  ((forall i : nat, (i < 484)%nat -> Z.testbit (level0 !!! i) PLAYER = false) ->
   quiet gold killed g).

(** What the later passes keep. *)
Definition later_pass_inv (level0 level1 : Level) (g0 g : game) : Prop :=
  collecting level0 level1 (updated_level g) /\
  gm_level g = level1 /\
  game_over g = game_over g0 /\ gold_collected g = gold_collected g0 /\
  enemies_killed g = enemies_killed g0.

(** What [update_level] has made of [level]. *)
Record updated_from (level level' : Level) : Prop := UpdatedFrom {
  up_length : length level' = 484%nat;
  up_static : forall (i : nat) b, (i < 484)%nat -> static_bit b ->
    Z.testbit (level' !!! i) b = Z.testbit (level !!! i) b;
  up_solid : forall (i : nat) b, (i < 484)%nat -> b = ENEMY \/ b = PLAYER ->
    Z.testbit (level' !!! i) b = true ->
    Z.testbit (level !!! i) WALL = false \/ Z.testbit (level !!! i) b = true;
  up_known : forall (i : nat) b, (i < 484)%nat -> 0 <= b ->
    Z.testbit (level' !!! i) b = true -> 1 <= b <= ENTITY_TYPE_COUNT;
  up_kept : forall (i : nat) b, (i < 484)%nat -> b = GOLD \/ b = KEY \/ b = LOCK ->
    Z.testbit (level' !!! i) b = true -> Z.testbit (level !!! i) b = true
}.

(** Where the step of a player at [x, y] ends: on the tile it heads for,
    or where it was when a wall is there. *)
Definition player_target (level : Level) (direction x y : Z) : nat :=
  let '(new_x, new_y) := step_to direction x y in
  if Z.testbit (level !!! cell new_x new_y) WALL then cell x y else cell new_x new_y.

(** Whether that step ends the game: spikes, or an exit without a lock,
    on a tile that is not a wall. *)
Definition step_ends_game (level : Level) (direction x y : Z) : bool :=
  let '(new_x, new_y) := step_to direction x y in
  let new_tile := level !!! cell new_x new_y in
  negb (Z.testbit new_tile WALL) &&
  (Z.testbit new_tile SPIKES || Z.testbit new_tile EXIT && negb (Z.testbit new_tile LOCK)).

(** Whether that step collects gold. *)
Definition step_collects_gold (level : Level) (direction x y : Z) : bool :=
  let '(new_x, new_y) := step_to direction x y in
  let new_tile := level !!! cell new_x new_y in
  negb (Z.testbit new_tile WALL) && Z.testbit new_tile GOLD.

(** The only player of [level] is at the index [p]. *)
Definition only_player (level : Level) (p : nat) : Prop :=
  forall i : nat, (i < 484)%nat -> Z.testbit (level !!! i) PLAYER = bool_decide (i = p).

(** The first pass before it comes to the only player, at [x, y]. *)
Definition before_player (level0 : Level) (gold : Z) (g : game) : Prop :=
  playing level0 (gm_level g) (updated_level g) /\
  gm_level g = level0 /\
  (forall i : nat, (i < 484)%nat -> Z.testbit (updated_level g !!! i) PLAYER = false) /\
  game_over g = false /\ gold_collected g = gold.

(** The first pass once the only player, at [x, y], has taken its step. *)
Definition after_player (level0 : Level) (direction x y gold : Z) (g : game) : Prop :=
  playing level0 (gm_level g) (updated_level g) /\
  (forall i : nat, (i < 484)%nat ->
     Z.testbit (updated_level g !!! i) PLAYER
     = bool_decide (i = player_target level0 direction x y)) /\
  game_over g = step_ends_game level0 direction x y /\
  gold_collected g = gold + (if step_collects_gold level0 direction x y then 1 else 0).

(** During the second pass over [level1], from the level [updated1]
    that the first pass has built: only gold and keys are added, a key
    where [level1] has one, and the flag falls only for a key. *)
Definition collecting_keys (level1 updated1 : Level) (g : game) : Prop :=
  gm_level g = level1 /\ length (updated_level g) = 484%nat /\
  (forall (i : nat) b, 0 <= b -> b <> GOLD -> b <> KEY ->
     Z.testbit (updated_level g !!! i) b = Z.testbit (updated1 !!! i) b) /\
  (key_has_been_collected g = false ->
   exists i : nat, (i < 484)%nat /\ Z.testbit (level1 !!! i) KEY = true).

(** The key at [x, y] has been met. *)
Definition key_met (level1 updated1 : Level) (x y : Z) (g : game) : Prop :=
  collecting_keys level1 updated1 g /\
  key_has_been_collected g = false /\
  Z.testbit (updated_level g !!! cell x y) KEY = true.

(** During the last pass, from the game [g2] that the second pass has
    left: only locks are added, where [level1] has one, and only when a
    key is left. *)
Definition locking (level1 : Level) (g2 g : game) : Prop :=
  gm_level g = level1 /\ length (updated_level g) = 484%nat /\
  key_has_been_collected g = key_has_been_collected g2 /\
  (forall (i : nat) b, 0 <= b -> b <> LOCK ->
     Z.testbit (updated_level g !!! i) b = Z.testbit (updated_level g2 !!! i) b) /\
  (forall i : nat, (i < 484)%nat ->
     Z.testbit (updated_level g !!! i) LOCK = true ->
     Z.testbit (updated_level g2 !!! i) LOCK = true \/
     (key_has_been_collected g2 = false /\ Z.testbit (level1 !!! i) LOCK = true)).

(** ** Sample runs *)

(** The walled room, empty. *)
Definition room_level : Level := empty_level zero_level.

(** The sample level with gold to the right of the player, at (6, 5),
    and an enemy at (10, 10). *)
Definition game_level : Level :=
  <[cell 6 5 := Z.lor (BIT FLOOR) (BIT GOLD)]>
    (<[cell 10 10 := Z.lor (BIT FLOOR) (BIT ENEMY)]> sample_level).

(** What one step to the right makes of it, drawing from
    [corridor_seed]: the player is on (6, 5) and the enemy on (10, 11). *)
Definition game_sample_level :=
  Eval vm_compute in
    match fst (update_level game_level RIGHT 0 0 corridor_seed) with
    | Finished (level, _, _, _) => level
    | _ => []
    end.

Definition game_sample_seed : Seed :=
  Eval vm_compute in snd (update_level game_level RIGHT 0 0 corridor_seed).

(** What the placers and the generators return from [corridor_seed]. *)
Definition placer_sample_level :=
  Eval vm_compute in
    match fst (scatter_placer 64 room_level None corridor_seed) with
    | Finished level => level
    | _ => []
    end.

Definition placer_sample_seed : Seed :=
  Eval vm_compute in snd (scatter_placer 64 room_level None corridor_seed).

Definition corridor_scattered : Level * Seed :=
  Eval vm_compute in
    scatter_entities (float_lit 7 100) (float_lit 3 100) (float_lit 3 100)
      corridor_level corridor_seed.

Definition rooms_sample_level :=
  Eval vm_compute in
    match fst (basic_room_generator 64 corridor_level corridor_seed) with
    | Finished level => level
    | _ => []
    end.

Definition rooms_sample_seed : Seed :=
  Eval vm_compute in snd (basic_room_generator 64 corridor_level corridor_seed).

Definition digger_sample_level :=
  Eval vm_compute in
    match fst (digger_generator 64 (fill_level zero_level WALL) None corridor_seed) with
    | Finished level => level
    | _ => []
    end.

Definition digger_sample_seed : Seed :=
  Eval vm_compute in
    snd (digger_generator 64 (fill_level zero_level WALL) None corridor_seed).


(** * Properties *)

(** ** Cells and marks *)

Lemma cell_lt x y : in_level x y -> (cell x y < 484)%nat.
Proof. unfold in_level, cell, LEVEL_SIZE. lia. Qed.

Lemma cell_inj x y a b :
  in_level x y -> in_level a b -> cell x y = cell a b -> x = a /\ y = b.
Proof. unfold in_level, cell, LEVEL_SIZE. lia. Qed.

Lemma add_neighbour_length c i todo :
  length (add_neighbour c i todo) = length todo.
Proof. unfold add_neighbour. destruct (_ && _); [apply length_insert | done]. Qed.

Lemma bump_bump b1 b2 m : bump b1 (bump b2 m) = bump (b2 || b1) m.
Proof. by destruct b1, b2, m. Qed.

Lemma add_neighbour_lookup c i j (todo : list mark) :
  (c = true -> (i < length todo)%nat) ->
  add_neighbour c i todo !!! j = bump (c && bool_decide (i = j)) (todo !!! j).
Proof.
  intros Hi. unfold add_neighbour, bump.
  destruct c; simpl; [|done].
  case_bool_decide as E; simpl.
  - subst j. destruct (negb (is_DONE (todo !!! i))); simpl; [|done].
    rewrite list_lookup_total_insert_eq; auto.
  - destruct (negb (is_DONE (todo !!! i))); simpl; [|done].
    by rewrite list_lookup_total_insert_ne.
Qed.

Lemma mark_visit_length x y todo : length (mark_visit x y todo) = length todo.
Proof. unfold mark_visit. rewrite !add_neighbour_length. apply length_insert. Qed.

Lemma cell_eq_coord x y a b :
  in_level x y -> in_level a b ->
  bool_decide (cell x y = cell a b) = bool_decide (a = x /\ b = y).
Proof.
  intros Hxy Hab. apply bool_decide_ext. split.
  - intros H. destruct (cell_inj _ _ _ _ Hxy Hab H). done.
  - by intros [-> ->].
Qed.

Lemma neighbour_test (c : bool) x' y' a b :
  in_level a b -> (c = true -> in_level x' y') -> (c = false -> ~ in_level x' y') ->
  c && bool_decide (cell x' y' = cell a b) = bool_decide (a = x' /\ b = y').
Proof.
  intros Hab Ht Hf. destruct c; simpl.
  - apply cell_eq_coord; auto.
  - symmetry. apply bool_decide_eq_false_2. intros [-> ->]. by apply Hf.
Qed.

Lemma mark_visit_lookup x y a b todo :
  todo_wf todo -> in_level x y -> in_level a b ->
  mark_visit x y todo !!! cell a b =
    if bool_decide (a = x /\ b = y) then DONE
    else bump (bool_decide (adjacent x y a b)) (todo !!! cell a b).
Proof.
  intros Hwf Hin Hab. unfold todo_wf in Hwf. unfold mark_visit.
  rewrite !add_neighbour_lookup;
    rewrite ?add_neighbour_length, ?length_insert, ?Hwf;
    try (intros ?%Z.ltb_lt; unfold in_level, cell, LEVEL_SIZE in *; lia).
  rewrite !bump_bump.
  rewrite !neighbour_test; try done;
    try (intros ?%Z.ltb_lt; unfold in_level, LEVEL_SIZE in *; lia);
    try (intros ?%Z.ltb_ge; unfold in_level, LEVEL_SIZE in *; lia).
  rewrite <- !bool_decide_or.
  destruct (decide (a = x /\ b = y)) as [[-> ->]|Hxy].
  - rewrite (bool_decide_eq_true_2 (x = x /\ y = y)) by done.
    rewrite list_lookup_total_insert_eq
      by (rewrite Hwf; unfold in_level, cell, LEVEL_SIZE in *; lia).
    unfold bump. simpl. by rewrite andb_false_r.
  - rewrite (bool_decide_eq_false_2 (a = x /\ b = y)) by done.
    rewrite list_lookup_total_insert_ne
      by (intros E; apply Hxy; by destruct (cell_inj _ _ _ _ Hin Hab E)).
    f_equal; try (apply bool_decide_ext; unfold adjacent; tauto).
Qed.

Lemma list_insert_lookup_total {A} `{!Inhabited A} (l : list A) i :
  <[i := l !!! i]> l = l.
Proof.
  destruct (decide (i < length l)%nat) as [Hi|Hi].
  - apply list_insert_id. by apply list_lookup_lookup_total_lt.
  - apply list_insert_ge. lia.
Qed.

Lemma for_each_inv {A R : Type} (P : list Z -> A -> Prop) (body : Z -> A -> ctl A R) xs :
  (forall pre x s, x ∈ xs -> P pre s -> exists s', body x s = Go s' /\ P (pre ++ [x]) s') ->
  forall pre s, P pre s -> exists s', for_each xs body s = Go s' /\ P (pre ++ xs) s'.
Proof.
  induction xs as [|x xs IH]; intros Hbody pre s HP; simpl.
  - exists s. by rewrite app_nil_r.
  - destruct (Hbody pre x s) as (s1 & -> & HP1); [left | done |].
    destruct (IH (fun p y t Hy => Hbody p y t (list_elem_of_further _ _ _ Hy)) (pre ++ [x]) s1 HP1)
      as (s2 & -> & HP2).
    exists s2. by rewrite <- app_assoc in HP2.
Qed.

Lemma for_each_sim {A B R R' : Type} (Rel : A -> B -> Prop)
    (f : Z -> A -> ctl A R) (g : Z -> B -> ctl B R') xs :
  (forall x a b, x ∈ xs -> Rel a b ->
     exists a' b', f x a = Go a' /\ g x b = Go b' /\ Rel a' b') ->
  forall a b, Rel a b ->
    exists a' b', for_each xs f a = Go a' /\ for_each xs g b = Go b' /\ Rel a' b'.
Proof.
  induction xs as [|x xs IH]; intros Hstep a b HR; simpl.
  - by exists a, b.
  - destruct (Hstep x a b) as (a1 & b1 & -> & -> & HR1); [left | done |].
    apply IH; [|done]. intros y a' b' Hy. apply Hstep. by right.
Qed.

Lemma flood_tile_passive {D : Type} mask target (func : Flood_Func D) y x s :
  passive func ->
  flood_tile mask target func y x s =
    Go (if is_TODO (fl_todo s !!! cell x y) then
          if matches mask target (fl_level s !!! cell x y) then
            FloodState (fl_level s) (mark_visit x y (fl_todo s)) (fl_steps s + 1)
              (snd (fst (func (fl_level s !!! cell x y) x y (fl_data s)))) false
          else FloodState (fl_level s) (fl_todo s) (fl_steps s) (fl_data s) false
        else s).
Proof.
  intros Hp. unfold flood_tile. cbv zeta.
  destruct (is_TODO _); [|done].
  destruct (matches _ _ _); [|done].
  destruct (Hp (fl_level s !!! cell x y) x y (fl_data s)) as [Ht Hs].
  destruct (func _ _ _ _) as [[t d] stop]. simpl in *. subst t stop.
  by rewrite (list_insert_lookup_total (fl_level s)).
Qed.

Lemma record_visit_passive : passive record_visit.
Proof. by intros t x y d. Qed.

Section FloodInvariant.
Variables (level : Level) (mask target : Tile) (sx sy : Z).
Hypothesis start_in : in_level sx sy.

Lemma mark_visit_done x y a b todo :
  todo_wf todo -> in_level x y -> in_level a b ->
  todo !!! cell a b = DONE -> mark_visit x y todo !!! cell a b = DONE.
Proof.
  intros Hwf Hxy Hab. rewrite mark_visit_lookup by done.
  case_bool_decide; [done|].
  unfold bump. destruct (bool_decide _), (todo !!! cell a b); simpl; done.
Qed.

Lemma mark_visit_marked x y a b todo :
  todo_wf todo -> in_level x y -> in_level a b ->
  todo !!! cell a b <> UNMARKED -> mark_visit x y todo !!! cell a b <> UNMARKED.
Proof.
  intros Hwf Hxy Hab. rewrite mark_visit_lookup by done.
  case_bool_decide; [done|].
  unfold bump. destruct (bool_decide _), (todo !!! cell a b); simpl; done.
Qed.

Lemma flood_inv_visit s x y :
  flood_inv level mask target sx sy s -> in_level x y ->
  fl_todo s !!! cell x y = TODO ->
  matches mask target (level !!! cell x y) = true ->
  flood_inv level mask target sx sy (FloodState level (mark_visit x y (fl_todo s)) (fl_steps s + 1)
               (fl_data s ++ [(x, y)]) false).
Proof.
  intros [Hl Hwf Hnd Hvis Hdone Hsteps Hmk Hst Hfr] Hxy Htodo Hm.
  assert (Hconn : connected level mask target sx sy x y).
  { destruct (Hmk x y Hxy) as [[-> ->]|(a & b & Hab & Hadj & Hd)].
    - by rewrite Htodo.
    - by constructor.
    - apply (connected_step _ _ _ _ _ a b); try done.
      apply Hdone in Hd; [|done]. by apply Hvis in Hd as (_ & ? & _). }
  assert (Hnew : (x, y) ∉ fl_data s).
  { intros Hin. apply Hvis in Hin as (_ & _ & Hd). congruence. }
  split; simpl.
  - done.
  - unfold todo_wf. rewrite mark_visit_length. done.
  - apply NoDup_app. split; [done|]. split; [|apply NoDup_singleton].
    intros c Hc ->%list_elem_of_singleton. done.
  - intros a b [Hin|Hin%list_elem_of_singleton]%elem_of_app.
    + destruct (Hvis a b Hin) as (Hab & Hc & Hd).
      split; [done|]. split; [done|]. by apply mark_visit_done.
    + injection Hin as -> ->. split; [done|]. split; [done|].
      rewrite mark_visit_lookup by done. by rewrite bool_decide_eq_true_2.
  - intros a b Hab. rewrite mark_visit_lookup by done.
    case_bool_decide as E.
    + destruct E as [-> ->]. intros _. apply elem_of_app. right. by left.
    + intros Hb. apply elem_of_app. left. apply Hdone; [done|].
      unfold bump in Hb. destruct (bool_decide _), (fl_todo s !!! cell a b); done.
  - rewrite length_app. simpl. lia.
  - intros a b Hab Hne.
    destruct (decide (a = x /\ b = y)) as [[-> ->]|Hxy'].
    { destruct (Hmk x y Hxy) as [?|(a' & b' & Hab' & Hadj & Hd)]; [by rewrite Htodo|by left|].
      right. exists a', b'. split; [done|]. split; [done|]. by apply mark_visit_done. }
    destruct (decide (adjacent x y a b)) as [Hadj|Hnadj].
    { right. exists x, y. split; [done|]. split; [done|].
      rewrite mark_visit_lookup by done. by rewrite bool_decide_eq_true_2. }
    rewrite mark_visit_lookup in Hne by done.
    rewrite bool_decide_eq_false_2 in Hne by done.
    rewrite (bool_decide_eq_false_2 (adjacent x y a b)) in Hne by done.
    unfold bump in Hne. simpl in Hne.
    destruct (Hmk a b Hab Hne) as [?|(a' & b' & Hab' & Hadj & Hd)]; [by left|].
    right. exists a', b'. split; [done|]. split; [done|]. by apply mark_visit_done.
  - by apply mark_visit_marked.
  - intros a b a' b' Hab Hab' Hadj.
    rewrite (mark_visit_lookup x y a b) by done.
    case_bool_decide as E.
    + destruct E as [-> ->]. intros _.
      rewrite mark_visit_lookup by done.
      case_bool_decide; [done|].
      rewrite bool_decide_eq_true_2 by done.
      unfold bump. by destruct (fl_todo s !!! cell a' b').
    + intros Hb. apply mark_visit_marked; try done.
      apply (Hfr a b a' b'); try done.
      unfold bump in Hb. destruct (bool_decide _), (fl_todo s !!! cell a b); done.
Qed.
End FloodInvariant.

Section FloodProgress.
Variables (level : Level) (mask target : Tile) (sx sy : Z).
Hypothesis start_in : in_level sx sy.

Lemma flood_inv_cleared s c :
  flood_inv level mask target sx sy s ->
  flood_inv level mask target sx sy (FloodState (fl_level s) (fl_todo s) (fl_steps s) (fl_data s) c).
Proof. by intros []. Qed.

Lemma sweep_inv_mono s0 (sc sc' : Z -> Z -> Prop) s :
  (forall a b, in_level a b -> sc' a b -> sc a b) ->
  sweep_inv level mask target sx sy s0 sc s -> sweep_inv level mask target sx sy s0 sc' s.
Proof.
  intros Hsub (Hi & Hle & Hsame & Hcl & Hset).
  split; [done|]. split; [done|]. split; [|done].
  intros E. destruct (Hsame E) as (? & ? & Hsc). eauto.
Qed.

Lemma sweep_inv_tile s0 sc s x y :
  in_level x y -> sweep_inv level mask target sx sy s0 sc s ->
  exists s', flood_tile mask target record_visit y x s = Go s' /\
    sweep_inv level mask target sx sy s0 (fun a b => sc a b \/ (a = x /\ b = y)) s'.
Proof.
  intros Hxy (Hi & Hle & Hsame & Hcl & Hset).
  rewrite flood_tile_passive by apply record_visit_passive.
  eexists. split; [done|].
  assert (Hlev := inv_level _ _ _ _ _ _ Hi).
  destruct (is_TODO (fl_todo s !!! cell x y)) eqn:Htodo.
  - assert (Ht : fl_todo s !!! cell x y = TODO)
      by (destruct (fl_todo s !!! cell x y); done).
    rewrite Hlev.
    destruct (matches mask target (level !!! cell x y)) eqn:Hm.
    + split; [by apply flood_inv_visit|]. simpl.
      split; [lia|]. split; [lia|]. split; [done|].
      intros Hs. specialize (Hset Hs). destruct (Hsame Hset) as (Et & _ & _).
      rewrite Et in Ht. rewrite (Hs x y Hxy Ht) in Hm. done.
    + split; [by destruct Hi|]. simpl.
      split; [done|]. split; [|done].
      intros E. destruct (Hsame E) as (Et & Ed & Hsc).
      split; [done|]. split; [done|].
      intros a b [Hab|[-> ->]] Hin Ha; [by apply Hsc|done].
  - split; [done|]. split; [done|]. split; [|done].
    intros E. destruct (Hsame E) as (Et & Ed & Hsc).
    split; [done|]. split; [done|].
    intros a b [Hab|[-> ->]] Hin Ha; [by apply Hsc|].
    rewrite Et in Htodo. by rewrite Ha in Htodo.
Qed.

Lemma sweep_inv_row s0 sc s y :
  0 <= y < LEVEL_SIZE -> sweep_inv level mask target sx sy s0 sc s ->
  exists s', for_each (seqZ 0 LEVEL_SIZE) (flood_tile mask target record_visit y) s = Go s' /\
    sweep_inv level mask target sx sy s0 (fun a b => sc a b \/ b = y) s'.
Proof.
  intros Hy Hs.
  destruct (for_each_inv
              (fun pre t => sweep_inv level mask target sx sy s0 (fun a b => sc a b \/ (b = y /\ a ∈ pre)) t)
              (flood_tile mask target record_visit y) (seqZ 0 LEVEL_SIZE)) with (pre := @nil Z) (s := s)
    as (s' & Hrun & Hs').
  - intros pre x t Hx Ht.
    assert (Hin : in_level x y) by (apply elem_of_seqZ in Hx; unfold in_level; lia).
    destruct (sweep_inv_tile s0 _ t x y Hin Ht) as (t' & Hrun & Ht').
    exists t'. split; [done|]. revert Ht'. apply sweep_inv_mono.
    intros a b _ [Hsc|[-> [Ha|Ha%list_elem_of_singleton]%elem_of_app]]; auto.
  - revert Hs. apply sweep_inv_mono.
    intros a b _ [?|[_ Hnil]]; [done|]. by apply elem_of_nil in Hnil.
  - exists s'. split; [done|]. revert Hs'. apply sweep_inv_mono.
    intros a b Hab [?| ->]; [by left|]. right. split; [done|].
    apply elem_of_seqZ. unfold in_level in Hab. lia.
Qed.

Lemma sweep_inv_all s0 s :
  sweep_inv level mask target sx sy s0 (fun _ _ => False) s ->
  exists s', flood_sweep mask target record_visit s = Go s' /\
    sweep_inv level mask target sx sy s0 (fun _ _ => True) s'.
Proof.
  intros Hs. unfold flood_sweep.
  destruct (for_each_inv
              (fun pre t => sweep_inv level mask target sx sy s0 (fun a b => b ∈ pre) t)
              (fun y => for_each (seqZ 0 LEVEL_SIZE) (flood_tile mask target record_visit y))
              (seqZ 0 LEVEL_SIZE)) with (pre := @nil Z) (s := s)
    as (s' & Hrun & Hs').
  - intros pre y t Hy Ht.
    assert (Hin : 0 <= y < LEVEL_SIZE) by (apply elem_of_seqZ in Hy; lia).
    destruct (sweep_inv_row s0 _ t y Hin Ht) as (t' & Hrun & Ht').
    exists t'. split; [done|]. revert Ht'. apply sweep_inv_mono.
    intros a b _ [Hb|Hb%list_elem_of_singleton]%elem_of_app; auto.
  - revert Hs. apply sweep_inv_mono.
    intros a b _ Hnil. by apply elem_of_nil in Hnil.
  - exists s'. split; [done|]. revert Hs'. apply sweep_inv_mono.
    intros a b Hab _. apply elem_of_seqZ. unfold in_level in Hab. lia.
Qed.

Lemma flood_sweep_spec s :
  flood_inv level mask target sx sy s ->
  exists s',
    flood_sweep mask target record_visit
      (FloodState (fl_level s) (fl_todo s) (fl_steps s) (fl_data s) true) = Go s' /\
    flood_inv level mask target sx sy s' /\
    (fl_steps s < fl_steps s' \/ settled level mask target (fl_todo s')) /\
    (fl_cleared s' = true -> settled level mask target (fl_todo s')) /\
    (settled level mask target (fl_todo s) -> settled level mask target (fl_todo s')).
Proof.
  intros Hi.
  destruct (sweep_inv_all s
              (FloodState (fl_level s) (fl_todo s) (fl_steps s) (fl_data s) true))
    as (s' & Hrun & Hi' & Hle & Hsame & Hcl & Hset).
  { split; [by apply flood_inv_cleared|]. simpl.
    split; [done|]. split; [|done]. intros _. done. }
  exists s'. split; [done|]. split; [done|].
  assert (Hq : fl_steps s' = fl_steps s -> settled level mask target (fl_todo s')).
  { intros E. destruct (Hsame E) as (Et & _ & Hsc). rewrite Et.
    intros x y Hxy Ht. by apply Hsc. }
  split; [|split].
  - destruct (decide (fl_steps s' = fl_steps s)); [right; auto | left; lia].
  - auto.
  - auto.
Qed.

Lemma flood_inv_full s :
  flood_inv level mask target sx sy s -> 484 <= fl_steps s -> settled level mask target (fl_todo s).
Proof.
  intros Hi Hfull x y Hxy Ht.
  assert (Hnd : NoDup ((fun p : Z * Z => cell p.1 p.2) <$> fl_data s)).
  { apply NoDup_fmap_2_strong; [|apply (inv_nodup _ _ _ _ _ _ Hi)].
    intros [a b] [a' b'] Ha Ha' E. simpl in E.
    apply (inv_visited _ _ _ _ _ _ Hi) in Ha as (Ha & _).
    apply (inv_visited _ _ _ _ _ _ Hi) in Ha' as (Ha' & _).
    destruct (cell_inj _ _ _ _ Ha Ha' E). by subst. }
  assert (Hsub : (fun p : Z * Z => cell p.1 p.2) <$> fl_data s ⊆+ seq 0 484).
  { apply NoDup_submseteq; [done|].
    intros i ([a b] & -> & Hab)%list_elem_of_fmap.
    apply (inv_visited _ _ _ _ _ _ Hi) in Hab as (Hab & _).
    apply elem_of_seq. assert (H := cell_lt _ _ Hab). cbn [fst snd]. lia. }
  apply submseteq_length_Permutation in Hsub.
  2: { rewrite length_fmap, length_seq.
       rewrite (inv_steps _ _ _ _ _ _ Hi) in Hfull. lia. }
  assert (Hc : cell x y ∈ (fun p : Z * Z => cell p.1 p.2) <$> fl_data s).
  { rewrite Hsub. apply elem_of_seq. assert (H := cell_lt _ _ Hxy). lia. }
  apply list_elem_of_fmap in Hc as ([a b] & E & Hab). simpl in E.
  apply (inv_visited _ _ _ _ _ _ Hi) in Hab as (Hab & _ & Hd).
  destruct (cell_inj _ _ _ _ Hxy Hab E). subst. congruence.
Qed.

Lemma flood_inv_complete s x y :
  flood_inv level mask target sx sy s -> settled level mask target (fl_todo s) ->
  connected level mask target sx sy x y -> (x, y) ∈ fl_data s.
Proof.
  intros Hi Hset. induction 1 as [Hm|a b a' b' _ IH Hadj Hin Hm].
  - apply (inv_done _ _ _ _ _ _ Hi); [done|].
    assert (Hst := inv_start _ _ _ _ _ _ Hi).
    destruct (fl_todo s !!! cell sx sy) eqn:E; try done.
    rewrite (Hset sx sy start_in E) in Hm. done.
  - apply (inv_done _ _ _ _ _ _ Hi); [done|].
    apply (inv_visited _ _ _ _ _ _ Hi) in IH as (Hab & _ & Hd).
    assert (Hfr := inv_front _ _ _ _ _ _ Hi a b a' b' Hab Hin Hadj Hd).
    destruct (fl_todo s !!! cell a' b') eqn:E; try done.
    rewrite (Hset a' b' Hin E) in Hm. done.
Qed.

Lemma flood_inv_final s :
  flood_inv level mask target sx sy s -> settled level mask target (fl_todo s) ->
  exists visits,
    FloodResult (fl_level s) (fl_data s) (fl_steps s) =
      FloodResult level visits (Z.of_nat (length visits)) /\
    enumerates level mask target sx sy visits.
Proof.
  intros Hi Hset. exists (fl_data s). split.
  - by rewrite (inv_level _ _ _ _ _ _ Hi), (inv_steps _ _ _ _ _ _ Hi).
  - split; [apply (inv_nodup _ _ _ _ _ _ Hi)|].
    intros x y. split.
    + intros H. by apply (inv_visited _ _ _ _ _ _ Hi) in H as (_ & ? & _).
    + by apply flood_inv_complete.
Qed.

Lemma flood_loop_spec n s :
  flood_inv level mask target sx sy s ->
  484 <= Z.of_nat n + fl_steps s \/ settled level mask target (fl_todo s) ->
  exists visits,
    flood_loop n mask target record_visit s =
      FloodResult level visits (Z.of_nat (length visits)) /\
    enumerates level mask target sx sy visits.
Proof.
  revert s. induction n as [|n IH]; intros s Hi Hfuel.
  - simpl. apply flood_inv_final; [done|].
    destruct Hfuel as [Hfull|?]; [|done]. apply flood_inv_full; [done|lia].
  - simpl. destruct (flood_sweep_spec s Hi) as (s' & -> & Hi' & Hprog & Hcl & Hset).
    destruct (fl_cleared s') eqn:Hc.
    + apply flood_inv_final; auto.
    + apply IH; [done|].
      destruct Hfuel as [Hfull|Hs]; [|by right; auto].
      destruct Hprog as [Hlt|?]; [left; lia|by right].
Qed.

Lemma flood_record_spec :
  exists visits,
    flood level sx sy mask target record_visit [] =
      FloodResult level visits (Z.of_nat (length visits)) /\
    enumerates level mask target sx sy visits.
Proof.
  unfold flood. apply flood_loop_spec; [|left; cbn [fl_steps]; unfold LEVEL_SIZE; lia].
  assert (Hs : (cell sx sy < 484)%nat) by by apply cell_lt.
  assert (Hlk : forall x y, in_level x y ->
            <[cell sx sy := TODO]> (replicate (Z.to_nat (LEVEL_SIZE * LEVEL_SIZE)) UNMARKED)
              !!! cell x y = if bool_decide (x = sx /\ y = sy) then TODO else UNMARKED).
  { intros x y Hxy. rewrite list_lookup_total_insert.
    destruct (decide (x = sx /\ y = sy)) as [[-> ->]|E'].
    - rewrite bool_decide_eq_true_2 by done. rewrite decide_True; [done|].
      split; [done|]. rewrite length_replicate. exact Hs.
    - rewrite bool_decide_eq_false_2 by done. rewrite decide_False.
      + apply lookup_total_replicate_2. exact (cell_lt _ _ Hxy).
      + intros [E _]. destruct (cell_inj _ _ _ _ start_in Hxy E). by destruct E'. }
  split; cbn [fl_level fl_todo fl_steps fl_data fl_cleared].
  - done.
  - unfold todo_wf. by rewrite length_insert, length_replicate.
  - constructor.
  - intros x y H. by apply elem_of_nil in H.
  - intros x y Hxy. rewrite Hlk by done. by case_bool_decide.
  - done.
  - intros x y Hxy. rewrite Hlk by done. case_bool_decide; [by left|done].
  - rewrite Hlk by done. by rewrite bool_decide_eq_true_2.
  - intros x y a b Hxy _ _. rewrite Hlk by done. by case_bool_decide.
Qed.
End FloodProgress.

Section FloodSimulation.
Context {D : Type}.
Variables (level : Level) (mask target : Tile) (func : Flood_Func D) (data : D).
Hypothesis func_passive : passive func.

Lemma flood_sim_tile y x s r :
  flood_sim level func data s r ->
  exists s' r',
    flood_tile mask target func y x s = Go s' /\
    flood_tile mask target record_visit y x r = Go r' /\
    flood_sim level func data s' r'.
Proof.
  intros (Hs & Hr & Ht & Hn & Hc & Hd).
  rewrite !flood_tile_passive by (done || apply record_visit_passive).
  eexists _, _. split; [done|]. split; [done|].
  rewrite Hs, Hr, Ht.
  destruct (is_TODO _); [|done].
  destruct (matches _ _ _).
  - unfold flood_sim. cbn [fl_level fl_todo fl_steps fl_data fl_cleared].
    rewrite Hn, Hd. unfold visit_all, record_visit. simpl.
    by rewrite foldl_app.
  - unfold flood_sim. cbn [fl_level fl_todo fl_steps fl_data fl_cleared]. done.
Qed.

Lemma flood_sim_sweep s r :
  flood_sim level func data s r ->
  exists s' r',
    flood_sweep mask target func s = Go s' /\
    flood_sweep mask target record_visit r = Go r' /\
    flood_sim level func data s' r'.
Proof.
  intros H. unfold flood_sweep.
  apply (for_each_sim (flood_sim level func data)); [|done].
  intros y a b _ Hab.
  apply (for_each_sim (flood_sim level func data)); [|done].
  intros x a' b' _. apply flood_sim_tile.
Qed.

Lemma flood_sim_loop n s r :
  flood_sim level func data s r ->
  flood_loop n mask target func s =
    let res := flood_loop n mask target record_visit r in
    FloodResult (fr_level res) (visit_all func level (fr_data res) data) (fr_steps res).
Proof.
  revert s r. induction n as [|n IH]; intros s r Hsim.
  - destruct Hsim as (Hs & Hr & Ht & Hn & Hc & Hd). simpl. by rewrite Hs, Hr, Hn, Hd.
  - simpl.
    destruct (flood_sim_sweep
                (FloodState (fl_level s) (fl_todo s) (fl_steps s) (fl_data s) true)
                (FloodState (fl_level r) (fl_todo r) (fl_steps r) (fl_data r) true))
      as (s' & r' & -> & -> & Hsim').
    { destruct Hsim as (Hs & Hr & Ht & Hn & Hc & Hd). by repeat split. }
    assert (Hsim'' := Hsim').
    destruct Hsim' as (Hs & Hr & Ht & Hn & Hc & Hd). rewrite Hc.
    destruct (fl_cleared r').
    + simpl. by rewrite Hs, Hr, Hn, Hd.
    + by apply IH.
Qed.

Lemma flood_passive_record sx sy :
  flood level sx sy mask target func data =
    let res := flood level sx sy mask target record_visit [] in
    FloodResult (fr_level res) (visit_all func level (fr_data res) data) (fr_steps res).
Proof.
  unfold flood. apply flood_sim_loop.
  unfold flood_sim. cbn [fl_level fl_todo fl_steps fl_data fl_cleared]. tauto.
Qed.
End FloodSimulation.

Lemma flood_passive_spec (level : Level) (sx sy : Z) (mask target : Tile) :
  in_level sx sy ->
  exists visits : list (Z * Z),
    NoDup visits /\
    (forall x y, (x, y) ∈ visits <-> connected level mask target sx sy x y) /\
    (matches mask target (level !!! cell sx sy) = false -> visits = []) /\
    forall (D : Type) (func : Flood_Func D) (data : D),
      passive func ->
      flood level sx sy mask target func data =
        FloodResult level (visit_all func level visits data) (Z.of_nat (length visits)).
Proof.
  intros Hstart.
  destruct (flood_record_spec level mask target sx sy Hstart)
    as (visits & Hrun & Hnd & Hiff).
  exists visits. split; [done|]. split; [done|]. split.
  - intros Hno. destruct visits as [|[x y] visits]; [done|].
    assert (Hc : connected level mask target sx sy x y) by (apply Hiff; left).
    exfalso. clear -Hc Hno.
    assert (matches mask target (level !!! cell sx sy) = true); [|congruence].
    induction Hc; auto.
  - intros D func data Hp.
    rewrite (flood_passive_record level mask target func data Hp).
    rewrite Hrun. done.
Qed.

(** ** find_player *)

Lemma for_each_unit_Go {R : Type} (body : Z -> unit -> ctl unit R) xs :
  for_each xs body tt = Go tt <-> forall x, x ∈ xs -> body x tt = Go tt.
Proof.
  induction xs as [|x xs IH]; simpl.
  - split; [|done]. intros _ x Hx. by apply elem_of_nil in Hx.
  - destruct (body x tt) as [[]|r] eqn:E.
    + rewrite IH. split.
      * intros H z [->|Hz]%elem_of_cons; auto.
      * intros H z Hz. apply H. by right.
    + split; [done|]. intros H. specialize (H x). rewrite E in H.
      discriminate H. by left.
Qed.

Lemma for_each_unit_Return {R : Type} (body : Z -> unit -> ctl unit R) xs r :
  for_each xs body tt = Return r <->
  exists pre x post, xs = pre ++ x :: post /\
    (forall z, z ∈ pre -> body z tt = Go tt) /\ body x tt = Return r.
Proof.
  induction xs as [|x xs IH]; simpl.
  - split; [done|]. intros (pre & x & post & E & _). by destruct pre.
  - destruct (body x tt) as [[]|r'] eqn:E.
    + rewrite IH. split.
      * intros (pre & z & post & -> & Hpre & Hz).
        exists (x :: pre), z, post. split; [done|]. split; [|done].
        intros w [->|Hw]%elem_of_cons; auto.
      * intros (pre & z & post & Exs & Hpre & Hz).
        destruct pre as [|p pre]; simpl in Exs; injection Exs as Ex Exs; subst.
        { congruence. }
        exists pre, z, post. split; [done|]. split; [|done].
        intros w Hw. apply Hpre. by right.
    + split.
      * intros [= ->]. exists [], x, xs. split; [done|]. split; [|done].
        intros z Hz. by apply elem_of_nil in Hz.
      * intros (pre & z & post & Exs & Hpre & Hz).
        destruct pre as [|p pre]; simpl in Exs; injection Exs as Ex Exs; subst.
        { congruence. }
        rewrite Hpre in E by left. done.
Qed.

Lemma seqZ_split n pre x post :
  seqZ 0 n = pre ++ x :: post ->
  0 <= x < n /\ forall z, z ∈ pre <-> 0 <= z < x.
Proof.
  intros E.
  assert (Hx : seqZ 0 n !! length pre = Some x).
  { rewrite E. by rewrite list_lookup_middle. }
  apply lookup_seqZ in Hx as [-> Hlt]. split; [lia|].
  intros z. split.
  - intros (i & Hi)%list_elem_of_lookup.
    assert (Hi' : seqZ 0 n !! i = Some z).
    { rewrite E. rewrite lookup_app_l; [done|]. by apply lookup_lt_Some in Hi. }
    apply lookup_seqZ in Hi' as [-> _]. apply lookup_lt_Some in Hi. lia.
  - intros Hz. apply list_elem_of_lookup. exists (Z.to_nat z).
    assert (Hi' : seqZ 0 n !! Z.to_nat z = Some z).
    { apply lookup_seqZ. lia. }
    rewrite E in Hi'. rewrite lookup_app_l in Hi'; [done|lia].
Qed.

Lemma player_row_Go level y :
  player_row level y tt = Go tt <->
  forall x, 0 <= x < LEVEL_SIZE -> has_bit PLAYER (level !!! cell x y) = false.
Proof.
  unfold player_row. rewrite for_each_unit_Go. unfold has_bit. split.
  - intros H x Hx. specialize (H x). rewrite elem_of_seqZ in H.
    destruct (negb _); [|done]. discriminate H. lia.
  - intros H x Hx%elem_of_seqZ. rewrite H by lia. done.
Qed.

Lemma player_row_Return level y p :
  player_row level y tt = Return p <->
  exists x, p = (x, y) /\ 0 <= x < LEVEL_SIZE /\
    has_bit PLAYER (level !!! cell x y) = true /\
    forall z, 0 <= z < x -> has_bit PLAYER (level !!! cell z y) = false.
Proof.
  unfold player_row. rewrite for_each_unit_Return. unfold has_bit. split.
  - intros (pre & x & post & E & Hpre & Hx).
    apply seqZ_split in E as [Hr Hin]. exists x.
    destruct (negb (Z.land (level !!! cell x y) (BIT PLAYER) =? 0)) eqn:Hb; [|done].
    injection Hx as <-. split; [done|]. split; [done|]. split; [done|].
    intros z Hz. apply Hin in Hz. specialize (Hpre z Hz).
    by destruct (negb _).
  - intros (x & -> & Hr & Hb & Hlt).
    exists (seqZ 0 x), x, (seqZ (x + 1) (LEVEL_SIZE - x - 1)).
    split; [|split].
    + replace LEVEL_SIZE with (x + (LEVEL_SIZE - x)) at 1 by lia.
      rewrite seqZ_app by lia. f_equal.
      rewrite (seqZ_cons (0 + x)) by lia.
      replace (0 + x) with x by lia. replace (Z.succ x) with (x + 1) by lia.
      by replace (Z.pred (LEVEL_SIZE - x)) with (LEVEL_SIZE - x - 1) by lia.
    + intros z Hz%elem_of_seqZ. rewrite Hlt by lia. done.
    + cbv beta. by rewrite Hb.
Qed.

Lemma find_player_rows level :
  find_player level =
    match for_each (seqZ 0 LEVEL_SIZE) (player_row level) tt with
    | Return p => Some p
    | Go _ => None
    end.
Proof. reflexivity. Qed.

Lemma find_player_Some level px py :
  find_player level = Some (px, py) <-> first_player level px py.
Proof.
  rewrite find_player_rows.
  destruct (for_each _ _ _) as [[]|p] eqn:E.
  - split; [done|]. intros (Hin & Hb & _).
    rewrite for_each_unit_Go in E. specialize (E py).
    rewrite elem_of_seqZ, player_row_Go in E. unfold in_level in Hin.
    rewrite E in Hb; [done|lia|lia].
  - apply for_each_unit_Return in E as (pre & y & post & E & Hpre & Hy).
    apply seqZ_split in E as [Hr Hin].
    apply player_row_Return in Hy as (x & -> & Hx & Hb & Hlt).
    assert (Hfirst : first_player level x y).
    { split; [done|]. split; [done|].
      intros a b Hab [Hby|[-> Hax]].
      - assert (Hb' : b ∈ pre) by (apply Hin; unfold in_level in Hab; lia).
        apply Hpre in Hb'. rewrite player_row_Go in Hb'. apply Hb'.
        unfold in_level in Hab. lia.
      - apply Hlt. unfold in_level in Hab. lia. }
    split.
    + by intros [= -> ->].
    + intros Hp. f_equal.
      destruct Hfirst as (_ & Hb1 & Hf1). destruct Hp as (Hin2 & Hb2 & Hf2).
      destruct (Z.lt_trichotomy y py) as [?|[->|?]].
      * rewrite Hf2 in Hb1; [done|done|by left].
      * destruct (Z.lt_trichotomy x px) as [?|[->|?]]; [|done|].
        -- rewrite Hf2 in Hb1; [done|done|by right].
        -- rewrite Hf1 in Hb2; [done|done|by right].
      * rewrite Hf1 in Hb2; [done|done|by left].
Qed.

Lemma find_player_None level :
  find_player level = None <-> no_player level.
Proof.
  rewrite find_player_rows.
  destruct (for_each _ _ _) as [[]|p] eqn:E.
  - split; [|done]. intros _ x y Hxy.
    rewrite for_each_unit_Go in E. specialize (E y).
    rewrite elem_of_seqZ, player_row_Go in E. unfold in_level in Hxy.
    apply E; lia.
  - split; [done|]. intros Hno.
    apply for_each_unit_Return in E as (pre & y & post & E & Hpre & Hy).
    apply seqZ_split in E as [Hr Hin].
    apply player_row_Return in Hy as (x & -> & Hx & Hb & Hlt).
    rewrite Hno in Hb; done.
Qed.

(** ** Completability *)

Lemma has_bit_testbit n t : 0 <= n -> has_bit n t = Z.testbit t n.
Proof.
  intros Hn. unfold has_bit, BIT. rewrite Z.shiftl_1_l.
  destruct (Z.testbit t n) eqn:E.
  - apply negb_true_iff, Z.eqb_neq. intros H0.
    assert (Hb : Z.testbit (Z.land t (2 ^ n)) n = true).
    { rewrite Z.land_spec, E, Z.pow2_bits_true; done. }
    rewrite H0, Z.bits_0 in Hb. done.
  - apply negb_false_iff, Z.eqb_eq. apply Z.bits_inj'. intros k Hk.
    rewrite Z.land_spec, Z.bits_0, Z.pow2_bits_eqb by done.
    destruct (Z.eqb_spec n k) as [->|]; [by rewrite E|by rewrite andb_false_r].
Qed.

Lemma key_exit_bits s :
  (Z.land s (Z.lor (BIT KEY) (BIT EXIT)) =? Z.lor (BIT KEY) (BIT EXIT)) =
    Z.testbit s KEY && Z.testbit s EXIT.
Proof.
  assert (Hm : forall k, 0 <= k ->
            Z.testbit (Z.lor (BIT KEY) (BIT EXIT)) k = (KEY =? k) || (EXIT =? k)).
  { intros k Hk. unfold BIT. rewrite Z.lor_spec, !Z.shiftl_1_l.
    rewrite !Z.pow2_bits_eqb by done. done. }
  destruct (Z.eqb_spec (Z.land s (Z.lor (BIT KEY) (BIT EXIT))) (Z.lor (BIT KEY) (BIT EXIT)))
    as [E|E]; symmetry.
  - assert (H7 := f_equal (fun v => Z.testbit v KEY) E).
    assert (H4 := f_equal (fun v => Z.testbit v EXIT) E).
    cbv beta in H7, H4. rewrite Z.land_spec, Hm in H7, H4 by done.
    rewrite Z.eqb_refl in H7, H4. rewrite orb_true_r in H4.
    rewrite orb_true_l in H7. rewrite andb_true_r in H7, H4. by rewrite H7, H4.
  - apply not_true_is_false. intros [H7 H4]%andb_true_iff. apply E.
    apply Z.bits_inj'. intros k Hk. rewrite Z.land_spec, Hm by done.
    destruct (Z.eqb_spec KEY k) as [<-|]; [by rewrite H7|].
    destruct (Z.eqb_spec EXIT k) as [<-|]; [by rewrite H4|].
    by rewrite andb_false_r.
Qed.

Lemma foldl_lor_testbit (level : Level) cells acc n :
  Z.testbit (foldl (fun a p => Z.lor a (level !!! cell p.1 p.2)) acc cells) n = true <->
  Z.testbit acc n = true \/
  exists x y, (x, y) ∈ cells /\ Z.testbit (level !!! cell x y) n = true.
Proof.
  revert acc. induction cells as [|[a b] cells IH]; intros acc; simpl.
  - split; [by left|]. intros [?|(x & y & H & _)]; [done|]. by apply elem_of_nil in H.
  - rewrite IH, Z.lor_spec, orb_true_iff. split.
    + intros [[?|?]|(x & y & H & Hb)]; [by left| |].
      * right. exists a, b. split; [left|done].
      * right. exists x, y. split; [by right|done].
    + intros [?|(x & y & [[= -> ->]|H]%elem_of_cons & Hb)]; [by left; left| |].
      * by left; right.
      * right. by exists x, y.
Qed.

Lemma flood_record_tiles_passive : passive flood_record_tiles.
Proof. by intros t x y d. Qed.

Lemma visit_all_record_tiles level visits acc :
  visit_all flood_record_tiles level visits acc =
    foldl (fun a p => Z.lor a (level !!! cell p.1 p.2)) acc visits.
Proof. reflexivity. Qed.

Lemma level_is_completable_run_eq level px py :
  level_wf level -> first_player level px py ->
  exists visits,
    (forall x y, (x, y) ∈ visits <-> reachable level px py x y) /\
    level_is_completable_run level =
      (level, Z.testbit (tiles_or level visits) KEY && Z.testbit (tiles_or level visits) EXIT).
Proof.
  intros Hwf Hp. unfold level_is_completable_run.
  assert (Hin : in_level px py) by apply Hp.
  apply find_player_Some in Hp. rewrite Hp.
  destruct (flood_passive_spec level px py walkable (BIT FLOOR) Hin)
    as (visits & _ & Hiff & _ & Hrun).
  exists visits. split; [done|].
  fold walkable. rewrite (Hrun _ _ _ flood_record_tiles_passive).
  cbn [fr_level fr_data]. by rewrite key_exit_bits.
Qed.

Lemma level_is_completable_iff level :
  level_wf level ->
  level_is_completable level = true <->
  exists px py, first_player level px py /\
    reaches_bit level px py KEY /\ reaches_bit level px py EXIT.
Proof.
  intros Hwf. unfold level_is_completable. split.
  - destruct (find_player level) as [[px py]|] eqn:Hf.
    + apply find_player_Some in Hf.
      destruct (level_is_completable_run_eq level px py Hwf Hf) as (visits & Hiff & ->).
      cbn [snd]. intros [Hk He]%andb_true_iff. exists px, py. split; [done|].
      unfold tiles_or in Hk, He. rewrite foldl_lor_testbit in Hk, He.
      destruct Hk as [Hk|(x & y & Hin & Hk)]; [by rewrite Z.bits_0 in Hk|].
      destruct He as [He|(x' & y' & Hin' & He)]; [by rewrite Z.bits_0 in He|].
      split; [exists x, y|exists x', y']; (split; [by apply Hiff|done]).
    + unfold level_is_completable_run. by rewrite Hf.
  - intros (px & py & Hf & (x & y & Hr & Hk) & (x' & y' & Hr' & He)).
    destruct (level_is_completable_run_eq level px py Hwf Hf) as (visits & Hiff & ->).
    cbn [snd]. apply andb_true_iff. unfold tiles_or. rewrite !foldl_lor_testbit.
    split; right; [exists x, y|exists x', y']; (split; [by apply Hiff|done]).
Qed.

Lemma level_is_completable_run_level (level : Level) :
  fst (level_is_completable_run level) = level.
Proof.
  unfold level_is_completable_run.
  destruct (find_player level) as [[px py]|] eqn:Hf; [|done].
  apply find_player_Some in Hf. destruct Hf as (Hin & _).
  rewrite (flood_passive_record level _ _ flood_record_tiles 0 flood_record_tiles_passive).
  destruct (flood_record_spec level walkable (BIT FLOOR) px py Hin) as (visits & Hrun & _).
  fold walkable. by rewrite Hrun.
Qed.

Lemma connected_in_level level mask target sx sy x y :
  in_level sx sy -> connected level mask target sx sy x y -> in_level x y.
Proof. intros Hs. by induction 1. Qed.

Lemma first_player_or_none level :
  (exists px py, first_player level px py) \/ no_player level.
Proof.
  destruct (find_player level) as [[px py]|] eqn:E.
  - left. exists px, py. by apply find_player_Some.
  - right. by apply find_player_None.
Qed.

(** C2. [level_is_completable] returns true exactly when the level has
    a player tile and the bitwise OR of the tiles reachable from the first
    one has the key and the exit bits; the result is that test whichever way
    the reachable tiles are listed, and such a list exists; a level has a
    first player tile or none; without a player tile, and without a key
    tile, the result is false. *)
Theorem level_is_completable_spec (level : Level) :
  level_wf level ->
  (level_is_completable level = true <->
   exists (px py : Z) (cells : list (Z * Z)),
     first_player level px py /\
     (forall x y, (x, y) ∈ cells <-> reachable level px py x y) /\
     Z.land (tiles_or level cells) (Z.lor (BIT KEY) (BIT EXIT))
       = Z.lor (BIT KEY) (BIT EXIT)) /\
  (forall (px py : Z) (cells : list (Z * Z)),
     first_player level px py ->
     (forall x y, (x, y) ∈ cells <-> reachable level px py x y) ->
     level_is_completable level =
       (Z.land (tiles_or level cells) (Z.lor (BIT KEY) (BIT EXIT))
          =? Z.lor (BIT KEY) (BIT EXIT))) /\
  (forall px py, first_player level px py ->
     exists cells : list (Z * Z),
       forall x y, (x, y) ∈ cells <-> reachable level px py x y) /\
  ((exists px py, first_player level px py) \/ no_player level) /\
  (no_player level -> level_is_completable level = false) /\
  ((forall x y, in_level x y -> has_bit KEY (level !!! cell x y) = false) ->
     level_is_completable level = false).
Proof.
  intros Hwf.
  assert (Hany : forall (px py : Z) (cells : list (Z * Z)),
            first_player level px py ->
            (forall x y, (x, y) ∈ cells <-> reachable level px py x y) ->
            level_is_completable level =
              (Z.land (tiles_or level cells) (Z.lor (BIT KEY) (BIT EXIT))
                 =? Z.lor (BIT KEY) (BIT EXIT))).
  2: { split; [|split; [done|split; [|split; [|split]]]].
       - split.
         + intros Hc.
           destruct (find_player level) as [[px py]|] eqn:Hf.
           * apply find_player_Some in Hf.
             destruct (level_is_completable_run_eq level px py Hwf Hf) as (cells & Hiff & _).
             exists px, py, cells. split; [done|]. split; [done|].
             apply Z.eqb_eq. by rewrite <- (Hany px py cells Hf Hiff).
           * unfold level_is_completable, level_is_completable_run in Hc.
             by rewrite Hf in Hc.
         + intros (px & py & cells & Hp & Hiff & Hor).
           rewrite (Hany px py cells Hp Hiff). by apply Z.eqb_eq.
       - intros px py Hp.
         destruct (level_is_completable_run_eq level px py Hwf Hp) as (visits & Hiff & _).
         by exists visits.
       - apply first_player_or_none.
       - intros Hno. unfold level_is_completable, level_is_completable_run.
         apply find_player_None in Hno. by rewrite Hno.
       - intros Hnokey. apply not_true_is_false. intros Hc.
         apply level_is_completable_iff in Hc
           as (px & py & Hp & (x & y & Hr & Hk) & _); [|done].
         assert (Hin : in_level x y).
         { apply (connected_in_level level walkable (BIT FLOOR) px py); [apply Hp|done]. }
         rewrite <- has_bit_testbit in Hk by done. rewrite Hnokey in Hk; done. }
  intros px py cells Hp Hcells.
  destruct (level_is_completable_run_eq level px py Hwf Hp) as (visits & Hiff & Hrun).
  unfold level_is_completable. rewrite Hrun. cbn [snd]. rewrite key_exit_bits.
  assert (Hsame : forall n,
            Z.testbit (tiles_or level visits) n = Z.testbit (tiles_or level cells) n).
  { intros n. apply eq_true_iff_eq. unfold tiles_or. rewrite !foldl_lor_testbit.
    split; (intros [?|(x & y & Hin & Hb)]; [by left|]); right; exists x, y;
      (split; [|done]).
    - by apply Hcells, Hiff.
    - by apply Hiff, Hcells. }
  by rewrite !Hsame.
Qed.

(** ** Walls over tiles that the flood does not enter *)

Lemma same_play_connected l1 l2 px py x y :
  same_play l1 l2 -> in_level px py ->
  reachable l1 px py x y ->
  reachable l2 px py x y /\ l1 !!! cell x y = l2 !!! cell x y.
Proof.
  intros Hsame Hp. unfold reachable.
  assert (Hm : forall a b, in_level a b ->
            matches walkable (BIT FLOOR) (l1 !!! cell a b) = true ->
            l1 !!! cell a b = l2 !!! cell a b).
  { intros a b Hab Hm. destruct (Hsame a b Hab) as [?|[[Hn _] _]]; [done|congruence]. }
  induction 1 as [Hs|a b a' b' Hc [IH _] Hadj Hin Hma].
  - split; [|by apply Hm]. constructor. by rewrite <- Hm.
  - split; [|by apply Hm]. apply (connected_step _ _ _ _ _ a b); try done.
    by rewrite <- Hm.
Qed.

Lemma same_play_completable l1 l2 :
  level_wf l1 -> level_wf l2 -> same_play l1 l2 ->
  level_is_completable l1 = true -> level_is_completable l2 = true.
Proof.
  intros Hwf1 Hwf2 Hsame Hc.
  apply level_is_completable_iff in Hc as (px & py & Hp & (x & y & Hr & Hk) & (x' & y' & Hr' & He));
    [|done].
  assert (Hbit : forall a b, in_level a b ->
            has_bit PLAYER (l2 !!! cell a b) = has_bit PLAYER (l1 !!! cell a b)).
  { intros a b Hab. destruct (Hsame a b Hab) as [->|[[_ ->] [_ ->]]]; done. }
  destruct Hp as (Hin & Hb & Hfirst).
  apply level_is_completable_iff; [done|]. exists px, py. split; [|split].
  - split; [done|]. split; [by rewrite Hbit|].
    intros a b Hab Hbefore. rewrite Hbit by done. by apply Hfirst.
  - destruct (same_play_connected l1 l2 px py x y Hsame Hin Hr) as [Hr2 E].
    exists x, y. split; [done|]. by rewrite <- E.
  - destruct (same_play_connected l1 l2 px py x' y' Hsame Hin Hr') as [Hr2 E].
    exists x', y'. split; [done|]. by rewrite <- E.
Qed.

Lemma wall_bit_blocks t :
  Z.testbit t WALL = true -> matches walkable (BIT FLOOR) t = false.
Proof.
  intros Hw. unfold matches. apply Z.eqb_neq. intros E.
  assert (H := f_equal (fun v => Z.testbit v WALL) E). cbv beta in H.
  rewrite Z.land_spec, Hw in H. vm_compute in H. done.
Qed.

Lemma inert_wall_bit t :
  has_bit PLAYER t = false -> inert (Z.lor t (BIT WALL)).
Proof.
  intros Hp. split.
  - apply wall_bit_blocks. rewrite Z.lor_spec. unfold BIT.
    rewrite Z.shiftl_1_l, Z.pow2_bits_true by done. apply orb_true_r.
  - rewrite has_bit_testbit in * by done. rewrite Z.lor_spec, Hp. done.
Qed.

Lemma inert_wall : inert (BIT WALL).
Proof. by split. Qed.

Lemma collapse_completable (level : Level) (i : nat) :
  level_wf level ->
  has_bit PLAYER (level !!! i) = false ->
  level_is_completable (<[i := Z.lor (level !!! i) (BIT WALL)]> level) = true ->
  level_is_completable (<[i := BIT WALL]> level) = true.
Proof.
  intros Hwf Hp. apply same_play_completable.
  - unfold level_wf. by rewrite length_insert.
  - unfold level_wf. by rewrite length_insert.
  - intros x y Hxy.
    destruct (decide (i = cell x y)) as [<-|Hne].
    + destruct (decide (i < length level)%nat) as [Hi|Hi].
      * right. rewrite !list_lookup_total_insert_eq by done.
        split; [by apply inert_wall_bit|apply inert_wall].
      * left. by rewrite !list_insert_ge by lia.
    + left. by rewrite !list_lookup_total_insert_ne.
Qed.

(** C4. A wall that [reverse_verified_scatter_generator] keeps does not
    lose completability: if the level was completable before the attempt,
    the level with the tile set to a bare wall is completable. *)
Theorem accepted_wall_keeps_completable (level level' : Level) (x y : Z) :
  level_wf level ->
  verified_wall_attempt level x y = (level', Accepted) ->
  level_is_completable level = true ->
  level_is_completable level' = true.
Proof.
  intros Hwf Hrun _. unfold verified_wall_attempt in Hrun.
  destruct (negb (Z.land (level !!! cell x y) (BIT PLAYER) =? 0)) eqn:Hp; [done|].
  set (walled := <[cell x y := Z.lor (level !!! cell x y) (BIT WALL)]> level) in *.
  assert (Hc : level_is_completable walled = snd (level_is_completable_run walled)) by done.
  assert (Hf := level_is_completable_run_level walled).
  destruct (level_is_completable_run walled) as [l ok]. simpl in Hc, Hf. subst l.
  destruct ok; simpl in Hrun; [|done].
  injection Hrun as <-. unfold walled. rewrite list_insert_insert_eq.
  by apply collapse_completable.
Qed.


(** ** The binary level format *)

Lemma tile_bytes_length order t : length (tile_bytes order t) = 2%nat.
Proof. by destruct order. Qed.

Lemma level_bytes_length order level :
  length (level_bytes order level) = (2 * length level)%nat.
Proof.
  unfold level_bytes. induction level as [|t level IH]; [done|].
  simpl. rewrite length_app, tile_bytes_length, IH. lia.
Qed.

Lemma tiles_of_level_bytes order level :
  Forall tile_wf level -> tiles_of_bytes order (level_bytes order level) = level.
Proof.
  unfold level_bytes. induction 1 as [|t level Ht _ IH]; [done|].
  unfold tile_wf in Ht.
  destruct order; simpl; rewrite IH; f_equal.
  - rewrite (Z.mod_small (t / 256)) by (split; [apply Z.div_pos|apply Z.div_lt_upper_bound]; lia).
    rewrite (Z.div_mod t 256) at 3 by lia. lia.
  - rewrite (Z.mod_small (t / 256)) by (split; [apply Z.div_pos|apply Z.div_lt_upper_bound]; lia).
    rewrite (Z.div_mod t 256) at 3 by lia. lia.
Qed.

(** C8. A level written with [write_level], in either byte order, to a
    stream with room for it and read back with [load_level] from where the
    write began is the same level, tile for tile, and both calls report
    success. *)
Theorem write_load_roundtrip (order : byte_order) (file : FILE) (level buffer : Level) :
  level_wf level -> Forall tile_wf level -> level_wf buffer ->
  (position file <= length (contents file))%nat ->
  (2 * Z.to_nat (LEVEL_SIZE * LEVEL_SIZE) <= room file)%nat ->
  exists written after,
    write_level order file level = (true, written) /\
    load_level order (File (contents written) (position file) (room written)) buffer
      = (true, level, after).
Proof.
  intros Hwf Htiles Hbuf Hpos Hroom.
  unfold level_wf in Hwf, Hbuf.
  assert (Hlen : length (level_bytes order level) = (2 * Z.to_nat (LEVEL_SIZE * LEVEL_SIZE))%nat)
    by (rewrite level_bytes_length; lia).
  assert (Hlenb : length (level_bytes order buffer) = (2 * Z.to_nat (LEVEL_SIZE * LEVEL_SIZE))%nat)
    by (rewrite level_bytes_length; lia).
  unfold write_level, load_level, fwrite, fread. cbn [contents position room].
  set (n := Z.to_nat (LEVEL_SIZE * LEVEL_SIZE)) in *.
  assert (Hn : n = 484%nat) by done.
  rewrite Nat.min_l by done.
  rewrite (take_ge (level_bytes order level)) by lia.
  assert (Hdiv : (negb ((2 * n) / 2 =? 0)%nat) = true) by (by rewrite Hn).
  eexists _, _. split; [by rewrite Hlen, Hdiv|].
  cbn [contents position room].
  rewrite drop_app_length' by (rewrite length_take; lia).
  rewrite take_app_length' by done.
  rewrite Hlen, Hdiv. rewrite (drop_ge (level_bytes order buffer)) by lia.
  by rewrite app_nil_r, tiles_of_level_bytes.
Qed.


(** ** The fill sweep touches one tile at a time *)

Lemma fill_attempt_frame y x level j :
  j <> cell x y -> fill_try y level x !!! j = level !!! j.
Proof.
  intros Hj. unfold fill_try, fill_attempt.
  set (walled := <[cell x y := Z.lor (level !!! cell x y) (BIT WALL)]> level).
  assert (Hf := level_is_completable_run_level walled).
  destruct (level_is_completable_run walled) as [l ok]. simpl in Hf. subst l.
  destruct ok; simpl; unfold walled;
    rewrite list_insert_insert_eq; by rewrite list_lookup_total_insert_ne.
Qed.

Lemma fill_tries_frame y xs level j :
  (forall x, x ∈ xs -> j <> cell x y) ->
  foldl (fill_try y) level xs !!! j = level !!! j.
Proof.
  revert level. induction xs as [|x xs IH]; intros level Hj; [done|].
  cbn [foldl]. rewrite IH by (intros; apply Hj; by right).
  apply fill_attempt_frame, Hj. by left.
Qed.

Lemma fill_row_frame y level j :
  (forall x, x ∈ seqZ 1 (LEVEL_SIZE - 2) -> j <> cell x y) ->
  fill_row level y !!! j = level !!! j.
Proof.
  unfold fill_row. generalize (seqZ 1 (LEVEL_SIZE - 2)). intros xs.
  revert level. induction xs as [|x xs IH]; intros level Hj; [done|].
  simpl. assert (Hx := fill_attempt_frame y x level j (Hj x ltac:(left))).
  unfold fill_try in Hx. destruct (fill_attempt y x level) as [l|l]; [|done].
  rewrite <- Hx. apply IH. intros; apply Hj; by right.
Qed.

Lemma fill_rows_frame ys level j :
  (forall x y, x ∈ seqZ 1 (LEVEL_SIZE - 2) -> y ∈ ys -> j <> cell x y) ->
  foldl fill_row level ys !!! j = level !!! j.
Proof.
  revert level. induction ys as [|y ys IH]; intros level Hj; [done|].
  cbn [foldl]. rewrite IH by (intros; apply Hj; [done|by right]).
  apply fill_row_frame. intros. apply Hj; [done|by left].
Qed.

Lemma fill_sweep_rows_frame ys level j :
  (forall x y, x ∈ seqZ 1 (LEVEL_SIZE - 2) -> y ∈ ys -> j <> cell x y) ->
  foldl fill_row_spec level ys !!! j = level !!! j.
Proof.
  revert level. induction ys as [|y ys IH]; intros level Hj; [done|].
  cbn [foldl]. rewrite IH by (intros; apply Hj; [done|by right]).
  apply fill_tries_frame. intros. apply Hj; [done|by left].
Qed.

Lemma foldl_step {A B : Type} (f : A -> B -> A) a x l :
  foldl f a (x :: l) = foldl f (f a x) l.
Proof. reflexivity. Qed.

Lemma inner_cells_row x y j :
  (j < 44)%nat -> x ∈ seqZ 1 (LEVEL_SIZE - 2) -> y ∈ seqZ 2 (LEVEL_SIZE - 3) -> j <> cell x y.
Proof.
  intros Hj Hx%elem_of_seqZ Hy%elem_of_seqZ. unfold cell, LEVEL_SIZE in *. lia.
Qed.

Lemma fill_generator_first_row level j :
  (j < 44)%nat ->
  reverse_verified_fill_generator level !!! j = fill_row level 1 !!! j.
Proof.
  intros Hj. unfold reverse_verified_fill_generator.
  rewrite (seqZ_cons 1) by done.
  change (Z.succ 1) with 2. change (Z.pred (LEVEL_SIZE - 2)) with (LEVEL_SIZE - 3).
  rewrite !foldl_step. apply fill_rows_frame. intros x y. by apply inner_cells_row.
Qed.

Lemma fill_sweep_spec_second level :
  fill_sweep_spec level !!! cell 2 1 =
    fill_try 1 (fill_try 1 level 1) 2 !!! cell 2 1.
Proof.
  unfold fill_sweep_spec.
  rewrite (seqZ_cons 1) by done.
  change (Z.succ 1) with 2. change (Z.pred (LEVEL_SIZE - 2)) with (LEVEL_SIZE - 3).
  rewrite !foldl_step. rewrite fill_sweep_rows_frame.
  2: { intros x y. apply inner_cells_row. unfold cell, LEVEL_SIZE. lia. }
  unfold fill_row_spec.
  rewrite (seqZ_cons 1) by done.
  change (Z.succ 1) with 2. change (Z.pred (LEVEL_SIZE - 2)) with (LEVEL_SIZE - 3).
  rewrite (seqZ_cons 2) by done.
  rewrite !foldl_step. apply fill_tries_frame.
  intros x Hx%elem_of_seqZ. unfold cell, LEVEL_SIZE in *. lia.
Qed.



(** ** A pass without a visit ends the flood *)

Section FloodLazy.
Context {D : Type}.
Variables (mask target : Tile) (func : Flood_Func D).
Hypothesis func_passive : passive func.

Lemma pass_progress_tile s t y x :
  pass_progress s t ->
  exists t', flood_tile mask target func y x t = Go t' /\ pass_progress s t'.
Proof.
  intros [Hle Hsame]. rewrite flood_tile_passive by done.
  eexists. split; [done|].
  destruct (is_TODO _); [|done].
  destruct (matches _ _ _); split; cbn [fl_level fl_todo fl_steps fl_data]; try done; lia.
Qed.

Lemma pass_progress_sweep s :
  exists s', flood_sweep mask target func s = Go s' /\ pass_progress s s'.
Proof.
  unfold flood_sweep.
  destruct (for_each_inv (fun _ t => pass_progress s t)
              (fun y => for_each (seqZ 0 LEVEL_SIZE) (flood_tile mask target func y))
              (seqZ 0 LEVEL_SIZE)) with (pre := @nil Z) (s := s) as (s' & Hrun & Hs').
  - intros _ y t _ Ht.
    destruct (for_each_inv (fun _ u => pass_progress s u)
                (flood_tile mask target func y) (seqZ 0 LEVEL_SIZE))
      with (pre := @nil Z) (s := t) as (t' & Hrun & Ht'); [|done|by exists t'].
    intros _ x u _ Hu. by apply pass_progress_tile.
  - by split.
  - by exists s'.
Qed.

Lemma flood_loop_stalled n s s' :
  flood_sweep mask target func
    (FloodState (fl_level s) (fl_todo s) (fl_steps s) (fl_data s) true) = Go s' ->
  fl_steps s' = fl_steps s ->
  flood_loop n mask target func s' = FloodResult (fl_level s') (fl_data s') (fl_steps s').
Proof.
  intros Hrun Hsteps.
  destruct (pass_progress_sweep
              (FloodState (fl_level s) (fl_todo s) (fl_steps s) (fl_data s) true))
    as (s1 & Hrun1 & _ & Hsame).
  rewrite Hrun in Hrun1. injection Hrun1 as <-.
  destruct (Hsame Hsteps) as (Hl & Ht & Hd). cbn [fl_level fl_todo fl_data] in Hl, Ht, Hd.
  assert (Hreset :
            FloodState (fl_level s') (fl_todo s') (fl_steps s') (fl_data s') true =
            FloodState (fl_level s) (fl_todo s) (fl_steps s) (fl_data s) true)
    by (by rewrite Hl, Ht, Hd, Hsteps).
  induction n as [|n IH]; [reflexivity|].
  cbn [flood_loop]. rewrite Hreset, Hrun.
  destruct (fl_cleared s'); [done|]. exact IH.
Qed.

Lemma flood_loop_lazy_eq n s :
  flood_loop n mask target func s = flood_loop_lazy n mask target func s.
Proof.
  revert s. induction n as [|n IH]; intros s; [done|].
  cbn [flood_loop flood_loop_lazy].
  destruct (flood_sweep _ _ _ _) as [s'|r] eqn:Hrun; [|done].
  destruct (fl_cleared s'); [done|]. cbn [orb].
  destruct (Z.eqb_spec (fl_steps s') (fl_steps s)) as [E|E]; [|apply IH].
  by apply (flood_loop_stalled n s s').
Qed.

Lemma flood_lazy_eq level sx sy data :
  flood level sx sy mask target func data = flood_lazy level sx sy mask target func data.
Proof. apply flood_loop_lazy_eq. Qed.
End FloodLazy.

Lemma level_is_completable_lazy level :
  level_is_completable level =
    match find_player level with
    | None => false
    | Some (px, py) =>
        Z.land (fr_data (flood_lazy level px py walkable (BIT FLOOR) flood_record_tiles 0))
          key_and_exit =? key_and_exit
    end.
Proof.
  unfold level_is_completable, level_is_completable_run.
  destruct (find_player level) as [[px py]|]; [|done].
  fold walkable. by rewrite (flood_lazy_eq _ _ _ flood_record_tiles_passive).
Qed.


(** ** One attempt, unfolded *)

Lemma bind_eq {A B : Type} (m : Rand A) (k : A -> Rand B) (s : Seed) :
  bind m k s = k (fst (m s)) (snd (m s)).
Proof. unfold bind. by destruct (m s). Qed.

Lemma for_each_cons {A R : Type} (x : Z) xs (body : Z -> A -> ctl A R) s :
  for_each (x :: xs) body s =
    match body x s with
    | Go s' => for_each xs body s'
    | Return r => Return r
    end.
Proof. reflexivity. Qed.

(** The slip of the placement loops: a bare floor tile ends the loop
    whatever the flood from it has seen. *)
Lemma choose_verified_accepts_bare_floor (wanted : Z) (n : nat) (level : list Z)
    (seen : Z) (seed s1 s2 : Seed) (x y : Z) :
  random_int_range 1 (LEVEL_SIZE - 1) seed = (x, s1) ->
  random_int_range 1 (LEVEL_SIZE - 1) s1 = (y, s2) ->
  in_level x y ->
  level !!! cell x y = BIT FLOOR ->
  choose_verified wanted (S n) level seen seed = (Finished (level, (x, y)), s2).
Proof.
  intros Hx Hy Hin Hfloor. cbn [choose_verified].
  rewrite bind_eq, Hx. cbn [fst snd]. rewrite bind_eq, Hy. cbn [fst snd].
  assert (Harr : in_array x y = true).
  { unfold in_array, in_level, LEVEL_SIZE in *.
    apply andb_true_iff. split; [apply Z.leb_le|apply Z.ltb_lt]; lia. }
  rewrite Harr. cbn [negb].
  destruct (flood_passive_spec level x y walkable (BIT FLOOR) Hin)
    as (visits & _ & _ & _ & Hrun).
  fold walkable. rewrite (Hrun _ _ _ flood_record_tiles_passive).
  cbn [fr_level fr_data]. rewrite Hfloor, Z.eqb_refl. done.
Qed.

Lemma verified_wall_attempt_eq (level : list Z) (x y : Z) :
  verified_wall_attempt level x y =
    if has_bit PLAYER (level !!! cell x y) then (level, Skipped)
    else
      let walled := <[cell x y := Z.lor (level !!! cell x y) (BIT WALL)]> level in
      if level_is_completable walled
      then (<[cell x y := BIT WALL]> walled, Accepted)
      else (<[cell x y := Z.lxor (walled !!! cell x y) (BIT WALL)]> walled, Rejected).
Proof.
  unfold verified_wall_attempt, has_bit. cbv zeta.
  destruct (negb _); [done|].
  set (walled := <[cell x y := Z.lor (level !!! cell x y) (BIT WALL)]> level).
  unfold level_is_completable.
  assert (Hf := level_is_completable_run_level walled).
  destruct (level_is_completable_run walled) as [l ok]. simpl in Hf. subst l.
  by destruct ok.
Qed.

Lemma fill_attempt_eq (level : list Z) (x y : Z) :
  fill_attempt y x level =
    let walled := <[cell x y := Z.lor (level !!! cell x y) (BIT WALL)]> level in
    if level_is_completable walled
    then Return (<[cell x y := BIT WALL]> walled)
    else Go (<[cell x y := Z.lxor (walled !!! cell x y) (BIT WALL)]> walled).
Proof.
  unfold fill_attempt. cbv zeta.
  set (walled := <[cell x y := Z.lor (level !!! cell x y) (BIT WALL)]> level).
  unfold level_is_completable.
  assert (Hf := level_is_completable_run_level walled).
  destruct (level_is_completable_run walled) as [l ok]. simpl in Hf. subst l.
  by destruct ok.
Qed.

(** Evaluations on the sample levels. *)
Lemma sample_level_completable : level_is_completable sample_level = true.
Proof. rewrite level_is_completable_lazy. vm_compute. reflexivity. Qed.

Lemma sample_level_wall_1_1 :
  level_is_completable
    (<[cell 1 1 := Z.lor (sample_level !!! cell 1 1) (BIT WALL)]> sample_level) = true.
Proof. rewrite level_is_completable_lazy. vm_compute. reflexivity. Qed.

Lemma sample_level_wall_2_1 :
  level_is_completable
    (<[cell 2 1 := Z.lor ((<[cell 1 1 := BIT WALL]> sample_level) !!! cell 2 1) (BIT WALL)]>
       (<[cell 1 1 := BIT WALL]> sample_level)) = true.
Proof. rewrite level_is_completable_lazy. vm_compute. reflexivity. Qed.

Lemma walled_key_level_not_completable :
  level_is_completable
    (<[cell 6 9 := Z.lor (walled_key_level !!! cell 6 9) (BIT WALL)]> walled_key_level)
    = false.
Proof. rewrite level_is_completable_lazy. vm_compute. reflexivity. Qed.

Lemma verified_wall_attempt_accept (level : list Z) (x y : Z) :
  has_bit PLAYER (level !!! cell x y) = false ->
  level_is_completable
    (<[cell x y := Z.lor (level !!! cell x y) (BIT WALL)]> level) = true ->
  verified_wall_attempt level x y = (<[cell x y := BIT WALL]> level, Accepted).
Proof.
  intros Hp Hc. rewrite verified_wall_attempt_eq, Hp. cbv zeta.
  by rewrite Hc, list_insert_insert_eq.
Qed.

Lemma verified_wall_attempt_reject (level : list Z) (x y : Z) (t : Z) :
  has_bit PLAYER (level !!! cell x y) = false ->
  level_is_completable
    (<[cell x y := Z.lor (level !!! cell x y) (BIT WALL)]> level) = false ->
  (cell x y < length level)%nat ->
  Z.lxor (Z.lor (level !!! cell x y) (BIT WALL)) (BIT WALL) = t ->
  verified_wall_attempt level x y = (<[cell x y := t]> level, Rejected).
Proof.
  intros Hp Hc Hi Ht. rewrite verified_wall_attempt_eq, Hp. cbv zeta.
  rewrite Hc, list_insert_insert_eq.
  by rewrite list_lookup_total_insert_eq, Ht.
Qed.

Lemma verified_wall_attempt_sample :
  verified_wall_attempt sample_level 1 1 = (<[cell 1 1 := BIT WALL]> sample_level, Accepted).
Proof.
  apply verified_wall_attempt_accept; [vm_compute; reflexivity|].
  exact sample_level_wall_1_1.
Qed.


Lemma fill_row_sample : fill_row sample_level 1 = <[cell 1 1 := BIT WALL]> sample_level.
Proof.
  unfold fill_row. rewrite (seqZ_cons 1) by done.
  rewrite for_each_cons, fill_attempt_eq. cbv zeta.
  rewrite sample_level_wall_1_1. by rewrite list_insert_insert_eq.
Qed.

Lemma fill_try_sample :
  fill_try 1 (fill_try 1 sample_level 1) 2 =
    <[cell 2 1 := BIT WALL]> (<[cell 1 1 := BIT WALL]> sample_level).
Proof.
  unfold fill_try at 2. rewrite fill_attempt_eq. cbv zeta.
  rewrite sample_level_wall_1_1, list_insert_insert_eq.
  unfold fill_try. rewrite fill_attempt_eq. cbv zeta.
  rewrite sample_level_wall_2_1. by rewrite list_insert_insert_eq.
Qed.


Lemma verified_scatter_placer_bare_floor (n : nat) (level l1 : list Z)
    (seed s1 s2 s3 s4 s5 s6 : Seed) (ex ey kx ky px py : Z) :
  scatter_entities (float_lit 7 100) (float_lit 3 100) (float_lit 3 100) level seed
    = (l1, s1) ->
  choose_floor (S n) l1 s1 = (Finished (ex, ey), s2) ->
  let l2 := <[cell ex ey := Z.lor (l1 !!! cell ex ey) (Z.lor (BIT EXIT) (BIT LOCK))]> l1 in
  random_int_range 1 (LEVEL_SIZE - 1) s2 = (kx, s3) ->
  random_int_range 1 (LEVEL_SIZE - 1) s3 = (ky, s4) ->
  in_level kx ky -> l2 !!! cell kx ky = BIT FLOOR ->
  let l3 := <[cell kx ky := Z.lor (l2 !!! cell kx ky) (BIT KEY)]> l2 in
  random_int_range 1 (LEVEL_SIZE - 1) s4 = (px, s5) ->
  random_int_range 1 (LEVEL_SIZE - 1) s5 = (py, s6) ->
  in_level px py -> l3 !!! cell px py = BIT FLOOR ->
  verified_scatter_placer (S n) level None seed =
    (Finished (<[cell px py := Z.lor (l3 !!! cell px py) (BIT PLAYER)]> l3), s6).
Proof.
  intros Hscatter Hdoor l2 Hkx Hky Hkin Hkfloor l3 Hpx Hpy Hpin Hpfloor.
  unfold verified_scatter_placer. cbv beta iota.
  rewrite bind_eq, Hscatter. cbn [fst snd].
  rewrite bind_eq, Hdoor. cbn [fst snd]. fold l2.
  rewrite bind_eq.
  rewrite (choose_verified_accepts_bare_floor (BIT EXIT) n l2 0 s2 s3 s4 kx ky)
    by done.
  cbn [fst snd]. fold l3.
  rewrite bind_eq.
  rewrite (choose_verified_accepts_bare_floor (Z.lor (BIT EXIT) (BIT KEY)) n l3 0 s4 s5 s6 px py)
    by done.
  done.
Qed.


(** ** The flood, the completability check and the level file *)

Lemma enumerations_same_length {A : Type} (l k : list A) :
  NoDup l -> NoDup k -> (forall x, x ∈ l <-> x ∈ k) -> length l = length k.
Proof. intros Hl Hk Hiff. apply Permutation_length. by apply NoDup_Permutation. Qed.

(** C1. From a start tile inside a level, a flood with a visitor that
    never asks to stop and leaves the tiles alone calls the visitor once on
    each tile of the component of the start (the matching tiles joined to it
    by steps between adjacent matching tiles), on no other tile, leaves the
    level as it was and returns the number of tiles of the component; the
    list is empty when the start tile does not match. *)
Theorem flood_visits_component (level : Level) (sx sy : Z) (mask target : Tile) :
  level_wf level -> in_level sx sy ->
  exists visits : list (Z * Z),
    NoDup visits /\
    (forall x y, (x, y) ∈ visits <-> connected level mask target sx sy x y) /\
    (matches mask target (level !!! cell sx sy) = false -> visits = []) /\
    (forall cells : list (Z * Z),
       NoDup cells ->
       (forall x y, (x, y) ∈ cells <-> connected level mask target sx sy x y) ->
       length cells = length visits) /\
    forall (D : Type) (func : Flood_Func D) (data : D),
      passive func ->
      flood level sx sy mask target func data =
        FloodResult level (visit_all func level visits data) (Z.of_nat (length visits)).
Proof.
  intros _ Hstart.
  destruct (flood_passive_spec level sx sy mask target Hstart)
    as (visits & Hnd & Hiff & Hempty & Hrun).
  exists visits. split; [done|]. split; [done|]. split; [done|]. split; [|done].
  intros cells Hcells Hsame. apply enumerations_same_length; [done|done|].
  intros [x y]. by rewrite Hsame, Hiff.
Qed.

(** The flood from the player of the sample level. *)
Lemma flood_visits_component_witness :
  level_wf sample_level /\ in_level 5 5 /\
  exists visits : list (Z * Z),
    NoDup visits /\
    (forall x y, (x, y) ∈ visits <-> connected sample_level walkable (BIT FLOOR) 5 5 x y) /\
    (matches walkable (BIT FLOOR) (sample_level !!! cell 5 5) = false -> visits = []) /\
    (forall cells : list (Z * Z),
       NoDup cells ->
       (forall x y, (x, y) ∈ cells <-> connected sample_level walkable (BIT FLOOR) 5 5 x y) ->
       length cells = length visits) /\
    forall (D : Type) (func : Flood_Func D) (data : D),
      passive func ->
      flood sample_level 5 5 walkable (BIT FLOOR) func data =
        FloodResult sample_level (visit_all func sample_level visits data)
          (Z.of_nat (length visits)).
Proof.
  assert (Hwf : level_wf sample_level) by (vm_compute; reflexivity).
  assert (Hin : in_level 5 5) by (unfold in_level, LEVEL_SIZE; lia).
  split; [exact Hwf|]. split; [exact Hin|].
  exact (flood_visits_component sample_level 5 5 walkable (BIT FLOOR) Hwf Hin).
Defined.

(** The completability check on the sample level. *)
Lemma level_is_completable_spec_witness :
  level_wf sample_level /\
  (level_is_completable sample_level = true <->
   exists (px py : Z) (cells : list (Z * Z)),
     first_player sample_level px py /\
     (forall x y, (x, y) ∈ cells <-> reachable sample_level px py x y) /\
     Z.land (tiles_or sample_level cells) (Z.lor (BIT KEY) (BIT EXIT))
       = Z.lor (BIT KEY) (BIT EXIT)).
Proof.
  assert (Hwf : level_wf sample_level) by (vm_compute; reflexivity).
  split; [exact Hwf|].
  exact (proj1 (level_is_completable_spec sample_level Hwf)).
Defined.

(** C10. [level_is_completable] leaves every tile of the level as it
    was. *)
Theorem level_is_completable_frame (level : Level) :
  fst (level_is_completable_run level) = level.
Proof. apply level_is_completable_run_level. Qed.

(** The wall kept at (1, 1) of the sample level. *)
Lemma accepted_wall_keeps_completable_witness :
  level_wf sample_level /\
  verified_wall_attempt sample_level 1 1 = (<[cell 1 1 := BIT WALL]> sample_level, Accepted) /\
  level_is_completable sample_level = true /\
  level_is_completable (<[cell 1 1 := BIT WALL]> sample_level) = true.
Proof.
  assert (Hwf : level_wf sample_level) by (vm_compute; reflexivity).
  split; [exact Hwf|]. split; [exact verified_wall_attempt_sample|].
  split; [exact sample_level_completable|].
  exact (accepted_wall_keeps_completable sample_level _ 1 1 Hwf
           verified_wall_attempt_sample sample_level_completable).
Defined.

(** The sample level through an empty stream with room for 968 bytes. *)
Lemma write_load_roundtrip_witness :
  level_wf sample_level /\ Forall tile_wf sample_level /\ level_wf zero_level /\
  (position (File [] 0 968) <= length (contents (File [] 0 968)))%nat /\
  (2 * Z.to_nat (LEVEL_SIZE * LEVEL_SIZE) <= room (File [] 0 968))%nat /\
  exists written after,
    write_level LittleEndian (File [] 0 968) sample_level = (true, written) /\
    load_level LittleEndian
      (File (contents written) (position (File [] 0 968)) (room written)) zero_level
      = (true, sample_level, after).
Proof.
  assert (Hwf : level_wf sample_level) by (vm_compute; reflexivity).
  assert (Hdec : bool_decide (Forall tile_wf sample_level) = true)
    by (vm_compute; reflexivity).
  assert (Htiles : Forall tile_wf sample_level)
    by exact (bool_decide_eq_true_1 _ Hdec).
  assert (Hbuf : level_wf zero_level) by (vm_compute; reflexivity).
  assert (Hpos : (position (File [] 0 968) <= length (contents (File [] 0 968)))%nat)
    by (simpl; lia).
  assert (Hroom : (2 * Z.to_nat (LEVEL_SIZE * LEVEL_SIZE) <= room (File [] 0 968))%nat)
    by (vm_compute; lia).
  split; [exact Hwf|]. split; [exact Htiles|]. split; [exact Hbuf|].
  split; [exact Hpos|]. split; [exact Hroom|].
  exact (write_load_roundtrip LittleEndian (File [] 0 968) sample_level zero_level
           Hwf Htiles Hbuf Hpos Hroom).
Defined.

(** ** Where the code departs from the specification *)

(** C3 (the code departs from it). The corridor level holds only floor
    and wall tiles and its floor is one component of 210 tiles; the placer,
    seeded by [set_seed 2018 1] on a zeroed state, returns a level with one
    player, one key and one exit under one lock in which the exit cannot be
    reached from the player: [level_is_completable] is false. *)
Theorem verified_scatter_placer_unsolvable :
  level_wf corridor_level /\
  Forall (fun t => t = BIT FLOOR \/ t = BIT WALL) corridor_level /\
  length (filter (fun t => t = BIT FLOOR) corridor_level) = 210%nat /\
  fr_steps (flood corridor_level 1 1 walkable (BIT FLOOR) flood_record_tiles 0) = 210 /\
  exists level seed,
    verified_scatter_placer 64 corridor_level None corridor_seed = (Finished level, seed) /\
    level_is_completable level = false /\
    cells_with PLAYER level = [(13, 5)] /\
    cells_with KEY level = [(7, 13)] /\
    cells_with EXIT level = [(18, 19)] /\
    cells_with LOCK level = [(18, 19)] /\
    cells_with SPIKES level = [(7, 1); (5, 5); (19, 5); (7, 15); (15, 17); (10, 19)].
Proof.
  split; [vm_compute; reflexivity|].
  split.
  { assert (H : bool_decide (Forall (fun t => t = BIT FLOOR \/ t = BIT WALL) corridor_level)
                = true) by (vm_compute; reflexivity).
    exact (bool_decide_eq_true_1 _ H). }
  split; [vm_compute; reflexivity|].
  split.
  { rewrite (flood_lazy_eq _ _ _ flood_record_tiles_passive). vm_compute. reflexivity. }
  pose (r1 := scatter_entities (float_lit 7 100) (float_lit 3 100) (float_lit 3 100)
                corridor_level corridor_seed).
  pose (r2 := choose_floor 64 (fst r1) (snd r1)).
  pose (l2 := <[cell 18 19 := Z.lor (fst r1 !!! cell 18 19) (Z.lor (BIT EXIT) (BIT LOCK))]>
                (fst r1)).
  pose (r3 := random_int_range 1 (LEVEL_SIZE - 1) (snd r2)).
  pose (r4 := random_int_range 1 (LEVEL_SIZE - 1) (snd r3)).
  pose (l3 := <[cell 7 13 := Z.lor (l2 !!! cell 7 13) (BIT KEY)]> l2).
  pose (r5 := random_int_range 1 (LEVEL_SIZE - 1) (snd r4)).
  pose (r6 := random_int_range 1 (LEVEL_SIZE - 1) (snd r5)).
  eexists _, _. split.
  - apply (verified_scatter_placer_bare_floor 63 corridor_level (fst r1) corridor_seed
             (snd r1) (snd r2) (snd r3) (snd r4) (snd r5) (snd r6) 18 19 7 13 13 5).
    + unfold r1. by destruct (scatter_entities _ _ _ _ _).
    + vm_compute. reflexivity.
    + vm_compute. reflexivity.
    + vm_compute. reflexivity.
    + unfold in_level, LEVEL_SIZE. lia.
    + vm_compute. reflexivity.
    + vm_compute. reflexivity.
    + vm_compute. reflexivity.
    + unfold in_level, LEVEL_SIZE. lia.
    + vm_compute. reflexivity.
  - rewrite level_is_completable_lazy. vm_compute. done.
Qed.

Lemma lxor_lor_wall t :
  Z.testbit t WALL = false -> Z.lxor (Z.lor t (BIT WALL)) (BIT WALL) = t.
Proof.
  intros Hw. apply Z.bits_inj'. intros k Hk.
  rewrite Z.lxor_spec, Z.lor_spec. unfold BIT.
  rewrite Z.shiftl_1_l, Z.pow2_bits_eqb by done.
  destruct (Z.eqb_spec WALL k) as [<-|]; [by rewrite Hw|].
  by rewrite orb_false_r, xorb_false_r.
Qed.

(** A rejected attempt on a tile without the wall bit gives the level
    back. *)
Lemma rejected_attempt_restores_unwalled (level level' : Level) (x y : Z) :
  Z.testbit (level !!! cell x y) WALL = false ->
  verified_wall_attempt level x y = (level', Rejected) ->
  level' = level.
Proof.
  intros Hw Hrun. unfold verified_wall_attempt in Hrun.
  destruct (negb (Z.land (level !!! cell x y) (BIT PLAYER) =? 0)); [done|].
  set (walled := <[cell x y := Z.lor (level !!! cell x y) (BIT WALL)]> level) in *.
  assert (Hf := level_is_completable_run_level walled).
  destruct (level_is_completable_run walled) as [l ok]. simpl in Hf. subst l.
  destruct ok; simpl in Hrun; [done|]. injection Hrun as <-.
  unfold walled. rewrite list_insert_insert_eq.
  destruct (decide (cell x y < length level)%nat) as [Hi|Hi].
  - rewrite list_lookup_total_insert_eq by done. rewrite lxor_lor_wall by done.
    apply list_insert_lookup_total.
  - apply list_insert_ge. lia.
Qed.

Lemma verified_wall_attempts_one (level level' : Level) (seed s1 s2 : Seed)
    (x y : Z) (result : attempt) :
  random_int_range 1 (LEVEL_SIZE - 2) seed = (x, s1) ->
  random_int_range 1 (LEVEL_SIZE - 2) s1 = (y, s2) ->
  verified_wall_attempt level x y = (level', result) ->
  verified_wall_attempts 1 level seed = (level', s2).
Proof.
  intros Hx Hy Hrun. cbn [verified_wall_attempts].
  rewrite bind_eq, Hx. cbn [fst snd]. rewrite bind_eq, Hy. cbn [fst snd].
  rewrite Hrun. by destruct result.
Qed.

(** C5 (the code departs from it). The tile (6, 9) of the level with the
    walled-in key is a wall; it is the tile drawn first from [wall_seed];
    the attempt there is rejected and leaves the tile empty, not a wall. *)
Theorem rejected_wall_is_erased :
  walled_key_level !!! cell 6 9 = BIT WALL /\
  verified_wall_attempt walled_key_level 6 9
    = (<[cell 6 9 := 0]> walled_key_level, Rejected) /\
  fst (verified_wall_attempts 1 walled_key_level wall_seed)
    = <[cell 6 9 := 0]> walled_key_level.
Proof.
  assert (Hrun : verified_wall_attempt walled_key_level 6 9
                 = (<[cell 6 9 := 0]> walled_key_level, Rejected)).
  { apply verified_wall_attempt_reject.
    - vm_compute. reflexivity.
    - exact walled_key_level_not_completable.
    - vm_compute. lia.
    - vm_compute. reflexivity. }
  split; [vm_compute; reflexivity|]. split; [exact Hrun|].
  pose (r1 := random_int_range 1 (LEVEL_SIZE - 2) wall_seed).
  pose (r2 := random_int_range 1 (LEVEL_SIZE - 2) (snd r1)).
  rewrite (verified_wall_attempts_one walled_key_level
             (<[cell 6 9 := 0]> walled_key_level) wall_seed (snd r1) (snd r2)
             6 9 Rejected); [done| | |exact Hrun]; vm_compute; reflexivity.
Qed.

(** C6 (the code departs from it). On the sample level the generator
    turns the tile (1, 1) into a wall and leaves the row: the tile (2, 1)
    stays floor, where the sweep that tries every inner tile makes it a
    wall. *)
Theorem fill_generator_skips_rest_of_row :
  reverse_verified_fill_generator sample_level !!! cell 1 1 = BIT WALL /\
  reverse_verified_fill_generator sample_level !!! cell 2 1 = BIT FLOOR /\
  fill_sweep_spec sample_level !!! cell 2 1 = BIT WALL.
Proof.
  rewrite !fill_generator_first_row by (unfold cell, LEVEL_SIZE; lia).
  rewrite fill_sweep_spec_second, fill_row_sample, fill_try_sample.
  split; [|split]; vm_compute; reflexivity.
Qed.

(** C7 (the code departs from it). When [random_u64] returns
    [UINT64_MAX], [random_float] is exactly 1 and [random_int_range]
    returns [high + 1]. *)
Theorem random_int_range_above_high :
  seed_wf (2 ^ 64 - 1, 0) /\
  fst (random_u64 (2 ^ 64 - 1, 0)) = UINT64_MAX /\
  fst (random_float (2 ^ 64 - 1, 0)) = float_of_int 1 /\
  fst (random_int_range 1 20 (2 ^ 64 - 1, 0)) = 21 /\
  fst (random_int_range 1 (LEVEL_SIZE - 1) (2 ^ 64 - 1, 0)) = LEVEL_SIZE.
Proof. unfold seed_wf. repeat split; vm_compute; congruence. Qed.

(** C9 (the code departs from it). A stream that holds one tile, and a
    stream that takes one tile: [load_level] and [write_level] transfer
    that one tile of the 484 and return true. *)
Theorem partial_transfer_reported_as_success :
  load_level LittleEndian (File [5; 0] 0 0) zero_level
    = (true, <[0%nat := 5]> zero_level, File [5; 0] 2 0) /\
  write_level LittleEndian (File [] 0 2) sample_level
    = (true, File [4; 0] 2 0).
Proof. split; vm_compute; reflexivity. Qed.

(** * The rest of the code *)

(** ** Filling a level *)

Lemma insert_same_stays {A} `{!Inhabited A} (l : list A) i j v :
  l !!! j = v -> <[i := v]> l !!! j = v.
Proof.
  intros Hj. destruct (decide (i = j)) as [->|Hne].
  - destruct (decide (j < length l)%nat).
    + by apply list_lookup_total_insert_eq.
    + by rewrite list_insert_ge by lia.
  - by rewrite list_lookup_total_insert_ne.
Qed.

Lemma foldl_insert_length {A} (f : Z -> nat) (v : A) xs (l : list A) :
  length (foldl (fun l x => <[f x := v]> l) l xs) = length l.
Proof.
  revert l. induction xs as [|x xs IH]; intros l; [done|].
  cbn [foldl]. by rewrite IH, length_insert.
Qed.

Lemma foldl_insert_stays {A} `{!Inhabited A} (f : Z -> nat) (v : A) xs (l : list A) j :
  l !!! j = v -> foldl (fun l x => <[f x := v]> l) l xs !!! j = v.
Proof.
  revert l. induction xs as [|x xs IH]; intros l Hj; [done|].
  cbn [foldl]. by apply IH, insert_same_stays.
Qed.

Lemma foldl_insert_hit {A} `{!Inhabited A} (f : Z -> nat) (v : A) xs (l : list A) x :
  x ∈ xs -> (f x < length l)%nat ->
  foldl (fun l x => <[f x := v]> l) l xs !!! f x = v.
Proof.
  revert l. induction xs as [|z xs IH]; intros l Hx Hlt.
  - by apply elem_of_nil in Hx.
  - cbn [foldl]. apply elem_of_cons in Hx as [->|Hx].
    + apply foldl_insert_stays. by apply list_lookup_total_insert_eq.
    + apply IH; [done|]. by rewrite length_insert.
Qed.

Lemma foldl_insert_miss {A} `{!Inhabited A} (f : Z -> nat) (v : A) xs (l : list A) j :
  (forall x, x ∈ xs -> f x <> j) ->
  foldl (fun l x => <[f x := v]> l) l xs !!! j = l !!! j.
Proof.
  revert l. induction xs as [|z xs IH]; intros l Hj; [done|].
  cbn [foldl]. rewrite IH by (intros; apply Hj; by right).
  apply list_lookup_total_insert_ne, Hj. by left.
Qed.

Lemma fill_rows_length (v : Z) ys (l : list Z) :
  length (foldl (fun l y => foldl (fun l x => <[cell x y := v]> l) l (seqZ 0 LEVEL_SIZE))
            l ys) = length l.
Proof.
  revert l. induction ys as [|y ys IH]; intros l; [done|].
  cbn [foldl]. by rewrite IH, (foldl_insert_length (fun x => cell x y)).
Qed.

Lemma fill_rows_stays (v : Z) ys (l : list Z) j :
  l !!! j = v ->
  foldl (fun l y => foldl (fun l x => <[cell x y := v]> l) l (seqZ 0 LEVEL_SIZE))
    l ys !!! j = v.
Proof.
  revert l. induction ys as [|y ys IH]; intros l Hj; [done|].
  cbn [foldl]. apply IH. by apply (foldl_insert_stays (fun x => cell x y)).
Qed.

Lemma fill_rows_hit (v : Z) ys (l : list Z) x y :
  x ∈ seqZ 0 LEVEL_SIZE -> y ∈ ys -> (cell x y < length l)%nat ->
  foldl (fun l y => foldl (fun l x => <[cell x y := v]> l) l (seqZ 0 LEVEL_SIZE))
    l ys !!! cell x y = v.
Proof.
  revert l. induction ys as [|z ys IH]; intros l Hx Hy Hlt.
  - by apply elem_of_nil in Hy.
  - cbn [foldl]. apply elem_of_cons in Hy as [->|Hy].
    + apply fill_rows_stays. by apply (foldl_insert_hit (fun x => cell x z)).
    + apply IH; [done|done|]. by rewrite (foldl_insert_length (fun x => cell x z)).
Qed.

Lemma cell_coords (i : nat) :
  (i < 484)%nat ->
  in_level (Z.of_nat i mod LEVEL_SIZE) (Z.of_nat i / LEVEL_SIZE) /\
  cell (Z.of_nat i mod LEVEL_SIZE) (Z.of_nat i / LEVEL_SIZE) = i.
Proof.
  intros Hi. unfold in_level, cell, LEVEL_SIZE.
  assert (H1 := Z.mod_pos_bound (Z.of_nat i) 22 ltac:(lia)).
  assert (H2 := Z.div_mod (Z.of_nat i) 22 ltac:(lia)).
  assert (0 <= Z.of_nat i / 22 < 22)
    by (split; [apply Z.div_pos|apply Z.div_lt_upper_bound]; lia).
  lia.
Qed.

Lemma fill_level_replicate (level : list Z) (entity : Z) :
  level_wf level ->
  fill_level level entity = replicate (Z.to_nat (LEVEL_SIZE * LEVEL_SIZE)) (BIT entity).
Proof.
  intros Hwf. unfold level_wf in Hwf.
  apply (list_eq_same_length _ _ (Z.to_nat (LEVEL_SIZE * LEVEL_SIZE))).
  - apply length_replicate.
  - unfold fill_level. by rewrite fill_rows_length.
  - intros i a b Hi Ha Hb.
    change (Z.to_nat (LEVEL_SIZE * LEVEL_SIZE)) with 484%nat in *.
    destruct (cell_coords i Hi) as [[Hx Hy] Hc].
    apply list_lookup_total_correct in Ha, Hb.
    rewrite lookup_total_replicate_2 in Hb by done. subst a b.
    rewrite <- Hc at 1. unfold fill_level. apply fill_rows_hit.
    + apply elem_of_seqZ. lia.
    + apply elem_of_seqZ. lia.
    + rewrite Hc. lia.
Qed.

(** ** The walled room *)

Lemma empty_level_any (level : list Z) :
  level_wf level -> empty_level level = empty_level zero_level.
Proof.
  intros Hwf. unfold empty_level.
  rewrite (fill_level_replicate level) by done.
  rewrite (fill_level_replicate zero_level); [done|].
  unfold level_wf, zero_level. apply length_replicate.
Qed.

Lemma empty_level_zero_tiles :
  forallb (fun y => forallb (fun x => empty_level zero_level !!! cell x y =? ring_tile x y)
                      (seqZ 0 LEVEL_SIZE)) (seqZ 0 LEVEL_SIZE) = true.
Proof. vm_compute. reflexivity. Qed.

Lemma empty_level_zero_length : length (empty_level zero_level) = 484%nat.
Proof. vm_compute. reflexivity. Qed.

Lemma empty_level_tiles (level : list Z) x y :
  level_wf level -> in_level x y -> empty_level level !!! cell x y = ring_tile x y.
Proof.
  intros Hwf [Hx Hy]. rewrite empty_level_any by done.
  assert (H := empty_level_zero_tiles).
  rewrite forallb_forall in H.
  assert (Hy' : In y (seqZ 0 LEVEL_SIZE)).
  { apply list_elem_of_In, elem_of_seqZ. lia. }
  specialize (H y Hy'). cbv beta in H. rewrite forallb_forall in H.
  assert (Hx' : In x (seqZ 0 LEVEL_SIZE)).
  { apply list_elem_of_In, elem_of_seqZ. lia. }
  specialize (H x Hx'). cbv beta in H. by apply Z.eqb_eq in H.
Qed.

(** ** Short reads and writes *)






(** ** The refiners on a completable level *)

Lemma lor_wall_id t : Z.testbit t WALL = true -> Z.lor t (BIT WALL) = t.
Proof.
  intros Hw. apply Z.bits_inj'. intros k Hk.
  rewrite Z.lor_spec. unfold BIT. rewrite Z.shiftl_1_l, Z.pow2_bits_eqb by done.
  destruct (Z.eqb_spec WALL k) as [<-|]; [by rewrite Hw|apply orb_false_r].
Qed.

Lemma for_rand_inv {A : Type} (P : A -> Prop) (body : Z -> A -> Rand A) xs :
  (forall x a s, P a -> P (fst (body x a s))) ->
  forall a s, P a -> P (fst (for_rand xs body a s)).
Proof.
  intros Hbody. induction xs as [|x xs IH]; intros a s Ha; [done|].
  cbn [for_rand]. rewrite bind_eq. apply IH, Hbody, Ha.
Qed.

Lemma for_each_inv_both {A R : Type} (P : A -> Prop) (Q : R -> Prop)
    (body : Z -> A -> ctl A R) xs :
  (forall x s, x ∈ xs -> P s ->
     match body x s with Go s' => P s' | Return r => Q r end) ->
  forall s, P s ->
    match for_each xs body s with Go s' => P s' | Return r => Q r end.
Proof.
  induction xs as [|x xs IH]; intros Hbody s Hs; [done|].
  cbn [for_each]. assert (Hx := Hbody x s ltac:(left) Hs).
  destruct (body x s) as [s'|r]; [|done].
  apply IH; [|done]. intros z t Hz. apply Hbody. by right.
Qed.

Lemma foldl_inv {A B : Type} (P : A -> Prop) (f : A -> B -> A) xs :
  (forall a x, x ∈ xs -> P a -> P (f a x)) -> forall a, P a -> P (foldl f a xs).
Proof.
  induction xs as [|x xs IH]; intros Hf a Ha; [done|].
  cbn [foldl]. apply IH.
  - intros b z Hz. apply Hf. by right.
  - apply Hf; [left|done].
Qed.

Lemma connected_start_matches level mask target sx sy x y :
  connected level mask target sx sy x y ->
  matches mask target (level !!! cell sx sy) = true.
Proof. by induction 1. Qed.

Lemma walls_in_connected l1 l2 px py x y :
  walls_in l1 l2 -> in_level px py ->
  reachable l1 px py x y ->
  reachable l2 px py x y /\ l1 !!! cell x y = l2 !!! cell x y.
Proof.
  intros Hsame Hp. unfold reachable.
  assert (Hm : forall a b, in_level a b ->
            matches walkable (BIT FLOOR) (l1 !!! cell a b) = true ->
            l1 !!! cell a b = l2 !!! cell a b).
  { intros a b Hab Hm. destruct (Hsame a b Hab) as [?|[Hn _]]; [done|congruence]. }
  induction 1 as [Hs|a b a' b' Hc [IH _] Hadj Hin Hma].
  - split; [|by apply Hm]. constructor. by rewrite <- Hm.
  - split; [|by apply Hm]. apply (connected_step _ _ _ _ _ a b); try done.
    by rewrite <- Hm.
Qed.

Lemma walls_in_completable l1 l2 :
  level_wf l1 -> level_wf l2 -> walls_in l1 l2 ->
  level_is_completable l1 = true -> level_is_completable l2 = true.
Proof.
  intros Hwf1 Hwf2 Hsame Hc.
  apply level_is_completable_iff in Hc
    as (px & py & Hp & (x & y & Hr & Hk) & (x' & y' & Hr' & He)); [|done].
  destruct Hp as (Hin & Hb & Hfirst).
  apply level_is_completable_iff; [done|]. exists px, py. split; [|split].
  - split; [done|]. split.
    + destruct (Hsame px py Hin) as [<-|[Hn _]]; [done|].
      apply connected_start_matches in Hr. congruence.
    + intros a b Hab Hbefore.
      destruct (Hsame a b Hab) as [<-|[_ [_ Hno]]]; [by apply Hfirst|done].
  - destruct (walls_in_connected l1 l2 px py x y Hsame Hin Hr) as [Hr2 E].
    exists x, y. split; [done|]. by rewrite <- E.
  - destruct (walls_in_connected l1 l2 px py x' y' Hsame Hin Hr') as [Hr2 E].
    exists x', y'. split; [done|]. by rewrite <- E.
Qed.

Lemma collapse_completable_any (level : list Z) (i : nat) :
  level_wf level ->
  level_is_completable (<[i := Z.lor (level !!! i) (BIT WALL)]> level) = true ->
  level_is_completable (<[i := BIT WALL]> level) = true.
Proof.
  intros Hwf. apply walls_in_completable.
  - unfold level_wf. by rewrite length_insert.
  - unfold level_wf. by rewrite length_insert.
  - intros x y Hxy.
    destruct (decide (i = cell x y)) as [<-|Hne].
    + destruct (decide (i < length level)%nat) as [Hi|Hi].
      * right. rewrite !list_lookup_total_insert_eq by done.
        split; [|apply inert_wall].
        apply wall_bit_blocks. rewrite Z.lor_spec. unfold BIT.
        rewrite Z.shiftl_1_l, Z.pow2_bits_true by done. apply orb_true_r.
      * left. by rewrite !list_insert_ge by lia.
    + left. by rewrite !list_lookup_total_insert_ne.
Qed.

(** What a wall attempt leaves at the chosen tile: the wall is kept, or
    the level is as it was. *)
Lemma wall_attempt_outcome (level0 l : list Z) (i : nat) :
  walled_from level0 l ->
  let walled := <[i := Z.lor (l !!! i) (BIT WALL)]> l in
  (level_is_completable walled = true /\
   walled_from level0 (<[i := BIT WALL]> walled) /\
   <[i := BIT WALL]> walled = <[i := BIT WALL]> l) \/
  (level_is_completable walled = false /\
   <[i := Z.lxor (walled !!! i) (BIT WALL)]> walled = l).
Proof.
  intros (Hwf & Hc & Htiles) walled.
  destruct (level_is_completable walled) eqn:Hw; [left|right]; (split; [done|]).
  - assert (E : <[i := BIT WALL]> walled = <[i := BIT WALL]> l)
      by (unfold walled; apply list_insert_insert_eq).
    split; [|done]. rewrite E. split; [|split].
    + unfold level_wf. by rewrite length_insert.
    + by apply collapse_completable_any.
    + intros j. destruct (decide (i = j)) as [<-|Hne].
      * destruct (decide (i < length l)%nat).
        -- right. by apply list_lookup_total_insert_eq.
        -- rewrite list_insert_ge by lia. apply Htiles.
      * rewrite list_lookup_total_insert_ne by done. apply Htiles.
  - unfold walled. rewrite list_insert_insert_eq.
    destruct (decide (i < length l)%nat) as [Hi|Hi]; [|apply list_insert_ge; lia].
    rewrite list_lookup_total_insert_eq by done.
    destruct (Z.testbit (l !!! i) WALL) eqn:Hb.
    + exfalso. unfold walled in Hw. rewrite lor_wall_id in Hw by done.
      rewrite list_insert_lookup_total in Hw. congruence.
    + rewrite lxor_lor_wall by done. apply list_insert_lookup_total.
Qed.

Lemma verified_wall_attempt_inv (level0 l : list Z) x y :
  walled_from level0 l -> players_kept level0 l ->
  walled_from level0 (fst (verified_wall_attempt l x y)) /\
  players_kept level0 (fst (verified_wall_attempt l x y)).
Proof.
  intros Hinv Hpl. rewrite verified_wall_attempt_eq.
  destruct (has_bit PLAYER (l !!! cell x y)) eqn:Hp; [done|]. cbv zeta.
  destruct (wall_attempt_outcome level0 l (cell x y) Hinv) as [(-> & Hw & E)|(-> & E)].
  - cbn [fst]. split; [done|]. rewrite E. intros j.
    destruct (decide (cell x y = j)) as [<-|Hne].
    + destruct (decide (cell x y < length l)%nat).
      * rewrite list_lookup_total_insert_eq by done.
        destruct (Hpl (cell x y)) as [Hsame _]. rewrite <- Hsame, Hp. done.
      * rewrite list_insert_ge by lia. apply Hpl.
    + rewrite list_lookup_total_insert_ne by done. apply Hpl.
  - cbn [fst]. by rewrite E.
Qed.

Lemma verified_wall_attempts_inv (level0 : list Z) n :
  forall (l : list Z) seed,
    walled_from level0 l -> players_kept level0 l ->
    walled_from level0 (fst (verified_wall_attempts n l seed)) /\
    players_kept level0 (fst (verified_wall_attempts n l seed)).
Proof.
  induction n as [|n IH]; intros l seed Hinv Hpl; [done|].
  cbn [verified_wall_attempts]. rewrite !bind_eq.
  set (x := fst (random_int_range 1 (LEVEL_SIZE - 2) seed)).
  set (s1 := snd (random_int_range 1 (LEVEL_SIZE - 2) seed)).
  set (y := fst (random_int_range 1 (LEVEL_SIZE - 2) s1)).
  set (s2 := snd (random_int_range 1 (LEVEL_SIZE - 2) s1)).
  destruct (verified_wall_attempt_inv level0 l x y Hinv Hpl) as [H1 H2].
  destruct (verified_wall_attempt l x y) as [l' [| | |]]; cbn [fst] in *;
    try (by apply IH); done.
Qed.

Lemma walled_from_refl (level : list Z) :
  level_wf level -> level_is_completable level = true -> walled_from level level.
Proof. intros Hwf Hc. split; [done|]. split; [done|]. intros i. by left. Qed.

Lemma reverse_verified_scatter_generator_inv (level : list Z) seed :
  level_wf level -> level_is_completable level = true ->
  walled_from level (fst (reverse_verified_scatter_generator level seed)) /\
  players_kept level (fst (reverse_verified_scatter_generator level seed)).
Proof.
  intros Hwf Hc. unfold reverse_verified_scatter_generator. cbv zeta.
  apply (for_rand_inv (fun l => walled_from level l /\ players_kept level l)).
  - intros _ a s [H1 H2]. by apply verified_wall_attempts_inv.
  - split; [by apply walled_from_refl|]. intros i. done.
Qed.

Lemma same_players_find_player (l1 l2 : list Z) :
  (forall x y, in_level x y ->
     has_bit PLAYER (l1 !!! cell x y) = has_bit PLAYER (l2 !!! cell x y)) ->
  find_player l1 = find_player l2.
Proof.
  intros Hsame.
  destruct (find_player l2) as [[px py]|] eqn:E.
  - apply find_player_Some. apply find_player_Some in E as (Hin & Hb & Hfirst).
    split; [done|]. split; [by rewrite Hsame|].
    intros x y Hxy Hbefore. rewrite Hsame by done. by apply Hfirst.
  - apply find_player_None. apply find_player_None in E.
    intros x y Hxy. rewrite Hsame by done. by apply E.
Qed.

(** The fill sweep. *)
Lemma fill_attempt_inv (level0 l : list Z) x y :
  walled_from level0 l ->
  match fill_attempt y x l with
  | Go l' => walled_from level0 l'
  | Return l' => walled_from level0 l'
  end.
Proof.
  intros Hinv. rewrite fill_attempt_eq. cbv zeta.
  destruct (wall_attempt_outcome level0 l (cell x y) Hinv) as [(-> & Hw & E)|(-> & E)].
  - done.
  - by rewrite E.
Qed.

Lemma fill_row_inv (level0 l : list Z) y :
  walled_from level0 l -> walled_from level0 (fill_row l y).
Proof.
  intros Hinv. unfold fill_row.
  assert (H := for_each_inv_both (walled_from level0) (walled_from level0)
                 (fill_attempt y) (seqZ 1 (LEVEL_SIZE - 2))
                 (fun x s _ Hs => fill_attempt_inv level0 s x y Hs) l Hinv).
  by destruct (for_each _ _ _).
Qed.

Lemma reverse_verified_fill_generator_inv (level : list Z) :
  level_wf level -> level_is_completable level = true ->
  walled_from level (reverse_verified_fill_generator level).
Proof.
  intros Hwf Hc. unfold reverse_verified_fill_generator.
  apply (foldl_inv (walled_from level)).
  - intros a y _ Ha. by apply fill_row_inv.
  - by apply walled_from_refl.
Qed.

Lemma fill_generator_border (level : list Z) x y :
  in_level x y ->
  x = 0 \/ x = LEVEL_SIZE - 1 \/ y = 0 \/ y = LEVEL_SIZE - 1 ->
  reverse_verified_fill_generator level !!! cell x y = level !!! cell x y.
Proof.
  intros Hin Hb. unfold reverse_verified_fill_generator. apply fill_rows_frame.
  intros a b Ha%elem_of_seqZ Hb'%elem_of_seqZ.
  unfold in_level, cell, LEVEL_SIZE in *. lia.
Qed.

(** ** A level without a player *)

Lemma no_player_index (level : list Z) (i : nat) :
  level_wf level -> no_player level -> has_bit PLAYER (level !!! i) = false.
Proof.
  intros Hwf Hno. unfold level_wf in Hwf.
  destruct (decide (i < 484)%nat) as [Hi|Hi].
  - destruct (cell_coords i Hi) as [Hin Hc]. rewrite <- Hc. by apply Hno.
  - rewrite list_lookup_total_alt, lookup_ge_None_2; [done|].
    rewrite Hwf. change (Z.to_nat (LEVEL_SIZE * LEVEL_SIZE)) with 484%nat. lia.
Qed.

Lemma has_bit_lor_wall n t :
  0 <= n -> n <> WALL -> has_bit n (Z.lor t (BIT WALL)) = has_bit n t.
Proof.
  intros Hn Hne. rewrite !has_bit_testbit by done. rewrite Z.lor_spec.
  unfold BIT. rewrite Z.shiftl_1_l, Z.pow2_bits_false; [apply orb_false_r|done].
Qed.

Lemma no_player_walled (level : list Z) (i : nat) :
  level_wf level -> no_player level ->
  no_player (<[i := Z.lor (level !!! i) (BIT WALL)]> level).
Proof.
  intros Hwf Hno x y Hxy.
  destruct (decide (i = cell x y)) as [->|Hne].
  - destruct (decide (cell x y < length level)%nat).
    + rewrite list_lookup_total_insert_eq by done.
      rewrite has_bit_lor_wall by done. by apply Hno.
    + rewrite list_insert_ge by lia. by apply Hno.
  - rewrite list_lookup_total_insert_ne by done. by apply Hno.
Qed.

Lemma entity_wall_attempt_no_player (actual uninit : Z) (level : list Z) x y :
  level_wf level -> no_player level ->
  entity_wall_attempt actual uninit level x y =
    (<[cell x y := Z.lor (level !!! cell x y) (BIT WALL)]> level, Left).
Proof.
  intros Hwf Hno. unfold entity_wall_attempt. cbv zeta.
  assert (Hp := no_player_index level (cell x y) Hwf Hno). unfold has_bit in Hp.
  rewrite Hp.
  assert (Hf := no_player_walled level (cell x y) Hwf Hno).
  apply find_player_None in Hf. by rewrite Hf.
Qed.

Lemma entity_wall_count :
  Z.to_nat (int_of_float (fmul (float_lit 5 10) (float_of_int (LEVEL_SIZE * LEVEL_SIZE))))
  = 242%nat.
Proof. vm_compute. reflexivity. Qed.

Lemma entity_walls_no_player (actual uninit : Z) (k n : nat) (level : list Z) (seed : Seed) :
  level_wf level -> no_player level ->
  entity_walls actual uninit (S k) (S n) level seed =
    (let x := random_int_range 1 (LEVEL_SIZE - 2) seed in
     let y := random_int_range 1 (LEVEL_SIZE - 2) (snd x) in
     (<[cell (fst x) (fst y) := Z.lor (level !!! cell (fst x) (fst y)) (BIT WALL)]> level,
      snd y)).
Proof.
  intros Hwf Hno. cbn [entity_walls entity_wall_attempts]. rewrite !bind_eq.
  rewrite entity_wall_attempt_no_player by done. done.
Qed.

Lemma entity_generator_no_player (uninit : Z) (level : list Z) (seed : Seed) :
  level_wf level -> no_player level ->
  reverse_entity_preserving_scatter_generator uninit level seed =
    (let x := random_int_range 1 (LEVEL_SIZE - 2) seed in
     let y := random_int_range 1 (LEVEL_SIZE - 2) (snd x) in
     (<[cell (fst x) (fst y) := Z.lor (level !!! cell (fst x) (fst y)) (BIT WALL)]> level,
      snd y)).
Proof.
  intros Hwf Hno. unfold reverse_entity_preserving_scatter_generator. cbv zeta.
  rewrite entity_wall_count.
  exact (entity_walls_no_player _ uninit 31 241 level seed Hwf Hno).
Qed.

(** ** Any visitor: the steps of a flood *)

Lemma done_count_le todo : (done_count todo <= length todo)%nat.
Proof.
  unfold done_count. induction todo as [|m todo IH]; [done|].
  cbn [sum_list_with length]. destruct (is_DONE m); lia.
Qed.

Lemma done_count_insert todo i m :
  (i < length todo)%nat ->
  (done_count (<[i := m]> todo) + (if is_DONE (todo !!! i) then 1 else 0)
   = done_count todo + (if is_DONE m then 1 else 0))%nat.
Proof.
  unfold done_count. revert i. induction todo as [|a todo IH]; intros i Hi.
  - simpl in Hi. lia.
  - destruct i as [|i].
    + change (<[0%nat := m]> (a :: todo)) with (m :: todo).
      change ((a :: todo) !!! 0%nat) with a.
      cbn [sum_list_with]. destruct (is_DONE a), (is_DONE m); lia.
    + cbn [length] in Hi. specialize (IH i ltac:(lia)).
      change (<[S i := m]> (a :: todo)) with (a :: <[i := m]> todo).
      change ((a :: todo) !!! S i) with (todo !!! i).
      cbn [sum_list_with]. lia.
Qed.

Lemma done_count_add_neighbour c i todo :
  done_count (add_neighbour c i todo) = done_count todo.
Proof.
  unfold add_neighbour.
  destruct c; [|done]. destruct (is_DONE (todo !!! i)) eqn:E; [done|]. cbn [andb negb].
  destruct (decide (i < length todo)%nat) as [Hi|Hi].
  - assert (H := done_count_insert todo i TODO Hi). rewrite E in H. cbn in H. lia.
  - by rewrite list_insert_ge by lia.
Qed.

Lemma flood_tile_counted {D : Type} (n : nat) mask target (func : Flood_Func D) y x s :
  0 <= x < LEVEL_SIZE -> 0 <= y < LEVEL_SIZE ->
  flood_counted n s ->
  match flood_tile mask target func y x s with
  | Go s' => flood_counted n s'
  | Return r => flood_bounded n r
  end.
Proof.
  intros Hx Hy (Hlen & Hsteps & Hlevel). unfold flood_tile. cbv zeta.
  assert (Hi : (cell x y < length (fl_todo s))%nat).
  { rewrite Hlen. unfold cell, LEVEL_SIZE in *. lia. }
  assert (Hle := done_count_le (fl_todo s)).
  change (Z.to_nat (LEVEL_SIZE * LEVEL_SIZE)) with 484%nat in *.
  destruct (is_TODO (fl_todo s !!! cell x y)) eqn:Ht; [|done].
  destruct (matches _ _ _); [|done].
  destruct (func _ _ _ _) as [[t d] stop].
  destruct stop.
  - split; cbn [fr_steps fr_level]; [|by rewrite length_insert].
    unfold LEVEL_SIZE. lia.
  - split; [|split]; cbn [fl_todo fl_steps fl_level].
    + by rewrite !add_neighbour_length, length_insert.
    + rewrite !done_count_add_neighbour.
      assert (H := done_count_insert (fl_todo s) (cell x y) DONE Hi).
      destruct (fl_todo s !!! cell x y); try done. cbn in H. lia.
    + by rewrite length_insert.
Qed.

Lemma flood_sweep_counted {D : Type} (n : nat) mask target (func : Flood_Func D) s :
  flood_counted n s ->
  match flood_sweep mask target func s with
  | Go s' => flood_counted n s'
  | Return r => flood_bounded n r
  end.
Proof.
  unfold flood_sweep. apply for_each_inv_both.
  intros y t Hy%elem_of_seqZ Ht. apply for_each_inv_both; [|done].
  intros x u Hx%elem_of_seqZ Hu. apply flood_tile_counted; [lia|lia|done].
Qed.

Lemma flood_counted_result {D : Type} (n : nat) (s : flood_state D) :
  flood_counted n s ->
  flood_bounded n (FloodResult (fl_level s) (fl_data s) (fl_steps s)).
Proof.
  intros (Hlen & Hsteps & Hlevel). split; [|done]. cbn [fr_steps].
  assert (Hle := done_count_le (fl_todo s)). rewrite Hlen in Hle.
  change (Z.to_nat (LEVEL_SIZE * LEVEL_SIZE)) with 484%nat in *.
  unfold LEVEL_SIZE. lia.
Qed.

Lemma flood_loop_counted {D : Type} (n : nat) mask target (func : Flood_Func D) k s :
  flood_counted n s -> flood_bounded n (flood_loop k mask target func s).
Proof.
  revert s. induction k as [|k IH]; intros s Hs.
  - by apply flood_counted_result.
  - cbn [flood_loop].
    assert (Hs' : flood_counted n
              (FloodState (fl_level s) (fl_todo s) (fl_steps s) (fl_data s) true)) by done.
    assert (H := flood_sweep_counted n mask target func _ Hs').
    destruct (flood_sweep _ _ _ _) as [s'|r]; [|done].
    destruct (fl_cleared s'); [by apply flood_counted_result|by apply IH].
Qed.

Lemma flood_steps_bounded {D : Type} (level : list Z) sx sy mask target
    (func : Flood_Func D) (data : D) :
  flood_bounded (length level) (flood level sx sy mask target func data).
Proof.
  unfold flood. apply flood_loop_counted. split; [|split]; cbn [fl_todo fl_steps fl_level].
  - by rewrite length_insert, length_replicate.
  - destruct (decide (cell sx sy < 484)%nat) as [Hi|Hi].
    + assert (H := done_count_insert (replicate 484 UNMARKED) (cell sx sy) TODO).
      rewrite length_replicate in H. specialize (H Hi).
      rewrite lookup_total_replicate_2 in H by done. cbn [is_DONE] in H.
      change (Z.to_nat (LEVEL_SIZE * LEVEL_SIZE)) with 484%nat.
      assert (H0 : done_count (replicate 484 UNMARKED) = 0%nat) by (vm_compute; reflexivity).
      lia.
    + rewrite list_insert_ge by (rewrite length_replicate;
        change (Z.to_nat (LEVEL_SIZE * LEVEL_SIZE)) with 484%nat; lia).
      vm_compute. reflexivity.
  - done.
Qed.

(** ** Any visitor: what becomes of the tiles *)

Section FloodTiles.
Context {D : Type}.
Variables (mask target : Tile) (func : Flood_Func D) (Rel : Z -> Z -> Prop).
Variable level0 : list Z.
Hypothesis func_rel : forall t0 t x y d,
  Rel t0 t -> matches mask target t = true -> Rel t0 (fst (fst (func t x y d))).

Lemma insert_rel (l : list Z) i t :
  (forall j : nat, Rel (level0 !!! j) (l !!! j)) ->
  Rel (level0 !!! i) t ->
  forall j : nat, Rel (level0 !!! j) (<[i := t]> l !!! j).
Proof.
  intros Hl Ht j. destruct (decide (i = j)) as [<-|Hne].
  - destruct (decide (i < length l)%nat).
    + by rewrite list_lookup_total_insert_eq.
    + by rewrite list_insert_ge by lia.
  - by rewrite list_lookup_total_insert_ne.
Qed.

Lemma flood_tile_rel y x s :
  (forall j : nat, Rel (level0 !!! j) (fl_level s !!! j)) ->
  match flood_tile mask target func y x s with
  | Go s' => forall j : nat, Rel (level0 !!! j) (fl_level s' !!! j)
  | Return r => forall j : nat, Rel (level0 !!! j) (fr_level r !!! j)
  end.
Proof.
  intros Hs. unfold flood_tile. cbv zeta.
  destruct (is_TODO _); [|done].
  destruct (matches _ _ _) eqn:Hm; [|done].
  assert (Ht := func_rel _ _ x y (fl_data s) (Hs (cell x y)) Hm).
  destruct (func _ _ _ _) as [[t d] stop]. cbn [fst] in Ht.
  destruct stop; cbn [fl_level fr_level]; by apply insert_rel.
Qed.

Lemma flood_sweep_rel s :
  (forall j : nat, Rel (level0 !!! j) (fl_level s !!! j)) ->
  match flood_sweep mask target func s with
  | Go s' => forall j : nat, Rel (level0 !!! j) (fl_level s' !!! j)
  | Return r => forall j : nat, Rel (level0 !!! j) (fr_level r !!! j)
  end.
Proof.
  unfold flood_sweep.
  apply (for_each_inv_both (fun s => forall j : nat, Rel (level0 !!! j) (fl_level s !!! j))
           (fun r => forall j : nat, Rel (level0 !!! j) (fr_level r !!! j))).
  intros y t _ Ht.
  apply (for_each_inv_both (fun s => forall j : nat, Rel (level0 !!! j) (fl_level s !!! j))
           (fun r => forall j : nat, Rel (level0 !!! j) (fr_level r !!! j))); [|done].
  intros x u _ Hu. by apply flood_tile_rel.
Qed.

Lemma flood_loop_rel k s :
  (forall j : nat, Rel (level0 !!! j) (fl_level s !!! j)) ->
  forall j : nat, Rel (level0 !!! j) (fr_level (flood_loop k mask target func s) !!! j).
Proof.
  revert s. induction k as [|k IH]; intros s Hs; [done|].
  cbn [flood_loop].
  assert (H := flood_sweep_rel
                 (FloodState (fl_level s) (fl_todo s) (fl_steps s) (fl_data s) true) Hs).
  destruct (flood_sweep _ _ _ _) as [s'|r]; [|done].
  destruct (fl_cleared s'); [done|by apply IH].
Qed.
End FloodTiles.

Lemma flood_tiles_rel {D : Type} (Rel : Z -> Z -> Prop) (level : list Z) sx sy mask target
    (func : Flood_Func D) (data : D) :
  (forall t, Rel t t) ->
  (forall t0 t x y d,
     Rel t0 t -> matches mask target t = true -> Rel t0 (fst (fst (func t x y d)))) ->
  forall j : nat,
    Rel (level !!! j) (fr_level (flood level sx sy mask target func data) !!! j).
Proof.
  intros Hrefl Hfunc. unfold flood. apply flood_loop_rel; [done|].
  intros j. apply Hrefl.
Qed.

(** A visitor that leaves the tiles alone: the level is untouched
    wherever the flood starts. *)
Lemma flood_passive_level {D : Type} (level : list Z) sx sy mask target
    (func : Flood_Func D) (data : D) :
  passive func ->
  fr_level (flood level sx sy mask target func data) = level.
Proof.
  intros Hp.
  assert (H := flood_tiles_rel (fun t0 t => t = t0) level sx sy mask target func data
                 (fun t => eq_refl)).
  destruct (flood_steps_bounded level sx sy mask target func data) as [_ Hlen].
  apply (list_eq_same_length _ _ (length level)); [done|done|].
  intros i a b Hi Ha Hb. apply list_lookup_total_correct in Ha, Hb. subst a b.
  apply H. intros t0 t x y d -> _. apply Hp.
Qed.

(** ** Printing *)

Lemma top_entity_upto (tile : Z) (k : nat) :
  highest_entity (Z.of_nat k) tile
    (foldl (fun top bit => if negb (Z.land tile (BIT bit) =? 0) then bit else top)
       0 (seqZ 1 (Z.of_nat k))).
Proof.
  induction k as [|k IH].
  - left. split; [done|]. intros b Hb. lia.
  - rewrite Nat2Z.inj_succ, <- Z.add_1_r.
    rewrite seqZ_app by lia. rewrite foldl_app.
    change (seqZ (1 + Z.of_nat k) 1) with [1 + Z.of_nat k]. cbn [foldl].
    fold (has_bit (1 + Z.of_nat k) tile).
    destruct (has_bit (1 + Z.of_nat k) tile) eqn:Hb.
    + right. split; [lia|]. split; [done|]. intros b ?. lia.
    + destruct IH as [[-> Hnone]|(Hr & Hset & Habove)].
      * left. split; [done|]. intros b ?.
        destruct (decide (b = 1 + Z.of_nat k)) as [->|]; [done|]. apply Hnone. lia.
      * right. split; [lia|]. split; [done|]. intros b ?.
        destruct (decide (b = 1 + Z.of_nat k)) as [->|]; [done|]. apply Habove. lia.
Qed.

Lemma top_entity_highest (tile : Z) :
  highest_entity ENTITY_TYPE_COUNT tile (top_entity tile).
Proof. exact (top_entity_upto tile 9). Qed.

Lemma flat_map_lookup_total {A B : Type} `{!Inhabited A} `{!Inhabited B}
    (f : A -> list B) (k : nat) (xs : list A) (i j : nat) :
  (forall x, length (f x) = k) -> (i < length xs)%nat -> (j < k)%nat ->
  flat_map f xs !!! (i * k + j)%nat = f (xs !!! i) !!! j.
Proof.
  intros Hk. revert i. induction xs as [|x xs IH]; intros i Hi Hj.
  - simpl in Hi. lia.
  - cbn [flat_map]. destruct i as [|i].
    + rewrite lookup_total_app_l by (rewrite Hk; lia). done.
    + rewrite lookup_total_app_r by (rewrite Hk; lia).
      rewrite Hk. replace (S i * k + j - k)%nat with (i * k + j)%nat by lia.
      cbn [length] in Hi. rewrite IH by lia. done.
Qed.

Lemma flat_map_length_const {A B : Type} (f : A -> list B) (k : nat) (xs : list A) :
  (forall x, length (f x) = k) -> length (flat_map f xs) = (length xs * k)%nat.
Proof.
  intros Hk. induction xs as [|x xs IH]; [done|].
  cbn [flat_map length]. rewrite length_app, Hk, IH. lia.
Qed.

Lemma map_lookup_total {A B : Type} `{!Inhabited A} `{!Inhabited B}
    (g : A -> B) (l : list A) (i : nat) :
  (i < length l)%nat -> map g l !!! i = g (l !!! i).
Proof.
  revert i. induction l as [|a l IH]; intros i Hi; [simpl in Hi; lia|].
  destruct i as [|i]; [done|]. cbn [length] in Hi.
  change (map g (a :: l) !!! S i) with (map g l !!! i).
  change ((a :: l) !!! S i) with (l !!! i). apply IH. lia.
Qed.

Lemma print_row_length (level : list Z) (y : Z) :
  length (map (fun x => entity_chars !!! Z.to_nat (top_entity (level !!! cell x y)))
            (seqZ 0 LEVEL_SIZE) ++ ["010"%char]) = 23%nat.
Proof. by rewrite length_app, length_map, length_seqZ. Qed.

Lemma print_ascii_level_length (level : list Z) :
  length (print_ascii_level level) = 506%nat.
Proof.
  unfold print_ascii_level.
  rewrite (flat_map_length_const _ 23) by (intros; apply print_row_length).
  by rewrite length_seqZ.
Qed.

Lemma print_ascii_level_lookup (level : list Z) (x y : Z) :
  0 <= x <= LEVEL_SIZE -> 0 <= y < LEVEL_SIZE ->
  print_ascii_level level !!! Z.to_nat (x + y * (LEVEL_SIZE + 1)) =
    if x =? LEVEL_SIZE then "010"%char
    else entity_chars !!! Z.to_nat (top_entity (level !!! cell x y)).
Proof.
  intros Hx Hy. unfold print_ascii_level.
  replace (Z.to_nat (x + y * (LEVEL_SIZE + 1)))
    with (Z.to_nat y * 23 + Z.to_nat x)%nat by (unfold LEVEL_SIZE in *; lia).
  rewrite (flat_map_lookup_total _ 23);
    [|intros; apply print_row_length|rewrite length_seqZ; unfold LEVEL_SIZE in *; lia
     |unfold LEVEL_SIZE in *; lia].
  rewrite lookup_total_seqZ_lt by (unfold LEVEL_SIZE in *; lia).
  rewrite Z.add_0_l, Z2Nat.id by lia.
  destruct (Z.eqb_spec x LEVEL_SIZE) as [->|Hne].
  - rewrite lookup_total_app_r by (rewrite length_map, length_seqZ; done).
    by rewrite length_map, length_seqZ.
  - rewrite lookup_total_app_l
      by (rewrite length_map, length_seqZ; unfold LEVEL_SIZE in *; lia).
    rewrite map_lookup_total by (rewrite length_seqZ; unfold LEVEL_SIZE in *; lia).
    rewrite lookup_total_seqZ_lt by (unfold LEVEL_SIZE in *; lia).
    by rewrite Z.add_0_l, Z2Nat.id by lia.
Qed.

(** ** Scattered entities *)

Lemma scattered_refl t : scattered t t.
Proof. intros b Hb. done. Qed.

Lemma scattered_trans t1 t2 t3 : scattered t1 t2 -> scattered t2 t3 -> scattered t1 t3.
Proof.
  intros H12 H23 b Hb. destruct (H12 b Hb) as [Ha Hs]. destruct (H23 b Hb) as [Ha' Hs'].
  split; [auto|]. intros. rewrite Hs', Hs; done.
Qed.

Lemma scattered_lor t n :
  n = GOLD \/ n = ENEMY \/ n = SPIKES -> scattered t (Z.lor t (BIT n)).
Proof.
  intros Hn b Hb. rewrite Z.lor_spec. unfold BIT. rewrite Z.shiftl_1_l.
  split; [by intros ->|]. intros Hg He Hs.
  rewrite Z.pow2_bits_false; [apply orb_false_r|]. intros <-. tauto.
Qed.

Lemma scattered_bare t t' :
  scattered t t' ->
  Z.testbit t' GOLD = false -> Z.testbit t' ENEMY = false ->
  Z.testbit t' SPIKES = false -> t = t'.
Proof.
  intros Hs Hg He Hsp. apply Z.bits_inj'. intros b Hb.
  destruct (Hs b Hb) as [Hadd Hsame].
  destruct (decide (b = GOLD)) as [->|?];
    [destruct (Z.testbit t GOLD); [by rewrite Hadd in Hg|done]|].
  destruct (decide (b = ENEMY)) as [->|?];
    [destruct (Z.testbit t ENEMY); [by rewrite Hadd in He|done]|].
  destruct (decide (b = SPIKES)) as [->|?];
    [destruct (Z.testbit t SPIKES); [by rewrite Hadd in Hsp|done]|].
  by rewrite Hsame.
Qed.

Lemma scattered_floor t : scattered t (BIT FLOOR) -> t = BIT FLOOR.
Proof. intros Hs. by apply scattered_bare. Qed.

Lemma scattered_has_bit t t' n :
  scattered t t' -> 0 <= n -> n <> GOLD -> n <> ENEMY -> n <> SPIKES ->
  has_bit n t' = has_bit n t.
Proof.
  intros Hs Hn ? ? ?. rewrite !has_bit_testbit by done. by apply Hs.
Qed.

Lemma scatter_entities_inv (gold enemy spikes : float) (level : list Z) seed :
  length (fst (scatter_entities gold enemy spikes level seed)) = length level /\
  forall i : nat,
    scattered (level !!! i) (fst (scatter_entities gold enemy spikes level seed) !!! i).
Proof.
  unfold scatter_entities.
  apply (for_rand_inv (fun l => length l = length level /\
                                forall i : nat, scattered (level !!! i) (l !!! i))).
  - intros y a s Ha.
    apply (for_rand_inv (fun l => length l = length level /\
                                  forall i : nat, scattered (level !!! i) (l !!! i)));
      [|done].
    clear a s Ha. intros x a s [Hlen Ha]. rewrite bind_eq. cbn [ret fst].
    split; [by rewrite length_insert|].
    assert (Ht : scattered (a !!! cell x y)
              (fst ((if Z.land (a !!! cell x y) (BIT WALL) =? 0
                     then
                       draw gold0 <- chance gold;
                       if gold0 then ret (Z.lor (a !!! cell x y) (BIT GOLD))
                       else
                         draw enemy0 <- chance enemy;
                         if enemy0 then ret (Z.lor (a !!! cell x y) (BIT ENEMY))
                         else
                           draw spikes0 <- chance spikes;
                           if spikes0 then ret (Z.lor (a !!! cell x y) (BIT SPIKES))
                           else ret (a !!! cell x y)
                     else ret (a !!! cell x y)) s))).
    { destruct (_ =? 0); [|apply scattered_refl].
      rewrite bind_eq. destruct (fst (chance gold s)); [apply scattered_lor; auto|].
      rewrite bind_eq. destruct (fst (chance enemy _)); [apply scattered_lor; auto|].
      rewrite bind_eq. destruct (fst (chance spikes _)); [apply scattered_lor; auto|].
      apply scattered_refl. }
    intros i. destruct (decide (cell x y = i)) as [<-|Hne].
    + destruct (decide (cell x y < length a)%nat).
      * rewrite list_lookup_total_insert_eq by done.
        by apply (scattered_trans _ (a !!! cell x y)).
      * by rewrite list_insert_ge by lia.
    + by rewrite list_lookup_total_insert_ne.
  - split; [done|]. intros i. apply scattered_refl.
Qed.

(** ** The searches for a tile *)

Lemma in_array_lt x y : in_array x y = true -> (cell x y < 484)%nat.
Proof.
  unfold in_array, cell, LEVEL_SIZE. intros [H1%Z.leb_le H2%Z.ltb_lt]%andb_true_iff. lia.
Qed.

Lemma choose_floor_Finished (fuel : nat) (level : list Z) seed x y seed' :
  choose_floor fuel level seed = (Finished (x, y), seed') ->
  in_array x y = true /\ level !!! cell x y = BIT FLOOR.
Proof.
  revert seed. induction fuel as [|n IH]; intros seed; [by unfold ret|].
  cbn [choose_floor]. rewrite !bind_eq.
  set (a := fst (random_int_range 1 (LEVEL_SIZE - 1) seed)).
  set (s1 := snd (random_int_range 1 (LEVEL_SIZE - 1) seed)).
  set (b := fst (random_int_range 1 (LEVEL_SIZE - 1) s1)).
  set (s2 := snd (random_int_range 1 (LEVEL_SIZE - 1) s1)).
  destruct (in_array a b) eqn:Harr; cbn [negb]; [|by unfold ret].
  destruct (Z.eqb_spec (level !!! cell a b) (BIT FLOOR)) as [E|E]; cbn [negb].
  - unfold ret. intros [= <- <- _]. done.
  - apply IH.
Qed.

Lemma choose_verified_Finished (wanted : Z) (fuel : nat) (level : list Z) seen seed
    l x y seed' :
  choose_verified wanted fuel level seen seed = (Finished (l, (x, y)), seed') ->
  in_array x y = true /\ l = level.
Proof.
  revert seen seed. induction fuel as [|n IH]; intros seen seed; [by unfold ret|].
  cbn [choose_verified]. rewrite !bind_eq.
  set (a := fst (random_int_range 1 (LEVEL_SIZE - 1) seed)).
  set (s1 := snd (random_int_range 1 (LEVEL_SIZE - 1) seed)).
  set (b := fst (random_int_range 1 (LEVEL_SIZE - 1) s1)).
  set (s2 := snd (random_int_range 1 (LEVEL_SIZE - 1) s1)).
  destruct (in_array a b) eqn:Harr; cbn [negb]; [|by unfold ret].
  rewrite (flood_passive_level _ _ _ _ _ _ _ flood_record_tiles_passive).
  destruct (_ && _).
  - apply IH.
  - unfold ret. intros [= <- <- <- _]. done.
Qed.

(** ** The placers *)

Lemma bits_of_marks :
  BIT FLOOR <> Z.lor (Z.lor (BIT FLOOR) (BIT EXIT)) (BIT LOCK) /\
  BIT FLOOR <> Z.lor (BIT FLOOR) (BIT KEY).
Proof. by split. Qed.

Lemma scatter_placer_run (fuel : nat) (level : list Z) parameters seed level' seed' :
  level_wf level ->
  scatter_placer fuel level parameters seed = (Finished level', seed') ->
  exists (l1 : list Z) (i j k : nat),
    (i < 484)%nat /\ (j < 484)%nat /\ (k < 484)%nat /\
    i <> j /\ i <> k /\ j <> k /\
    length l1 = length level /\
    (forall n : nat, scattered (level !!! n) (l1 !!! n)) /\
    l1 !!! i = BIT FLOOR /\ l1 !!! j = BIT FLOOR /\ l1 !!! k = BIT FLOOR /\
    level' =
      <[k := Z.lor (BIT FLOOR) (BIT PLAYER)]>
        (<[j := Z.lor (BIT FLOOR) (BIT KEY)]>
           (<[i := Z.lor (Z.lor (BIT FLOOR) (BIT EXIT)) (BIT LOCK)]> l1)).
Proof.
  intros Hwf. unfold level_wf in Hwf.
  change (Z.to_nat (LEVEL_SIZE * LEVEL_SIZE)) with 484%nat in Hwf.
  unfold scatter_placer. cbv zeta. rewrite bind_eq.
  destruct (scatter_entities_inv (float_lit 7 100) (float_lit 3 100) (float_lit 3 100)
              level seed) as [Hlen Hsc].
  set (l1 := fst (scatter_entities _ _ _ level seed)) in *.
  set (s1 := snd (scatter_entities _ _ _ level seed)).
  rewrite bind_eq. destruct (choose_floor fuel l1 s1) as [[[x y]| |] s2] eqn:Hdoor;
    cbn [fst snd]; [|by unfold ret|by unfold ret].
  apply choose_floor_Finished in Hdoor as [Hi%in_array_lt Hfi].
  set (l2 := <[cell x y := _]> l1).
  rewrite bind_eq. destruct (choose_floor fuel l2 s2) as [[[x' y']| |] s3] eqn:Hkey;
    cbn [fst snd]; [|by unfold ret|by unfold ret].
  apply choose_floor_Finished in Hkey as [Hj%in_array_lt Hfj].
  set (l3 := <[cell x' y' := _]> l2).
  rewrite bind_eq. destruct (choose_floor fuel l3 s3) as [[[x'' y'']| |] s4] eqn:Hpl;
    cbn [fst snd]; [|by unfold ret|by unfold ret].
  apply choose_floor_Finished in Hpl as [Hk%in_array_lt Hfk].
  intros [= <- _].
  destruct bits_of_marks as [Hdoor Hkey].
  assert (Hij : cell x y <> cell x' y').
  { intros E. rewrite <- E in Hfj. unfold l2 in Hfj.
    rewrite list_lookup_total_insert_eq in Hfj by lia. congruence. }
  assert (Hjk : cell x' y' <> cell x'' y'').
  { intros E. rewrite <- E in Hfk. unfold l3 in Hfk.
    rewrite list_lookup_total_insert_eq in Hfk
      by (unfold l2; rewrite length_insert; lia). congruence. }
  assert (Hik : cell x y <> cell x'' y'').
  { intros E. rewrite <- E in Hfk. unfold l3, l2 in Hfk.
    rewrite list_lookup_total_insert_ne in Hfk by done.
    rewrite list_lookup_total_insert_eq in Hfk by lia. congruence. }
  exists l1, (cell x y), (cell x' y'), (cell x'' y'').
  repeat (split; [done|]).
  split; [|split; [|done]].
  - unfold l2 in Hfj. by rewrite list_lookup_total_insert_ne in Hfj.
  - unfold l3, l2 in Hfk. by rewrite !list_lookup_total_insert_ne in Hfk.
Qed.

(** ** The placers *)

Lemma lor_insert_testbit (l : list Z) (i n : nat) (m b : Z) :
  (i < length l)%nat ->
  Z.testbit (<[i := Z.lor (l !!! i) m]> l !!! n) b =
    Z.testbit (l !!! n) b || (bool_decide (n = i) && Z.testbit m b).
Proof.
  intros Hi. case_bool_decide as E.
  - subst n. rewrite list_lookup_total_insert_eq by done. by rewrite Z.lor_spec.
  - rewrite list_lookup_total_insert_ne by done. by rewrite orb_false_r.
Qed.

Lemma unplaced_scattered (level l1 : list Z) :
  unplaced level -> (forall n : nat, scattered (level !!! n) (l1 !!! n)) -> unplaced l1.
Proof.
  intros Hun Hsc n. destruct (Hun n) as (He & Hl & Hk & Hp).
  rewrite !(scattered_has_bit (level !!! n) (l1 !!! n)) by done. done.
Qed.

Lemma scatter_placer_once (fuel : nat) (level : list Z) parameters seed level' seed' :
  level_wf level ->
  scatter_placer fuel level parameters seed = (Finished level', seed') ->
  exists i j k : nat,
    ((i < 484)%nat /\ (j < 484)%nat /\ (k < 484)%nat) /\
    (i <> j /\ i <> k /\ j <> k) /\
    (level !!! i = BIT FLOOR /\ level !!! j = BIT FLOOR /\ level !!! k = BIT FLOOR) /\
    level' !!! i = Z.lor (Z.lor (BIT FLOOR) (BIT EXIT)) (BIT LOCK) /\
    level' !!! j = Z.lor (BIT FLOOR) (BIT KEY) /\
    level' !!! k = Z.lor (BIT FLOOR) (BIT PLAYER) /\
    (forall n : nat, n <> i -> n <> j -> n <> k ->
       scattered (level !!! n) (level' !!! n)) /\
    (unplaced level -> placed_once level' i j k).
Proof.
  intros Hwf Hrun.
  destruct (scatter_placer_run fuel level parameters seed level' seed' Hwf Hrun)
    as (l1 & i & j & k & Hi & Hj & Hk & Hij & Hik & Hjk & Hlen & Hsc & Hfi & Hfj & Hfk & ->).
  unfold level_wf in Hwf.
  change (Z.to_nat (LEVEL_SIZE * LEVEL_SIZE)) with 484%nat in Hwf.
  assert (Hvi : forall t u : Z,
            <[k := t]> (<[j := u]> (<[i := Z.lor (Z.lor (BIT FLOOR) (BIT EXIT)) (BIT LOCK)]> l1))
            !!! i = Z.lor (Z.lor (BIT FLOOR) (BIT EXIT)) (BIT LOCK)).
  { intros t u. rewrite !list_lookup_total_insert_ne by done.
    apply list_lookup_total_insert_eq. lia. }
  assert (Hvj : forall t u v : Z, <[k := t]> (<[j := u]> (<[i := v]> l1)) !!! j = u).
  { intros t u v. rewrite list_lookup_total_insert_ne by done.
    apply list_lookup_total_insert_eq. rewrite length_insert. lia. }
  assert (Hvk : forall t u v : Z, <[k := t]> (<[j := u]> (<[i := v]> l1)) !!! k = t).
  { intros t u v. apply list_lookup_total_insert_eq. rewrite !length_insert. lia. }
  assert (Hvn : forall (t u v : Z) (n : nat), n <> i -> n <> j -> n <> k ->
            <[k := t]> (<[j := u]> (<[i := v]> l1)) !!! n = l1 !!! n).
  { intros t u v n ? ? ?. by rewrite !list_lookup_total_insert_ne. }
  exists i, j, k. split; [done|]. split; [done|].
  split.
  { assert (Hsi := Hsc i). assert (Hsj := Hsc j). assert (Hsk := Hsc k).
    rewrite Hfi in Hsi. rewrite Hfj in Hsj. rewrite Hfk in Hsk.
    split; [|split]; by apply scattered_floor. }
  split; [apply Hvi|]. split; [apply Hvj|]. split; [apply Hvk|]. split.
  - intros n ? ? ?. rewrite Hvn by done. apply Hsc.
  - intros Hun n. assert (Hun1 := unplaced_scattered level l1 Hun Hsc n).
    destruct (decide (n = i)) as [->|Hni].
    { rewrite Hvi. rewrite !(bool_decide_eq_true_2 (i = i)) by done.
      rewrite (bool_decide_eq_false_2 (i = j)), (bool_decide_eq_false_2 (i = k)) by done.
      done. }
    destruct (decide (n = j)) as [->|Hnj].
    { rewrite Hvj. rewrite !(bool_decide_eq_true_2 (j = j)) by done.
      rewrite !(bool_decide_eq_false_2 (j = i)), (bool_decide_eq_false_2 (j = k)) by done.
      done. }
    destruct (decide (n = k)) as [->|Hnk].
    { rewrite Hvk. rewrite !(bool_decide_eq_true_2 (k = k)) by done.
      rewrite !(bool_decide_eq_false_2 (k = i)), (bool_decide_eq_false_2 (k = j)) by done.
      done. }
    rewrite Hvn by done. rewrite !bool_decide_eq_false_2 by done. done.
Qed.

Lemma verified_scatter_placer_once (fuel : nat) (level : list Z) parameters seed
    level' seed' :
  level_wf level -> unplaced level ->
  verified_scatter_placer fuel level parameters seed = (Finished level', seed') ->
  exists i j k : nat,
    ((i < 484)%nat /\ (j < 484)%nat /\ (k < 484)%nat) /\
    placed_once level' i j k /\
    forall n : nat,
      has_bit FLOOR (level' !!! n) = has_bit FLOOR (level !!! n) /\
      has_bit WALL (level' !!! n) = has_bit WALL (level !!! n).
Proof.
  intros Hwf Hun. unfold level_wf in Hwf.
  change (Z.to_nat (LEVEL_SIZE * LEVEL_SIZE)) with 484%nat in Hwf.
  unfold verified_scatter_placer.
  set (chances := match parameters with
                  | Some p => p
                  | None => (float_lit 7 100, float_lit 3 100, float_lit 3 100)
                  end).
  destruct chances as [[gold enemy] spikes]. rewrite bind_eq.
  destruct (scatter_entities_inv gold enemy spikes level seed) as [Hlen Hsc].
  set (l1 := fst (scatter_entities _ _ _ level seed)) in *.
  set (s1 := snd (scatter_entities _ _ _ level seed)).
  rewrite bind_eq. destruct (choose_floor fuel l1 s1) as [[[x y]| |] s2] eqn:Hdoor;
    cbn [fst snd]; [|by unfold ret|by unfold ret].
  apply choose_floor_Finished in Hdoor as [Hi%in_array_lt _].
  set (l2 := <[cell x y := _]> l1).
  rewrite bind_eq.
  destruct (choose_verified (BIT EXIT) fuel l2 0 s2) as [[[l2' [x' y']]| |] s3] eqn:Hkey;
    cbn [fst snd]; [|by unfold ret|by unfold ret].
  apply choose_verified_Finished in Hkey as [Hj%in_array_lt ->].
  set (l3 := <[cell x' y' := _]> l2).
  rewrite bind_eq.
  destruct (choose_verified (Z.lor (BIT EXIT) (BIT KEY)) fuel l3 0 s3)
    as [[[l3' [x'' y'']]| |] s4] eqn:Hpl;
    cbn [fst snd]; [|by unfold ret|by unfold ret].
  apply choose_verified_Finished in Hpl as [Hk%in_array_lt ->].
  unfold ret. intros [= <- _].
  exists (cell x y), (cell x' y'), (cell x'' y''). split; [done|].
  assert (Hbits : forall (n : nat) (b : Z),
            Z.testbit (<[cell x'' y'' := Z.lor (l3 !!! cell x'' y'') (BIT PLAYER)]> l3 !!! n) b =
            Z.testbit (l1 !!! n) b
            || bool_decide (n = cell x y) && Z.testbit (Z.lor (BIT EXIT) (BIT LOCK)) b
            || bool_decide (n = cell x' y') && Z.testbit (BIT KEY) b
            || bool_decide (n = cell x'' y'') && Z.testbit (BIT PLAYER) b).
  { intros n b. unfold l3, l2.
    rewrite !lor_insert_testbit by (rewrite ?length_insert; lia). done. }
  assert (Hun1 := unplaced_scattered level l1 Hun Hsc).
  split.
  - intros n. destruct (Hun1 n) as (He & Hl & Hky & Hp).
    rewrite has_bit_testbit in He, Hl, Hky, Hp by done.
    rewrite !has_bit_testbit by done. rewrite !Hbits, He, Hl, Hky, Hp.
    change (Z.testbit (Z.lor (BIT EXIT) (BIT LOCK)) EXIT) with true.
    change (Z.testbit (Z.lor (BIT EXIT) (BIT LOCK)) LOCK) with true.
    change (Z.testbit (Z.lor (BIT EXIT) (BIT LOCK)) KEY) with false.
    change (Z.testbit (Z.lor (BIT EXIT) (BIT LOCK)) PLAYER) with false.
    change (Z.testbit (BIT KEY) EXIT) with false.
    change (Z.testbit (BIT KEY) LOCK) with false.
    change (Z.testbit (BIT KEY) KEY) with true.
    change (Z.testbit (BIT KEY) PLAYER) with false.
    change (Z.testbit (BIT PLAYER) EXIT) with false.
    change (Z.testbit (BIT PLAYER) LOCK) with false.
    change (Z.testbit (BIT PLAYER) KEY) with false.
    change (Z.testbit (BIT PLAYER) PLAYER) with true.
    rewrite !andb_false_r, !andb_true_r, !orb_false_r. done.
  - intros n. rewrite !has_bit_testbit by done. rewrite !Hbits.
    change (Z.testbit (Z.lor (BIT EXIT) (BIT LOCK)) FLOOR) with false.
    change (Z.testbit (Z.lor (BIT EXIT) (BIT LOCK)) WALL) with false.
    change (Z.testbit (BIT KEY) FLOOR) with false.
    change (Z.testbit (BIT KEY) WALL) with false.
    change (Z.testbit (BIT PLAYER) FLOOR) with false.
    change (Z.testbit (BIT PLAYER) WALL) with false.
    rewrite !andb_false_r, !orb_false_r.
    split; by apply Hsc.
Qed.

(** ** The generators that lay floor *)

Lemma CLAMP_range low val high :
  low <= high -> low <= CLAMP low val high <= high.
Proof.
  intros Hle. unfold CLAMP, MIN, MAX.
  destruct (Z.gtb_spec low val);
    [destruct (Z.ltb_spec low high)|destruct (Z.ltb_spec val high)]; lia.
Qed.

Lemma dug_from_refl (level : list Z) : dug_from level level.
Proof. split; [done|]. intros j. by left. Qed.

Lemma dug_from_insert (level0 l : list Z) (i : nat) :
  dug_from level0 l -> dug_from level0 (<[i := BIT FLOOR]> l).
Proof.
  intros [Hlen Ht]. split; [by rewrite length_insert|]. intros j.
  destruct (decide (i = j)) as [<-|Hne].
  - destruct (decide (i < length l)%nat).
    + right. by apply list_lookup_total_insert_eq.
    + rewrite list_insert_ge by lia. apply Ht.
  - rewrite list_lookup_total_insert_ne by done. apply Ht.
Qed.

Lemma scatter_generator_inv (level : list Z) seed :
  level_wf level ->
  level_wf (fst (scatter_generator level seed)) /\
  Forall (fun t => t = BIT WALL \/ t = BIT FLOOR) (fst (scatter_generator level seed)).
Proof.
  intros Hwf. unfold scatter_generator. cbv zeta.
  rewrite fill_level_replicate by done.
  apply (for_rand_inv (fun l => level_wf l /\ Forall (fun t => t = BIT WALL \/ t = BIT FLOOR) l)).
  - intros _ a s [Ha Hf]. rewrite !bind_eq. cbn [ret fst]. split.
    + unfold level_wf. by rewrite length_insert.
    + apply Forall_insert; [done|by right].
  - split; [apply length_replicate|]. apply Forall_replicate. by left.
Qed.

(** Rooms. *)
Lemma room_floor_inv (level0 l : list Z) tlx tly width height :
  dug_from level0 l /\ (forall j, outside_inner j -> l !!! j = level0 !!! j) ->
  dug_from level0 (room_floor l tlx tly width height) /\
  (forall j, outside_inner j -> room_floor l tlx tly width height !!! j = level0 !!! j).
Proof.
  unfold room_floor.
  apply (foldl_inv (fun l => dug_from level0 l /\
                             forall j, outside_inner j -> l !!! j = level0 !!! j)).
  intros a y _.
  apply (foldl_inv (fun l => dug_from level0 l /\
                             forall j, outside_inner j -> l !!! j = level0 !!! j)).
  intros b x _ [Hd Hb]. cbv zeta. split; [by apply dug_from_insert|].
  intros j Hj. rewrite list_lookup_total_insert_ne; [by apply Hb|].
  apply Hj; apply CLAMP_range; unfold LEVEL_SIZE; lia.
Qed.

Lemma basic_rooms_inv (level0 : list Z) (fuel count : nat) :
  forall (l : list Z) seed l' seed',
    basic_rooms fuel count l seed = (Finished l', seed') ->
    dug_from level0 l /\ (forall j, outside_inner j -> l !!! j = level0 !!! j) ->
    dug_from level0 l' /\ (forall j, outside_inner j -> l' !!! j = level0 !!! j).
Proof.
  induction count as [|n IH]; intros l seed l' seed'.
  - unfold basic_rooms, ret. by intros [= <- _].
  - cbn [basic_rooms]. cbv zeta. rewrite bind_eq.
    destruct (fst (choose_floor fuel l seed)) as [[cx cy]| |];
      [|by unfold ret|by unfold ret].
    rewrite !bind_eq. intros Hrun Hl.
    apply (IH _ _ _ _ Hrun). by apply room_floor_inv.
Qed.

Lemma outside_inner_border x y :
  in_level x y ->
  x = 0 \/ x = LEVEL_SIZE - 1 \/ y = 0 \/ y = LEVEL_SIZE - 1 ->
  outside_inner (cell x y).
Proof.
  intros Hin Hb a b Ha Hb'. unfold in_level, cell, LEVEL_SIZE in *. lia.
Qed.

(** The digger. *)
Lemma dig_inv (level0 : list Z) step (d d' : digger) seed seed' :
  dig step d seed = (Finished d', seed') ->
  dug_from level0 (dg_level d) -> dug_from level0 (dg_level d').
Proof.
  unfold dig. destruct (in_array _ _); cbn [negb]; [|by unfold ret].
  cbv zeta. rewrite list_insert_insert_eq.
  destruct (if dg_direction d =? UP then _ else _) as [x y].
  rewrite bind_eq. destruct (fst (chance _ _)).
  - rewrite bind_eq. unfold ret. intros [= <- _] Hd. cbn [dg_level].
    by apply dug_from_insert.
  - unfold ret. intros [= <- _] Hd. cbn [dg_level]. by apply dug_from_insert.
Qed.

Lemma digs_inv (level0 : list Z) step (count : nat) :
  forall (d d' : digger) seed seed',
    digs step count d seed = (Finished d', seed') ->
    dug_from level0 (dg_level d) -> dug_from level0 (dg_level d').
Proof.
  induction count as [|n IH]; intros d d' seed seed'.
  - unfold digs, ret. by intros [= <- _].
  - cbn [digs]. rewrite bind_eq.
    destruct (dig step d seed) as [[d1| |] s1] eqn:Hdig; cbn [fst snd];
      [|by unfold ret|by unfold ret].
    intros Hrun Hd. apply (IH _ _ _ _ Hrun). by apply (dig_inv level0 step d d1 seed s1).
Qed.

Lemma digger_iteration_inv (level0 : list Z) fuel step portion i (l l' : list Z) seed seed' :
  digger_iteration fuel step portion i l seed = (Finished l', seed') ->
  dug_from level0 l -> dug_from level0 l'.
Proof.
  unfold digger_iteration. cbv zeta. rewrite bind_eq.
  destruct (fst (digger_start fuel i l seed)) as [[x y]| |];
    [|by unfold ret|by unfold ret].
  rewrite !bind_eq.
  destruct (digs _ _ _ _) as [[d| |] s1] eqn:Hdigs; cbn [fst snd];
    [|by unfold ret|by unfold ret].
  unfold ret. intros [= <- _] Hl.
  by apply (digs_inv level0 _ _ _ _ _ _ Hdigs).
Qed.

Lemma digger_iterations_inv (level0 : list Z) fuel step portion passes :
  forall (l l' : list Z) seed seed',
    digger_iterations fuel step portion passes l seed = (Finished l', seed') ->
    dug_from level0 l -> dug_from level0 l'.
Proof.
  induction passes as [|i passes IH]; intros l l' seed seed'.
  - unfold digger_iterations, ret. by intros [= <- _].
  - cbn [digger_iterations]. rewrite bind_eq.
    destruct (digger_iteration fuel step portion i l seed) as [[l1| |] s1] eqn:Hit;
      cbn [fst snd]; [|by unfold ret|by unfold ret].
    intros Hrun Hl. apply (IH _ _ _ _ Hrun).
    by apply (digger_iteration_inv level0 _ _ _ _ _ _ _ _ Hit).
Qed.

(** ** The flood of the editor *)

Lemma verify_level_spiked t0 t x y d :
  spiked t0 t -> matches (BIT FLOOR) (Z.lor (BIT FLOOR) (BIT WALL)) t = true ->
  spiked t0 (fst (fst (verify_level t x y d))).
Proof.
  intros Hs Hm. cbn [verify_level fst].
  assert (Hf : Z.testbit t FLOOR = true).
  { unfold matches in Hm. apply Z.eqb_eq in Hm.
    assert (H := f_equal (fun v => Z.testbit v FLOOR) Hm). cbv beta in H.
    rewrite Z.land_spec in H. change (Z.testbit (BIT FLOOR) FLOOR) with true in H.
    rewrite andb_true_r in H. rewrite H. done. }
  destruct Hs as [->|[-> Hf0]].
  - right. done.
  - right. split; [|done]. rewrite <- Z.lor_assoc. by rewrite Z.lor_diag.
Qed.

Lemma editor_flood_inv (level : list Z) tx ty :
  (forall j : nat, spiked (level !!! j) (fr_level (editor_flood level tx ty) !!! j)) /\
  flood_bounded (length level) (editor_flood level tx ty).
Proof.
  split; [|apply flood_steps_bounded].
  unfold editor_flood. apply (flood_tiles_rel spiked).
  - intros t. by left.
  - intros t0 t x y d. apply verify_level_spiked.
Qed.

(** ** Bits *)

Lemma testbit_BIT n b : 0 <= n -> 0 <= b -> Z.testbit (BIT n) b = (n =? b).
Proof. intros Hn Hb. unfold BIT. by rewrite Z.shiftl_1_l, Z.pow2_bits_eqb. Qed.

Lemma testbit_lor_BIT t n b :
  0 <= n -> 0 <= b -> Z.testbit (Z.lor t (BIT n)) b = Z.testbit t b || (n =? b).
Proof. intros Hn Hb. by rewrite Z.lor_spec, testbit_BIT. Qed.

Lemma testbit_lxor_BIT t n b :
  0 <= n -> 0 <= b -> Z.testbit (Z.lxor t (BIT n)) b = xorb (Z.testbit t b) (n =? b).
Proof. intros Hn Hb. by rewrite Z.lxor_spec, testbit_BIT. Qed.

Lemma testbit_neg (t : Z) (b : Z) : b < 0 -> Z.testbit t b = false.
Proof. apply Z.testbit_neg_r. Qed.

(** ** Loops over the indices *)

Lemma foldl_seq_pointwise_length (F : nat -> Z -> Z) (l : list Z) (n : nat) :
  length (foldl (fun u i => <[i := F i (u !!! i)]> u) l (seq 0 n)) = length l.
Proof.
  generalize (seq 0 n). intros ks. revert l.
  induction ks as [|a ks IH]; intros l; [done|].
  cbn [foldl]. by rewrite IH, length_insert.
Qed.

Lemma foldl_seq_pointwise (F : nat -> Z -> Z) (l : list Z) (n i : nat) :
  (n <= length l)%nat ->
  foldl (fun u i => <[i := F i (u !!! i)]> u) l (seq 0 n) !!! i =
    if decide (i < n)%nat then F i (l !!! i) else l !!! i.
Proof.
  induction n as [|n IH]; intros Hn.
  - cbn [seq foldl]. destruct (decide (i < 0)%nat); [lia|done].
  - rewrite seq_S, foldl_app. cbn [foldl Nat.add].
    destruct (decide (i = n)) as [->|Hne].
    + rewrite list_lookup_total_insert_eq by (rewrite foldl_seq_pointwise_length; lia).
      rewrite IH by lia. destruct (decide (n < n)%nat); [lia|].
      by destruct (decide (n < S n)%nat); [|lia].
    + rewrite list_lookup_total_insert_ne by done. rewrite IH by lia.
      destruct (decide (i < n)%nat), (decide (i < S n)%nat); try lia; done.
Qed.

Lemma static_level_length (level : list Z) : length (static_level level) = 484%nat.
Proof.
  unfold static_level.
  rewrite (foldl_seq_pointwise_length
             (fun i v => Z.lor v (Z.land (level !!! i) STATIC_ENTITIES))).
  apply length_replicate.
Qed.

Lemma static_level_lookup (level : list Z) (i : nat) :
  (i < 484)%nat ->
  static_level level !!! i = Z.land (level !!! i) STATIC_ENTITIES.
Proof.
  intros Hi. unfold static_level.
  rewrite (foldl_seq_pointwise
             (fun i v => Z.lor v (Z.land (level !!! i) STATIC_ENTITIES)))
    by (unfold zero_level; rewrite length_replicate; lia).
  change (Z.to_nat (LEVEL_SIZE * LEVEL_SIZE)) with 484%nat in *.
  destruct (decide (i < 484)%nat); [|lia].
  unfold zero_level. change (Z.to_nat (LEVEL_SIZE * LEVEL_SIZE)) with 484%nat.
  by rewrite lookup_total_replicate_2.
Qed.

Lemma copy_level_eq (level updated : list Z) :
  length level = 484%nat -> length updated = 484%nat ->
  copy_level level updated = updated.
Proof.
  intros Hl Hu. unfold copy_level.
  apply (list_eq_same_length _ _ 484); [done| |].
  - by rewrite (foldl_seq_pointwise_length (fun i _ => updated !!! i)).
  - intros i a b Hi Ha Hb. apply list_lookup_total_correct in Ha, Hb. subst a b.
    rewrite (foldl_seq_pointwise (fun i _ => updated !!! i))
      by (change (Z.to_nat (LEVEL_SIZE * LEVEL_SIZE)) with 484%nat; lia).
    change (Z.to_nat (LEVEL_SIZE * LEVEL_SIZE)) with 484%nat.
    by destruct (decide (i < 484)%nat).
Qed.

Lemma testbit_STATIC b :
  0 <= b ->
  Z.testbit STATIC_ENTITIES b = (FLOOR =? b) || (WALL =? b) || (SPIKES =? b) || (EXIT =? b).
Proof.
  intros Hb. unfold STATIC_ENTITIES. by rewrite !Z.lor_spec, !testbit_BIT.
Qed.

(** ** The first pass *)

Lemma playing_start (level : list Z) :
  level_wf level -> playing level level (static_level level).
Proof.
  intros Hwf. split.
  - done.
  - apply static_level_length.
  - done.
  - done.
  - intros i b Hi Hb. rewrite static_level_lookup, Z.land_spec by done.
    assert (Hb0 : 0 <= b) by (unfold static_bit, FLOOR, WALL, SPIKES, EXIT in Hb; lia).
    rewrite testbit_STATIC by done.
    destruct Hb as [->|[->|[->| ->]]]; apply andb_true_r.
  - intros i b Hi Hb. rewrite static_level_lookup, Z.land_spec by done.
    destruct Hb as [->| ->]; intros [_ H]%andb_true_iff; done.
  - intros i b Hi Hb. rewrite static_level_lookup, Z.land_spec by done.
    rewrite testbit_STATIC by done. intros [_ H]%andb_true_iff. left.
    unfold static_bit. apply orb_true_iff in H as [H|H%Z.eqb_eq]; [|subst; auto].
    apply orb_true_iff in H as [H|H%Z.eqb_eq]; [|subst; auto].
    apply orb_true_iff in H as [H%Z.eqb_eq|H%Z.eqb_eq]; subst; auto.
Qed.

(** A moving entity put down on the level that is built. *)
Lemma playing_put (level0 level updated : list Z) (j : nat) (n : Z) :
  n = ENEMY \/ n = PLAYER ->
  playing level0 level updated ->
  Z.testbit (level0 !!! j) WALL = false \/ Z.testbit (level0 !!! j) n = true ->
  playing level0 level (<[j := Z.lor (updated !!! j) (BIT n)]> updated).
Proof.
  intros Hn [Hll Hul Hfix Hless Hst Hso Hmv] Hj.
  assert (Hn0 : 0 <= n) by (destruct Hn as [->| ->]; done).
  assert (Hcases : forall (i : nat) b, (i < 484)%nat -> 0 <= b ->
            Z.testbit (<[j := Z.lor (updated !!! j) (BIT n)]> updated !!! i) b =
            Z.testbit (updated !!! i) b || (bool_decide (i = j) && (n =? b))).
  { intros i b Hi Hb. case_bool_decide as E.
    - subst i. rewrite list_lookup_total_insert_eq by lia. by rewrite testbit_lor_BIT.
    - rewrite list_lookup_total_insert_ne by done. by rewrite orb_false_r. }
  split; [done| |done|done| | |].
  - by rewrite length_insert.
  - intros i b Hi Hb.
    assert (Hb0 : 0 <= b) by (unfold static_bit, FLOOR, WALL, SPIKES, EXIT in Hb; lia).
    rewrite Hcases by done.
    replace (n =? b) with false; [rewrite andb_false_r, orb_false_r; by apply Hst|].
    symmetry. apply Z.eqb_neq.
    unfold static_bit, FLOOR, WALL, SPIKES, EXIT, ENEMY, PLAYER in *. lia.
  - intros i b Hi Hb.
    assert (Hb0 : 0 <= b) by (unfold ENEMY, PLAYER in Hb; lia).
    rewrite Hcases by done. intros [H|[H1 H2]%andb_true_iff]%orb_true_iff.
    + by apply Hso.
    + apply bool_decide_eq_true_1 in H1. apply Z.eqb_eq in H2. by subst.
  - intros i b Hi Hb. rewrite Hcases by done.
    intros [H|[H1 H2%Z.eqb_eq]%andb_true_iff]%orb_true_iff.
    + by apply (Hmv i).
    + right. by subst.
Qed.

(** The enemy under the player taken off the level that is built. *)
Lemma playing_kill (level0 level updated : list Z) (i : nat) :
  playing level0 level updated ->
  Z.testbit (updated !!! i) ENEMY = true ->
  playing level0 level (<[i := Z.lxor (updated !!! i) (BIT ENEMY)]> updated).
Proof.
  intros [Hll Hul Hfix Hless Hst Hso Hmv] Hset.
  assert (Hcases : forall (k : nat) b, 0 <= b -> b <> ENEMY ->
            Z.testbit (<[i := Z.lxor (updated !!! i) (BIT ENEMY)]> updated !!! k) b =
            Z.testbit (updated !!! k) b).
  { intros k b Hb Hne. destruct (decide (i = k)) as [<-|E].
    - destruct (decide (i < length updated)%nat).
      + rewrite list_lookup_total_insert_eq by lia. rewrite testbit_lxor_BIT by done.
        replace (ENEMY =? b) with false; [apply xorb_false_r|].
        symmetry. by apply Z.eqb_neq.
      + by rewrite list_insert_ge by lia.
    - by rewrite list_lookup_total_insert_ne. }
  split; [done| |done|done| | |].
  - by rewrite length_insert.
  - intros k b Hk Hb. rewrite Hcases; [by apply Hst| |];
      unfold static_bit, FLOOR, WALL, SPIKES, EXIT, ENEMY in *; lia.
  - intros k b Hk Hb. destruct (decide (b = ENEMY)) as [->|Hne].
    + destruct (decide (i = k)) as [<-|E].
      * rewrite list_lookup_total_insert_eq by lia. rewrite testbit_lxor_BIT by done.
        rewrite Z.eqb_refl, Hset. done.
      * rewrite list_lookup_total_insert_ne by done. by apply Hso.
    + rewrite Hcases; [by apply Hso| |done]. destruct Hb as [->| ->]; done.
  - intros k b Hk Hb. destruct (decide (b = ENEMY)) as [->|Hne]; [by right; left|].
    rewrite Hcases by done. by apply (Hmv k).
Qed.

(** Something collected, or killed, on the level. *)
Lemma playing_take (level0 level updated : list Z) (j : nat) (n : Z) :
  n = GOLD \/ n = KEY \/ n = ENEMY ->
  playing level0 level updated ->
  Z.testbit (level !!! j) n = true ->
  playing level0 (<[j := Z.lxor (level !!! j) (BIT n)]> level) updated.
Proof.
  intros Hn [Hll Hul Hfix Hless Hst Hso Hmv] Hj.
  assert (Hn0 : 0 <= n) by (destruct Hn as [->|[->| ->]]; done).
  assert (Hcases : forall (i : nat) b, 0 <= b ->
            Z.testbit (<[j := Z.lxor (level !!! j) (BIT n)]> level !!! i) b =
            xorb (Z.testbit (level !!! i) b)
              (bool_decide (i = j /\ (j < length level)%nat) && (n =? b))).
  { intros i b Hb. case_bool_decide as E.
    - destruct E as [-> E]. rewrite list_lookup_total_insert_eq by done.
      by rewrite testbit_lxor_BIT.
    - destruct (decide (j < length level)%nat).
      + rewrite list_lookup_total_insert_ne by (intros <-; by apply E).
        by rewrite xorb_false_r.
      + rewrite list_insert_ge by lia. by rewrite xorb_false_r. }
  split; [|done| | |done|done|done].
  - by rewrite length_insert.
  - intros i b Hi Hb Hg Hk He. rewrite Hcases by done.
    replace (n =? b) with false; [rewrite andb_false_r, xorb_false_r; by apply Hfix|].
    symmetry. apply Z.eqb_neq. destruct Hn as [->|[->| ->]]; done.
  - intros i b Hi Hb. rewrite Hcases by done.
    destruct (bool_decide (i = j /\ (j < length level)%nat) && (n =? b)) eqn:E.
    + apply andb_true_iff in E as [E1 E2]. apply bool_decide_eq_true_1 in E1 as [-> _].
      apply Z.eqb_eq in E2. subst. rewrite Hj. done.
    + rewrite xorb_false_r. by apply Hless.
Qed.

(** ** A tile of the first pass *)

Lemma bit_test t n : 0 <= n -> negb (Z.land t (BIT n) =? 0) = Z.testbit t n.
Proof. intros Hn. by rewrite <- has_bit_testbit. Qed.

Lemma solid_test t : (Z.land t SOLID_ENTITIES =? 0) = negb (Z.testbit t WALL).
Proof.
  unfold SOLID_ENTITIES. rewrite <- (bit_test t WALL) by done. by rewrite negb_involutive.
Qed.

Lemma for_outcome_inv {A : Type} (P : A -> Prop) (body : Z -> A -> Rand (outcome A)) xs :
  (forall x a s a' s', x ∈ xs -> P a -> body x a s = (Finished a', s') -> P a') ->
  forall a s a' s', P a -> for_outcome xs body a s = (Finished a', s') -> P a'.
Proof.
  induction xs as [|x xs IH]; intros Hbody a s a' s' Ha.
  - unfold for_outcome, ret. by intros [= <- _].
  - cbn [for_outcome]. rewrite bind_eq.
    destruct (body x a s) as [[a1| |] s1] eqn:Hx; cbn [fst snd];
      [|by unfold ret|by unfold ret].
    apply IH.
    + intros z b t b' t' Hz. apply Hbody. by right.
    + apply (Hbody x a s a1 s1); [left|done|done].
Qed.

Lemma step_to_cases direction x y :
  step_to direction x y = (x, y) \/ step_to direction x y = (x, y - 1) \/
  step_to direction x y = (x, y + 1) \/ step_to direction x y = (x - 1, y) \/
  step_to direction x y = (x + 1, y).
Proof.
  unfold step_to.
  destruct (direction =? UP); [tauto|]. destruct (direction =? DOWN); [tauto|].
  destruct (direction =? LEFT); [tauto|]. destruct (direction =? RIGHT); tauto.
Qed.

Lemma move_enemy_inv (level0 : list Z) (x y : Z) (g g' : game) seed seed' :
  move_enemy x y g seed = (Finished g', seed') ->
  (cell x y < 484)%nat ->
  Z.testbit (gm_level g !!! cell x y) ENEMY = true ->
  playing level0 (gm_level g) (updated_level g) ->
  playing level0 (gm_level g') (updated_level g') /\
  gm_level g' = gm_level g /\
  game_over g' = game_over g /\ gold_collected g' = gold_collected g /\
  enemies_killed g' = enemies_killed g.
Proof.
  unfold move_enemy. rewrite bind_eq.
  destruct (step_to _ x y) as [nx ny].
  destruct (in_array nx ny) eqn:Harr; cbn [negb]; [|by unfold ret].
  apply in_array_lt in Harr. rewrite solid_test. cbv zeta.
  destruct (Z.testbit (gm_level g !!! cell nx ny) WALL) eqn:Hw; cbn [negb];
    unfold ret; intros [= <- _] Hi He Hpl;
    cbn [gm_level updated_level game_over gold_collected enemies_killed];
    (split; [|done]).
  - apply playing_put; [by left|done|]. right.
    by apply (pl_level_less _ _ _ Hpl).
  - apply playing_put; [by left|done|]. left.
    by rewrite <- (pl_level_fixed _ _ _ Hpl).
Qed.

Lemma insert_lxor_other (l : list Z) (j : nat) (m n : Z) :
  0 <= m -> 0 <= n -> n <> m ->
  Z.testbit (<[j := Z.lxor (l !!! j) (BIT m)]> l !!! j) n = Z.testbit (l !!! j) n.
Proof.
  intros Hm Hn Hne. destruct (decide (j < length l)%nat).
  - rewrite list_lookup_total_insert_eq by done. rewrite testbit_lxor_BIT by done.
    replace (m =? n) with false; [apply xorb_false_r|]. symmetry. apply Z.eqb_neq. lia.
  - by rewrite list_insert_ge by lia.
Qed.

Lemma move_player_inv (level0 : list Z) (direction x y : Z) (g g' : game) :
  move_player direction x y g = Finished g' ->
  (cell x y < 484)%nat ->
  Z.testbit (gm_level g !!! cell x y) PLAYER = true ->
  playing level0 (gm_level g) (updated_level g) ->
  playing level0 (gm_level g') (updated_level g').
Proof.
  unfold move_player. cbv zeta. rewrite (bit_test _ ENEMY) by done.
  intros Hrun Hi Hp Hpl.
  set (killed := if Z.testbit (updated_level g !!! cell x y) ENEMY then _ else _) in Hrun.
  assert (Hk : playing level0 (gm_level g) (fst killed)).
  { unfold killed. destruct (Z.testbit (updated_level g !!! cell x y) ENEMY) eqn:He;
      cbn [fst]; [by apply playing_kill|done]. }
  destruct killed as [updated k]. cbn [fst] in Hk. clear Hpl.
  destruct (step_to direction x y) as [nx ny].
  destruct (in_array nx ny) eqn:Harr; cbn [negb] in Hrun; [|done].
  apply in_array_lt in Harr.
  rewrite solid_test, !bit_test in Hrun by done.
  destruct (Z.testbit (gm_level g !!! cell nx ny) WALL) eqn:Hw; cbn [negb] in Hrun.
  - injection Hrun as <-. cbn [gm_level updated_level].
    apply playing_put; [by right|done|]. right.
    by rewrite <- (pl_level_fixed _ _ _ Hk).
  - assert (Hput : playing level0 (gm_level g)
              (<[cell nx ny := Z.lor (updated !!! cell nx ny) (BIT PLAYER)]> updated)).
    { apply playing_put; [by right|done|]. left.
      by rewrite <- (pl_level_fixed _ _ _ Hk). }
    set (new_tile := gm_level g !!! cell nx ny) in *.
    set (u := <[cell nx ny := _]> updated) in *.
    destruct (Z.testbit new_tile GOLD) eqn:Hg.
    + assert (H1 : playing level0
                (<[cell nx ny := Z.lxor (gm_level g !!! cell nx ny) (BIT GOLD)]> (gm_level g)) u)
        by (apply playing_take; [by left|done|done]).
      set (l1 := <[cell nx ny := Z.lxor (gm_level g !!! cell nx ny) (BIT GOLD)]> (gm_level g)) in *.
      assert (Hk1 : Z.testbit (l1 !!! cell nx ny) KEY = Z.testbit new_tile KEY)
        by (by apply insert_lxor_other).
      assert (He1 : Z.testbit (l1 !!! cell nx ny) ENEMY = Z.testbit new_tile ENEMY)
        by (by apply insert_lxor_other).
      destruct (Z.testbit new_tile KEY) eqn:Hky.
      * assert (H2 : playing level0 (<[cell nx ny := Z.lxor (l1 !!! cell nx ny) (BIT KEY)]> l1) u)
          by (apply playing_take; [by right; left|done|done]).
        set (l2 := <[cell nx ny := Z.lxor (l1 !!! cell nx ny) (BIT KEY)]> l1) in *.
        assert (He2 : Z.testbit (l2 !!! cell nx ny) ENEMY = Z.testbit new_tile ENEMY)
          by (unfold l2; rewrite insert_lxor_other by done; done).
        destruct (Z.testbit new_tile ENEMY) eqn:Hen; injection Hrun as <-;
          cbn [gm_level updated_level]; [|done].
        apply playing_take; [by right; right|done|done].
      * destruct (Z.testbit new_tile ENEMY) eqn:Hen; injection Hrun as <-;
          cbn [gm_level updated_level]; [|done].
        apply playing_take; [by right; right|done|done].
    + set (l1 := gm_level g) in *.
      destruct (Z.testbit new_tile KEY) eqn:Hky.
      * assert (H2 : playing level0 (<[cell nx ny := Z.lxor (l1 !!! cell nx ny) (BIT KEY)]> l1) u)
          by (apply playing_take; [by right; left|done|done]).
        set (l2 := <[cell nx ny := Z.lxor (l1 !!! cell nx ny) (BIT KEY)]> l1) in *.
        assert (He2 : Z.testbit (l2 !!! cell nx ny) ENEMY = Z.testbit new_tile ENEMY)
          by (unfold l2; rewrite insert_lxor_other by done; done).
        destruct (Z.testbit new_tile ENEMY) eqn:Hen; injection Hrun as <-;
          cbn [gm_level updated_level]; [|done].
        apply playing_take; [by right; right|done|done].
      * destruct (Z.testbit new_tile ENEMY) eqn:Hen; injection Hrun as <-;
          cbn [gm_level updated_level]; [|done].
        apply playing_take; [by right; right|done|done].
Qed.

(** ** What every step keeps *)

Lemma cell_range x y :
  0 <= x < LEVEL_SIZE -> 0 <= y < LEVEL_SIZE -> (cell x y < 484)%nat.
Proof. unfold cell, LEVEL_SIZE. lia. Qed.

Lemma update_tile_inv (level0 : list Z) gold killed direction y x (g g' : game) seed seed' :
  0 <= x < LEVEL_SIZE -> 0 <= y < LEVEL_SIZE ->
  update_tile direction y x g seed = (Finished g', seed') ->
  first_pass_inv level0 gold killed g -> first_pass_inv level0 gold killed g'.
Proof.
  intros Hx Hy. assert (Hi := cell_range x y Hx Hy).
  unfold update_tile. cbv zeta. rewrite bind_eq, !bit_test by done.
  intros Hrun [Hpl Hq].
  assert (Hplayer : Z.testbit (gm_level g !!! cell x y) PLAYER
                    = Z.testbit (level0 !!! cell x y) PLAYER)
    by (by apply (pl_level_fixed _ _ _ Hpl)).
  destruct (Z.testbit (gm_level g !!! cell x y) ENEMY) eqn:He.
  - destruct (move_enemy x y g seed) as [[g1| |] s1] eqn:Hmove; cbn [fst snd] in Hrun;
      [|by unfold ret in Hrun|by unfold ret in Hrun].
    apply (move_enemy_inv level0) in Hmove as (Hpl1 & Hl1 & Ho1 & Hg1 & Hk1); try done.
    destruct (Z.testbit (gm_level g !!! cell x y) PLAYER) eqn:Hp;
      unfold ret in Hrun; injection Hrun as Hrun _.
    + split.
      * apply (move_player_inv level0 direction x y g1); try done. by rewrite Hl1.
      * intros Hno. rewrite Hno in Hplayer by done. done.
    + subst g'. split; [done|]. intros Hno. destruct (Hq Hno) as (? & ? & ?).
      unfold quiet. by rewrite Ho1, Hg1, Hk1.
  - cbn [ret fst snd] in Hrun.
    destruct (Z.testbit (gm_level g !!! cell x y) PLAYER) eqn:Hp;
      unfold ret in Hrun; injection Hrun as Hrun _.
    + split.
      * by apply (move_player_inv level0 direction x y g).
      * intros Hno. rewrite Hno in Hplayer by done. done.
    + by subst g'.
Qed.

Lemma first_pass_holds (level0 : list Z) gold killed direction (g g' : game) seed seed' :
  for_outcome (seqZ 0 LEVEL_SIZE)
    (fun y => for_outcome (seqZ 0 LEVEL_SIZE) (update_tile direction y)) g seed
    = (Finished g', seed') ->
  first_pass_inv level0 gold killed g -> first_pass_inv level0 gold killed g'.
Proof.
  intros Hrun Hg.
  refine (for_outcome_inv (first_pass_inv level0 gold killed) _ _ _ g seed g' seed' Hg Hrun).
  intros y a s a' s' Hy%elem_of_seqZ Ha Hrow.
  refine (for_outcome_inv (first_pass_inv level0 gold killed) _ _ _ a s a' s' Ha Hrow).
  intros x b t b' t' Hx%elem_of_seqZ Hb Htile.
  apply (update_tile_inv level0 gold killed direction y x b b' t t'); try done; lia.
Qed.

(** ** The later passes *)

Lemma collecting_put (level0 level1 updated : list Z) (j : nat) (n : Z) :
  n = GOLD \/ n = KEY \/ n = LOCK ->
  collecting level0 level1 updated ->
  Z.testbit (level1 !!! j) n = true ->
  collecting level0 level1 (<[j := Z.lor (updated !!! j) (BIT n)]> updated).
Proof.
  intros Hn [Hul Hst Hso Hkn Hke] Hj.
  assert (Hn0 : 0 <= n) by (destruct Hn as [-> |[-> | ->]]; done).
  assert (Hcases : forall (i : nat) b, (i < 484)%nat -> 0 <= b ->
            Z.testbit (<[j := Z.lor (updated !!! j) (BIT n)]> updated !!! i) b =
            Z.testbit (updated !!! i) b || (bool_decide (i = j) && (n =? b))).
  { intros i b Hi Hb. case_bool_decide as E.
    - subst i. rewrite list_lookup_total_insert_eq by lia. by rewrite testbit_lor_BIT.
    - rewrite list_lookup_total_insert_ne by done. by rewrite orb_false_r. }
  split.
  - by rewrite length_insert.
  - intros i b Hi Hb.
    assert (Hb0 : 0 <= b) by (unfold static_bit, FLOOR, WALL, SPIKES, EXIT in Hb; lia).
    rewrite Hcases by done.
    replace (n =? b) with false; [rewrite andb_false_r, orb_false_r; by apply Hst|].
    symmetry. apply Z.eqb_neq.
    unfold static_bit, FLOOR, WALL, SPIKES, EXIT, GOLD, KEY, LOCK in *. lia.
  - intros i b Hi Hb.
    assert (Hb0 : 0 <= b) by (unfold ENEMY, PLAYER in Hb; lia).
    rewrite Hcases by done.
    replace (n =? b) with false; [rewrite andb_false_r, orb_false_r; by apply Hso|].
    symmetry. apply Z.eqb_neq. unfold ENEMY, PLAYER, GOLD, KEY, LOCK in *. lia.
  - intros i b Hi Hb. rewrite Hcases by done.
    intros [H|[H1 H2%Z.eqb_eq]%andb_true_iff]%orb_true_iff; [by apply (Hkn i)|].
    subst b. unfold ENTITY_TYPE_COUNT, GOLD, KEY, LOCK in *. lia.
  - intros i b Hi Hb.
    assert (Hb0 : 0 <= b) by (unfold GOLD, KEY, LOCK in Hb; lia).
    rewrite Hcases by done.
    intros [H|[H1 H2%Z.eqb_eq]%andb_true_iff]%orb_true_iff; [by apply Hke|].
    apply bool_decide_eq_true_1 in H1. by subst.
Qed.

Lemma collect_tile_inv (level0 level1 : list Z) (g0 g : game) y x :
  later_pass_inv level0 level1 g0 g ->
  later_pass_inv level0 level1 g0 (collect_tile y x g).
Proof.
  intros (Hco & Hl & Ho & Hg & Hk). unfold collect_tile. cbv zeta.
  rewrite !bit_test by done. rewrite Hl.
  set (u := if Z.testbit (level1 !!! cell x y) GOLD then _ else _).
  assert (Hu : collecting level0 level1 u).
  { unfold u. destruct (Z.testbit (level1 !!! cell x y) GOLD) eqn:E; [|done].
    apply collecting_put; [by left|done|done]. }
  destruct (Z.testbit (level1 !!! cell x y) KEY) eqn:E; [|done].
  split; [|done]. cbn [updated_level]. apply collecting_put; [by right; left|done|done].
Qed.

Lemma lock_tile_inv (level0 level1 : list Z) (g0 g : game) y x :
  later_pass_inv level0 level1 g0 g ->
  later_pass_inv level0 level1 g0 (lock_tile y x g).
Proof.
  intros (Hco & Hl & Ho & Hg & Hk). unfold lock_tile. cbv zeta.
  rewrite !bit_test by done. rewrite Hl.
  destruct (Z.testbit (level1 !!! cell x y) LOCK) eqn:E; cbn [andb]; [|done].
  destruct (key_has_been_collected g); cbn [negb]; [done|].
  split; [|done]. cbn [updated_level]. apply collecting_put; [by right; right|done|done].
Qed.

Lemma every_tile_inv {A : Type} (P : A -> Prop) (body : Z -> Z -> A -> A) (a : A) :
  (forall y x a, 0 <= x < LEVEL_SIZE -> 0 <= y < LEVEL_SIZE -> P a -> P (body y x a)) ->
  P a -> P (every_tile body a).
Proof.
  intros Hbody Ha. unfold every_tile.
  apply (foldl_inv P); [|done]. intros b y Hy%elem_of_seqZ Hb.
  apply (foldl_inv P); [|done]. intros c x Hx%elem_of_seqZ Hc.
  apply Hbody; [lia|lia|done].
Qed.

Lemma collecting_start (level0 level updated : list Z) :
  playing level0 level updated -> collecting level0 level updated.
Proof.
  intros [Hll Hul Hfix Hless Hst Hso Hmv]. split; [done|done|done| |].
  - intros i b Hi Hb Hset.
    destruct (Hmv i b Hi Hb Hset) as [Hs|[-> | ->]];
      unfold static_bit, ENTITY_TYPE_COUNT, FLOOR, WALL, SPIKES, EXIT, ENEMY, PLAYER in *; lia.
  - intros i b Hi Hb Hset. exfalso.
    destruct (Hmv i b Hi ltac:(unfold GOLD, KEY, LOCK in Hb; lia) Hset) as [Hs|[-> | ->]];
      unfold static_bit, GOLD, KEY, LOCK, FLOOR, WALL, SPIKES, EXIT, ENEMY, PLAYER in *; lia.
Qed.

Lemma finished_inj {A B C D S : Type} (a a' : A) (b b' : B) (c c' : C) (d d' : D)
    (s s' : S) :
  (Finished (a, b, c, d), s) = (Finished (a', b', c', d'), s') ->
  a = a' /\ b = b' /\ c = c' /\ d = d'.
Proof. by intros [= -> -> -> -> _]. Qed.

Lemma update_level_inv (level : list Z) direction gold killed seed
    level' over gold' killed' seed' :
  level_wf level ->
  update_level level direction gold killed seed
    = (Finished (level', over, gold', killed'), seed') ->
  updated_from level level' /\
  ((forall i : nat, (i < 484)%nat -> Z.testbit (level !!! i) PLAYER = false) ->
   over = false /\ gold' = gold /\ killed' = killed).
Proof.
  intros Hwf. unfold update_level. cbv zeta. rewrite bind_eq.
  set (g0 := Game level (static_level level) gold killed true false).
  destruct (for_outcome _ _ g0 seed) as [[g1| |] s1] eqn:Hpass; cbn [fst snd];
    [|by unfold ret|by unfold ret].
  assert (H1 : first_pass_inv level gold killed g1).
  { apply (first_pass_holds level gold killed direction g0 g1 seed s1 Hpass).
    split; [by apply playing_start|]. by intros _. }
  destruct H1 as [Hpl Hq].
  assert (H2 : later_pass_inv level (gm_level g1) g1 (every_tile collect_tile g1)).
  { apply every_tile_inv; [intros; by apply collect_tile_inv|].
    split; [by apply collecting_start|done]. }
  assert (H3 : later_pass_inv level (gm_level g1) g1
                 (every_tile lock_tile (every_tile collect_tile g1))).
  { apply every_tile_inv; [intros; by apply lock_tile_inv|done]. }
  set (g3 := every_tile lock_tile (every_tile collect_tile g1)) in *.
  destruct H3 as ([Hul Hst Hso Hkn Hke] & Hl3 & Ho3 & Hg3 & Hk3).
  unfold ret. intros Heq. apply finished_inj in Heq as (<- & <- & <- & <-).
  rewrite copy_level_eq; [|rewrite Hl3; apply (pl_level_len _ _ _ Hpl)|done].
  split.
  - split; try done. intros i b Hi Hb Hset.
    apply (pl_level_less _ _ _ Hpl); [done|unfold GOLD, KEY, LOCK in Hb; lia|].
    by apply Hke.
  - intros Hno. destruct (Hq Hno) as (? & ? & ?). by rewrite Ho3, Hg3, Hk3.
Qed.

(** ** A pass in two phases *)

Lemma for_outcome_phase {A : Type} (P Q : A -> Prop) (body : Z -> A -> Rand (outcome A))
    xs x0 :
  NoDup xs -> x0 ∈ xs ->
  (forall x a s a' s', x ∈ xs -> x <> x0 -> P a -> body x a s = (Finished a', s') -> P a') ->
  (forall x a s a' s', x ∈ xs -> x <> x0 -> Q a -> body x a s = (Finished a', s') -> Q a') ->
  (forall a s a' s', P a -> body x0 a s = (Finished a', s') -> Q a') ->
  forall a s a' s', P a -> for_outcome xs body a s = (Finished a', s') -> Q a'.
Proof.
  induction xs as [|x xs IH]; intros Hnd Hin HP HQ Hat a s a' s' Ha.
  - by apply elem_of_nil in Hin.
  - apply NoDup_cons in Hnd as [Hx Hnd].
    cbn [for_outcome]. rewrite bind_eq.
    destruct (body x a s) as [[a1| |] s1] eqn:Hb; cbn [fst snd];
      [|by unfold ret|by unfold ret].
    destruct (decide (x = x0)) as [->|Hne].
    + apply (for_outcome_inv Q).
      * intros z b t b' t' Hz. apply HQ; [by right|]. intros ->. done.
      * by apply (Hat a s a1 s1).
    + apply elem_of_cons in Hin as [->|Hin]; [done|].
      apply IH; try done.
      * intros z b t b' t' Hz. apply HP. by right.
      * intros z b t b' t' Hz. apply HQ. by right.
      * apply (HP x a s a1 s1); [left|done|done|done].
Qed.

Lemma first_pass_phase {A : Type} (P Q : A -> Prop) (body : Z -> Z -> A -> Rand (outcome A))
    x0 y0 :
  0 <= x0 < LEVEL_SIZE -> 0 <= y0 < LEVEL_SIZE ->
  (forall y x a s a' s', 0 <= x < LEVEL_SIZE -> 0 <= y < LEVEL_SIZE ->
     (x <> x0 \/ y <> y0) -> P a -> body y x a s = (Finished a', s') -> P a') ->
  (forall y x a s a' s', 0 <= x < LEVEL_SIZE -> 0 <= y < LEVEL_SIZE ->
     (x <> x0 \/ y <> y0) -> Q a -> body y x a s = (Finished a', s') -> Q a') ->
  (forall a s a' s', P a -> body y0 x0 a s = (Finished a', s') -> Q a') ->
  forall a s a' s', P a ->
    for_outcome (seqZ 0 LEVEL_SIZE)
      (fun y => for_outcome (seqZ 0 LEVEL_SIZE) (body y)) a s = (Finished a', s') ->
    Q a'.
Proof.
  intros Hx0 Hy0 HP HQ Hat.
  apply (for_outcome_phase P Q _ (seqZ 0 LEVEL_SIZE) y0).
  - apply NoDup_seqZ.
  - apply elem_of_seqZ. lia.
  - intros y a s a' s' Hy%elem_of_seqZ Hne. apply (for_outcome_inv P).
    intros x b t b' t' Hx%elem_of_seqZ. apply HP; [lia|lia|by right].
  - intros y a s a' s' Hy%elem_of_seqZ Hne. apply (for_outcome_inv Q).
    intros x b t b' t' Hx%elem_of_seqZ. apply HQ; [lia|lia|by right].
  - apply (for_outcome_phase P Q _ (seqZ 0 LEVEL_SIZE) x0).
    + apply NoDup_seqZ.
    + apply elem_of_seqZ. lia.
    + intros x a s a' s' Hx%elem_of_seqZ Hne. apply HP; [lia|lia|by left].
    + intros x a s a' s' Hx%elem_of_seqZ Hne. apply HQ; [lia|lia|by left].
    + done.
Qed.

Lemma foldl_phase {A : Type} (P Q : A -> Prop) (f : A -> Z -> A) xs x0 :
  NoDup xs -> x0 ∈ xs ->
  (forall x a, x ∈ xs -> x <> x0 -> P a -> P (f a x)) ->
  (forall x a, x ∈ xs -> x <> x0 -> Q a -> Q (f a x)) ->
  (forall a, P a -> Q (f a x0)) ->
  forall a, P a -> Q (foldl f a xs).
Proof.
  induction xs as [|x xs IH]; intros Hnd Hin HP HQ Hat a Ha.
  - by apply elem_of_nil in Hin.
  - apply NoDup_cons in Hnd as [Hx Hnd]. cbn [foldl].
    destruct (decide (x = x0)) as [->|Hne].
    + apply (foldl_inv Q).
      * intros b z Hz. apply HQ; [by right|]. intros ->. done.
      * by apply Hat.
    + apply elem_of_cons in Hin as [->|Hin]; [done|].
      apply IH; try done.
      * intros z b Hz. apply HP. by right.
      * intros z b Hz. apply HQ. by right.
      * apply HP; [left|done|done].
Qed.

Lemma every_tile_phase {A : Type} (P Q : A -> Prop) (body : Z -> Z -> A -> A) x0 y0 :
  0 <= x0 < LEVEL_SIZE -> 0 <= y0 < LEVEL_SIZE ->
  (forall y x a, 0 <= x < LEVEL_SIZE -> 0 <= y < LEVEL_SIZE ->
     (x <> x0 \/ y <> y0) -> P a -> P (body y x a)) ->
  (forall y x a, 0 <= x < LEVEL_SIZE -> 0 <= y < LEVEL_SIZE ->
     (x <> x0 \/ y <> y0) -> Q a -> Q (body y x a)) ->
  (forall a, P a -> Q (body y0 x0 a)) ->
  forall a, P a -> Q (every_tile body a).
Proof.
  intros Hx0 Hy0 HP HQ Hat. unfold every_tile.
  apply (foldl_phase P Q _ (seqZ 0 LEVEL_SIZE) y0).
  - apply NoDup_seqZ.
  - apply elem_of_seqZ. lia.
  - intros y a Hy%elem_of_seqZ Hne. apply (foldl_inv P).
    intros b x Hx%elem_of_seqZ. apply HP; [lia|lia|by right].
  - intros y a Hy%elem_of_seqZ Hne. apply (foldl_inv Q).
    intros b x Hx%elem_of_seqZ. apply HQ; [lia|lia|by right].
  - apply (foldl_phase P Q _ (seqZ 0 LEVEL_SIZE) x0).
    + apply NoDup_seqZ.
    + apply elem_of_seqZ. lia.
    + intros x a Hx%elem_of_seqZ Hne. apply HP; [lia|lia|by left].
    + intros x a Hx%elem_of_seqZ Hne. apply HQ; [lia|lia|by left].
    + done.
Qed.

(** ** The step of the player *)

Lemma insert_lor_bit (l : list Z) (j i : nat) (n b : Z) :
  (j < length l)%nat -> 0 <= n -> 0 <= b ->
  Z.testbit (<[j := Z.lor (l !!! j) (BIT n)]> l !!! i) b =
    Z.testbit (l !!! i) b || (bool_decide (i = j) && (n =? b)).
Proof.
  intros Hj Hn Hb. case_bool_decide as E.
  - subst i. rewrite list_lookup_total_insert_eq by done. by rewrite testbit_lor_BIT.
  - rewrite list_lookup_total_insert_ne by done. by rewrite orb_false_r.
Qed.

Lemma insert_lxor_bit_ne (l : list Z) (j i : nat) (n b : Z) :
  0 <= n -> 0 <= b -> b <> n ->
  Z.testbit (<[j := Z.lxor (l !!! j) (BIT n)]> l !!! i) b = Z.testbit (l !!! i) b.
Proof.
  intros Hn Hb Hne. destruct (decide (j = i)) as [->|E].
  - by apply insert_lxor_other.
  - by rewrite list_lookup_total_insert_ne.
Qed.

Lemma move_enemy_effect (x y : Z) (g g' : game) seed seed' :
  move_enemy x y g seed = (Finished g', seed') ->
  (cell x y < 484)%nat -> length (updated_level g) = 484%nat ->
  gm_level g' = gm_level g /\ game_over g' = game_over g /\
  gold_collected g' = gold_collected g /\
  length (updated_level g') = 484%nat /\
  forall (i : nat) b, 0 <= b -> b <> ENEMY ->
    Z.testbit (updated_level g' !!! i) b = Z.testbit (updated_level g !!! i) b.
Proof.
  unfold move_enemy. rewrite bind_eq.
  destruct (step_to _ x y) as [nx ny].
  destruct (in_array nx ny) eqn:Harr; cbn [negb]; [|by unfold ret].
  apply in_array_lt in Harr. cbv zeta.
  destruct (_ =? 0); unfold ret; intros [= <- _] Hi Hlen;
    cbn [gm_level updated_level game_over gold_collected];
    (split; [done|]; split; [done|]; split; [done|];
     split; [by rewrite length_insert|]);
    intros i b Hb Hne; rewrite insert_lor_bit by (done || lia);
    (replace (ENEMY =? b) with false by (symmetry; apply Z.eqb_neq; lia));
    by rewrite andb_false_r, orb_false_r.
Qed.

Lemma move_player_effect (direction x y : Z) (g g' : game) :
  move_player direction x y g = Finished g' ->
  (cell x y < 484)%nat -> length (updated_level g) = 484%nat ->
  (forall i : nat, (i < 484)%nat ->
     Z.testbit (updated_level g' !!! i) PLAYER =
     Z.testbit (updated_level g !!! i) PLAYER
     || bool_decide (i = player_target (gm_level g) direction x y)) /\
  game_over g' = game_over g || step_ends_game (gm_level g) direction x y /\
  gold_collected g' =
    gold_collected g + (if step_collects_gold (gm_level g) direction x y then 1 else 0).
Proof.
  unfold move_player, player_target, step_ends_game, step_collects_gold. cbv zeta.
  rewrite (bit_test _ ENEMY) by done.
  intros Hrun Hi Hlen.
  set (killed := if Z.testbit (updated_level g !!! cell x y) ENEMY then _ else _) in Hrun.
  assert (Hk : length (fst killed) = 484%nat /\
               forall i : nat, Z.testbit (fst killed !!! i) PLAYER
                               = Z.testbit (updated_level g !!! i) PLAYER).
  { unfold killed. destruct (Z.testbit (updated_level g !!! cell x y) ENEMY); cbn [fst];
      [|done]. split; [by rewrite length_insert|].
    intros i. by apply insert_lxor_bit_ne. }
  destruct killed as [updated k]. cbn [fst] in Hk. destruct Hk as [Hulen Hu].
  destruct (step_to direction x y) as [nx ny].
  destruct (in_array nx ny) eqn:Harr; cbn [negb] in Hrun; [|done].
  apply in_array_lt in Harr.
  rewrite solid_test, !bit_test in Hrun by done.
  destruct (Z.testbit (gm_level g !!! cell nx ny) WALL) eqn:Hw; cbn [negb andb] in *.
  - injection Hrun as <-. cbn [updated_level game_over gold_collected].
    split; [|split; [by rewrite orb_false_r|lia]].
    intros i Hi'. rewrite insert_lor_bit by (done || lia).
    by rewrite Hu, Z.eqb_refl, andb_true_r.
  - set (new_tile := gm_level g !!! cell nx ny) in *.
    assert (Hgo : exists level killed',
              g' = Game level
                     (<[cell nx ny := Z.lor (updated !!! cell nx ny) (BIT PLAYER)]> updated)
                     (gold_collected g + (if Z.testbit new_tile GOLD then 1 else 0))
                     killed' (key_has_been_collected g)
                     (if Z.testbit new_tile SPIKES then true
                      else if Z.testbit new_tile EXIT && (Z.land new_tile (BIT LOCK) =? 0)
                           then true else game_over g)).
    { destruct (Z.testbit new_tile GOLD), (Z.testbit new_tile KEY),
        (Z.testbit new_tile ENEMY); injection Hrun as <-;
        eexists _, _; f_equal; lia. }
    destruct Hgo as (level & killed' & ->).
    cbn [updated_level game_over gold_collected].
    split; [|split; [|done]].
    + intros i Hi'. rewrite insert_lor_bit by (done || lia).
      by rewrite Hu, Z.eqb_refl, andb_true_r.
    + assert (Hlock : (Z.land new_tile (BIT LOCK) =? 0) = negb (Z.testbit new_tile LOCK)).
      { rewrite <- (bit_test new_tile LOCK) by done. by rewrite negb_involutive. }
      rewrite Hlock.
      destruct (Z.testbit new_tile SPIKES), (Z.testbit new_tile EXIT),
        (Z.testbit new_tile LOCK), (game_over g); done.
Qed.

(** ** The step of the only player *)

Lemma update_tile_other (direction y x : Z) (g g' : game) seed seed' :
  Z.testbit (gm_level g !!! cell x y) PLAYER = false ->
  update_tile direction y x g seed = (Finished g', seed') ->
  (cell x y < 484)%nat -> length (updated_level g) = 484%nat ->
  gm_level g' = gm_level g /\ game_over g' = game_over g /\
  gold_collected g' = gold_collected g /\
  length (updated_level g') = 484%nat /\
  forall (i : nat) b, 0 <= b -> b <> ENEMY ->
    Z.testbit (updated_level g' !!! i) b = Z.testbit (updated_level g !!! i) b.
Proof.
  intros Hp. unfold update_tile. cbv zeta. rewrite bind_eq, !bit_test by done.
  rewrite Hp. intros Hrun Hi Hlen.
  destruct (Z.testbit (gm_level g !!! cell x y) ENEMY).
  - destruct (move_enemy x y g seed) as [[g1| |] s1] eqn:Hmove; cbn [fst snd] in Hrun;
      unfold ret in Hrun; [|done|done].
    injection Hrun as <- _. by apply (move_enemy_effect x y g g1 seed s1).
  - cbn [ret fst snd] in Hrun. unfold ret in Hrun. by injection Hrun as <- _.
Qed.

Lemma update_tile_player (direction y x : Z) (g g' : game) seed seed' :
  Z.testbit (gm_level g !!! cell x y) PLAYER = true ->
  update_tile direction y x g seed = (Finished g', seed') ->
  exists g1 s1,
    (g1 = g \/ move_enemy x y g seed = (Finished g1, s1)) /\
    (Z.testbit (gm_level g !!! cell x y) ENEMY = true \/ g1 = g) /\
    move_player direction x y g1 = Finished g'.
Proof.
  intros Hp. unfold update_tile. cbv zeta. rewrite bind_eq, !bit_test by done.
  rewrite Hp. intros Hrun.
  destruct (Z.testbit (gm_level g !!! cell x y) ENEMY).
  - destruct (move_enemy x y g seed) as [[g1| |] s1] eqn:Hmove; cbn [fst snd] in Hrun;
      unfold ret in Hrun; [|done|done].
    injection Hrun as Hrun _. exists g1, s1. split; [by right|]. split; [by left|done].
  - cbn [ret fst snd] in Hrun. unfold ret in Hrun. injection Hrun as Hrun _.
    exists g, seed. split; [by left|]. split; [by right|done].
Qed.

Lemma first_pass_single (level0 : list Z) (direction x0 y0 gold killed : Z) (g g' : game)
    seed seed' :
  0 <= x0 < LEVEL_SIZE -> 0 <= y0 < LEVEL_SIZE ->
  only_player level0 (cell x0 y0) ->
  for_outcome (seqZ 0 LEVEL_SIZE)
    (fun y => for_outcome (seqZ 0 LEVEL_SIZE) (update_tile direction y)) g seed
    = (Finished g', seed') ->
  before_player level0 gold g ->
  after_player level0 direction x0 y0 gold g'.
Proof.
  intros Hx0 Hy0 Hone Hrun Hg.
  assert (Hother : forall x y, 0 <= x < LEVEL_SIZE -> 0 <= y < LEVEL_SIZE ->
            x <> x0 \/ y <> y0 -> Z.testbit (level0 !!! cell x y) PLAYER = false).
  { intros x y Hx Hy Hne. rewrite Hone by (by apply cell_range).
    apply bool_decide_eq_false_2. unfold cell, LEVEL_SIZE in *. lia. }
  refine (first_pass_phase (before_player level0 gold)
            (after_player level0 direction x0 y0 gold)
            (update_tile direction) x0 y0 Hx0 Hy0 _ _ _ g seed g' seed' Hg Hrun).
  - intros y x a s a' s' Hx Hy Hne (Hpl & Hl & Hnone & Hover & Hgold) Htile.
    assert (Hi := cell_range x y Hx Hy).
    assert (Hp : Z.testbit (gm_level a !!! cell x y) PLAYER = false)
      by (rewrite Hl; by apply Hother).
    destruct (update_tile_other direction y x a a' s s' Hp Htile Hi
                (pl_updated_len _ _ _ Hpl)) as (Hl' & Ho' & Hg' & _ & Hu').
    assert (Hinv : first_pass_inv level0 gold killed a').
    { apply (update_tile_inv level0 gold killed direction y x a a' s s'); try done.
      split; [done|]. intros Hno. exfalso.
      assert (H := Hone (cell x0 y0) (cell_range x0 y0 Hx0 Hy0)).
      rewrite Hno in H by (by apply cell_range). by rewrite bool_decide_eq_true_2 in H. }
    split; [apply Hinv|]. split; [congruence|]. split; [|split; congruence].
    intros i Hi'. rewrite Hu' by done. by apply Hnone.
  - intros y x a s a' s' Hx Hy Hne (Hpl & Hpos & Hover & Hgold) Htile.
    assert (Hi := cell_range x y Hx Hy).
    assert (Hp : Z.testbit (gm_level a !!! cell x y) PLAYER = false).
    { rewrite (pl_level_fixed _ _ _ Hpl) by done. by apply Hother. }
    destruct (update_tile_other direction y x a a' s s' Hp Htile Hi
                (pl_updated_len _ _ _ Hpl)) as (Hl' & Ho' & Hg' & _ & Hu').
    assert (Hinv : first_pass_inv level0 gold killed a').
    { apply (update_tile_inv level0 gold killed direction y x a a' s s'); try done.
      split; [done|]. intros Hno. exfalso.
      assert (H := Hone (cell x0 y0) (cell_range x0 y0 Hx0 Hy0)).
      rewrite Hno in H by (by apply cell_range). by rewrite bool_decide_eq_true_2 in H. }
    split; [apply Hinv|]. split; [|split; congruence].
    intros i Hi'. rewrite Hu' by done. by apply Hpos.
  - intros a s a' s' (Hpl & Hl & Hnone & Hover & Hgold) Htile.
    assert (Hi := cell_range x0 y0 Hx0 Hy0).
    assert (Hp : Z.testbit (gm_level a !!! cell x0 y0) PLAYER = true).
    { rewrite Hl, Hone by done. by apply bool_decide_eq_true_2. }
    assert (Hinv : first_pass_inv level0 gold killed a').
    { apply (update_tile_inv level0 gold killed direction y0 x0 a a' s s'); try done.
      split; [done|]. intros Hno. exfalso. rewrite Hl, Hno in Hp by done. done. }
    destruct (update_tile_player direction y0 x0 a a' s s' Hp Htile)
      as (g1 & s1 & Hg1 & _ & Hmove).
    assert (H1 : gm_level g1 = level0 /\ game_over g1 = false /\
                 gold_collected g1 = gold /\ length (updated_level g1) = 484%nat /\
                 forall i : nat, (i < 484)%nat ->
                   Z.testbit (updated_level g1 !!! i) PLAYER = false).
    { destruct Hg1 as [->|Hen].
      - split; [done|]. split; [done|]. split; [done|].
        split; [apply (pl_updated_len _ _ _ Hpl)|done].
      - destruct (move_enemy_effect x0 y0 a g1 s s1 Hen Hi (pl_updated_len _ _ _ Hpl))
          as (El & Eo & Eg & Elen & Eu).
        split; [congruence|]. split; [congruence|]. split; [congruence|].
        split; [done|]. intros i Hi'. rewrite Eu by done. by apply Hnone. }
    destruct H1 as (Hl1 & Ho1 & Hgo1 & Hlen1 & Hnone1).
    destruct (move_player_effect direction x0 y0 g1 a' Hmove Hi Hlen1)
      as (Hpos & Hover' & Hgold').
    rewrite Hl1 in Hpos, Hover', Hgold'.
    split; [apply Hinv|]. split; [|split].
    + intros i Hi'. rewrite Hpos by done. by rewrite Hnone1.
    + by rewrite Hover', Ho1.
    + by rewrite Hgold', Hgo1.
Qed.

(** ** The later passes, tile by tile *)

Lemma insert_lor_bit_ne (l : list Z) (j i : nat) (n b : Z) :
  0 <= n -> 0 <= b -> b <> n ->
  Z.testbit (<[j := Z.lor (l !!! j) (BIT n)]> l !!! i) b = Z.testbit (l !!! i) b.
Proof.
  intros Hn Hb Hne. destruct (decide (j < length l)%nat).
  - rewrite insert_lor_bit by done.
    replace (n =? b) with false by (symmetry; apply Z.eqb_neq; lia).
    by rewrite andb_false_r, orb_false_r.
  - by rewrite list_insert_ge by lia.
Qed.

Lemma collect_tile_keys (level1 updated1 : list Z) (g : game) y x :
  collecting_keys level1 updated1 g ->
  0 <= x < LEVEL_SIZE -> 0 <= y < LEVEL_SIZE ->
  collecting_keys level1 updated1 (collect_tile y x g) /\
  (key_has_been_collected g = false -> key_has_been_collected (collect_tile y x g) = false) /\
  (forall i : nat, Z.testbit (updated_level g !!! i) KEY = true ->
     Z.testbit (updated_level (collect_tile y x g) !!! i) KEY = true) /\
  (Z.testbit (level1 !!! cell x y) KEY = true ->
   key_has_been_collected (collect_tile y x g) = false /\
   Z.testbit (updated_level (collect_tile y x g) !!! cell x y) KEY = true).
Proof.
  intros (Hl & Hlen & Hsame & Hflag) Hx Hy. assert (Hi := cell_range x y Hx Hy).
  unfold collecting_keys, collect_tile. cbv zeta. rewrite !bit_test by done. rewrite Hl.
  set (u := if Z.testbit (level1 !!! cell x y) GOLD then _ else _).
  assert (Hu : length u = 484%nat /\
               (forall (i : nat) b, 0 <= b -> b <> GOLD ->
                  Z.testbit (u !!! i) b = Z.testbit (updated_level g !!! i) b)).
  { unfold u. destruct (Z.testbit (level1 !!! cell x y) GOLD); [|done].
    split; [by rewrite length_insert|]. intros i b Hb Hne. by apply insert_lor_bit_ne. }
  clearbody u.
  destruct Hu as [Hulen Hu].
  destruct (Z.testbit (level1 !!! cell x y) KEY) eqn:Hk;
    cbn [gm_level updated_level key_has_been_collected].
  - split; [|split; [done|split]].
    + split; [done|]. split; [by rewrite length_insert|]. split.
      * intros i b Hb Hg Hky. rewrite insert_lor_bit_ne by done.
        rewrite Hu by done. by apply Hsame.
      * intros _. by exists (cell x y).
    + intros i Hset. rewrite insert_lor_bit by (done || lia).
      rewrite Hu by done. by rewrite Hset.
    + intros _. split; [done|]. rewrite insert_lor_bit by (done || lia).
      rewrite bool_decide_eq_true_2 by done. by rewrite Z.eqb_refl, orb_true_r.
  - split; [|split; [done|split; [|done]]].
    + split; [done|]. split; [done|]. split; [|done].
      intros i b Hb Hg Hky. rewrite Hu by done. by apply Hsame.
    + intros i Hset. by rewrite Hu.
Qed.

Lemma second_pass_keys (level1 updated1 : list Z) (g : game) :
  collecting_keys level1 updated1 g ->
  collecting_keys level1 updated1 (every_tile collect_tile g).
Proof.
  intros Hg. apply every_tile_inv; [|done].
  intros y x a Hx Hy Ha. by apply collect_tile_keys.
Qed.

Lemma second_pass_key_met (level1 updated1 : list Z) (g : game) x y :
  0 <= x < LEVEL_SIZE -> 0 <= y < LEVEL_SIZE ->
  Z.testbit (level1 !!! cell x y) KEY = true ->
  collecting_keys level1 updated1 g ->
  key_met level1 updated1 x y (every_tile collect_tile g).
Proof.
  intros Hx Hy Hk Hg.
  apply (every_tile_phase (collecting_keys level1 updated1)
           (key_met level1 updated1 x y) collect_tile x y Hx Hy); [| | |done].
  - intros b a c Ha Hb _ Hc. by apply collect_tile_keys.
  - intros b a c Ha Hb _ (Hc & Hf & Hs).
    destruct (collect_tile_keys level1 updated1 c b a Hc Ha Hb) as (H1 & H2 & H3 & _).
    split; [done|]. split; [by apply H2|by apply H3].
  - intros a Ha.
    destruct (collect_tile_keys level1 updated1 a y x Ha Hx Hy) as (H1 & _ & _ & H4).
    split; [done|]. by apply H4.
Qed.

Lemma lock_tile_locking (level1 : list Z) (g2 g : game) y x :
  locking level1 g2 g ->
  0 <= x < LEVEL_SIZE -> 0 <= y < LEVEL_SIZE ->
  locking level1 g2 (lock_tile y x g) /\
  (forall i : nat, Z.testbit (updated_level g !!! i) LOCK = true ->
     Z.testbit (updated_level (lock_tile y x g) !!! i) LOCK = true) /\
  (Z.testbit (level1 !!! cell x y) LOCK = true -> key_has_been_collected g2 = false ->
   Z.testbit (updated_level (lock_tile y x g) !!! cell x y) LOCK = true).
Proof.
  intros (Hl & Hlen & Hf & Hsame & Hsound) Hx Hy. assert (Hi := cell_range x y Hx Hy).
  unfold locking, lock_tile. cbv zeta. rewrite !bit_test by done. rewrite Hl, Hf.
  destruct (Z.testbit (level1 !!! cell x y) LOCK) eqn:Hk; cbn [andb].
  - destruct (key_has_been_collected g2) eqn:Hc; cbn [negb].
    + split; [by split|]. split; [done|]. done.
    + cbn [gm_level updated_level key_has_been_collected].
      split; [|split].
      * split; [done|]. split; [by rewrite length_insert|]. split; [done|]. split.
        -- intros i b Hb Hne. rewrite insert_lor_bit_ne by done. by apply Hsame.
        -- intros i Hi'. rewrite insert_lor_bit by (done || lia).
           intros [H|[H _]%andb_true_iff]%orb_true_iff; [by apply Hsound|].
           apply bool_decide_eq_true_1 in H. subst i. by right.
      * intros i Hset. rewrite insert_lor_bit by (done || lia). by rewrite Hset.
      * intros _ _. rewrite insert_lor_bit by (done || lia).
        rewrite bool_decide_eq_true_2 by done. by rewrite Z.eqb_refl, orb_true_r.
  - split; [by split|]. split; [done|]. done.
Qed.

Lemma last_pass_locking (level1 : list Z) (g2 : game) :
  gm_level g2 = level1 -> length (updated_level g2) = 484%nat ->
  locking level1 g2 (every_tile lock_tile g2).
Proof.
  intros Hl Hlen. apply every_tile_inv.
  - intros y x a Hx Hy Ha. by apply lock_tile_locking.
  - split; [done|]. split; [done|]. split; [done|]. split; [done|].
    intros i Hi Hset. by left.
Qed.

Lemma last_pass_locked (level1 : list Z) (g2 : game) x y :
  0 <= x < LEVEL_SIZE -> 0 <= y < LEVEL_SIZE ->
  gm_level g2 = level1 -> length (updated_level g2) = 484%nat ->
  Z.testbit (level1 !!! cell x y) LOCK = true -> key_has_been_collected g2 = false ->
  Z.testbit (updated_level (every_tile lock_tile g2) !!! cell x y) LOCK = true.
Proof.
  intros Hx Hy Hl Hlen Hk Hf.
  assert (H : (fun g => locking level1 g2 g /\
                        Z.testbit (updated_level g !!! cell x y) LOCK = true)
                (every_tile lock_tile g2)); [|apply H].
  apply (every_tile_phase (locking level1 g2)
           (fun g => locking level1 g2 g /\
                     Z.testbit (updated_level g !!! cell x y) LOCK = true)
           lock_tile x y Hx Hy).
  - intros b a c Ha Hb _ Hc. by apply lock_tile_locking.
  - intros b a c Ha Hb _ [Hc Hs].
    destruct (lock_tile_locking level1 g2 c b a Hc Ha Hb) as (H1 & H2 & _).
    split; [done|by apply H2].
  - intros a Ha.
    destruct (lock_tile_locking level1 g2 a y x Ha Hx Hy) as (H1 & _ & H3).
    split; [done|by apply H3].
  - split; [done|]. split; [done|]. split; [done|]. split; [done|].
    intros i Hi Hset. by left.
Qed.

(** The flag is not written during the first pass. *)
Lemma move_enemy_flag x y (g g1 : game) seed s1 :
  move_enemy x y g seed = (Finished g1, s1) ->
  key_has_been_collected g1 = key_has_been_collected g.
Proof.
  unfold move_enemy. rewrite bind_eq.
  destruct (step_to _ x y) as [nx ny].
  destruct (in_array nx ny); cbn [negb]; [|by unfold ret].
  unfold ret. by intros [= <- _].
Qed.

Lemma move_player_flag direction x y (g1 g2 : game) :
  move_player direction x y g1 = Finished g2 ->
  key_has_been_collected g2 = key_has_been_collected g1.
Proof.
  unfold move_player. cbv zeta.
  destruct (negb (Z.land (updated_level g1 !!! cell x y) (BIT ENEMY) =? 0));
    destruct (step_to direction x y) as [nx ny];
    (destruct (in_array nx ny); cbn [negb]; [|done]);
    (destruct (Z.land (gm_level g1 !!! cell nx ny) SOLID_ENTITIES =? 0);
     [|by intros [= <-]]);
    destruct (negb (Z.land (gm_level g1 !!! cell nx ny) (BIT GOLD) =? 0));
    destruct (negb (Z.land (gm_level g1 !!! cell nx ny) (BIT KEY) =? 0));
    destruct (negb (Z.land (gm_level g1 !!! cell nx ny) (BIT ENEMY) =? 0));
    by intros [= <-].
Qed.

Lemma first_pass_flag direction (g g' : game) seed seed' :
  for_outcome (seqZ 0 LEVEL_SIZE)
    (fun y => for_outcome (seqZ 0 LEVEL_SIZE) (update_tile direction y)) g seed
    = (Finished g', seed') ->
  key_has_been_collected g' = key_has_been_collected g.
Proof.
  intros Hrun.
  refine (for_outcome_inv
            (fun a => key_has_been_collected a = key_has_been_collected g)
            _ _ _ g seed g' seed' eq_refl Hrun).
  intros y a s a' s' _ Ha Hrow.
  refine (for_outcome_inv
            (fun a => key_has_been_collected a = key_has_been_collected g)
            _ _ _ a s a' s' Ha Hrow).
  intros x b t b' t' _ Hb. unfold update_tile. cbv zeta. rewrite bind_eq.
  destruct (negb (Z.land (gm_level b !!! cell x y) (BIT ENEMY) =? 0)).
  - destruct (move_enemy x y b t) as [[g1| |] s1] eqn:Hmove; cbn [fst snd];
      [|by unfold ret|by unfold ret].
    apply move_enemy_flag in Hmove.
    destruct (negb (Z.land (gm_level b !!! cell x y) (BIT PLAYER) =? 0)); unfold ret.
    + intros [= Hp _]. apply move_player_flag in Hp. congruence.
    + intros [= <- _]. congruence.
  - cbn [ret fst snd].
    destruct (negb (Z.land (gm_level b !!! cell x y) (BIT PLAYER) =? 0)); unfold ret.
    + intros [= Hp _]. apply move_player_flag in Hp. congruence.
    + intros [= <- _]. congruence.
Qed.

(** ** The whole step *)

Lemma update_level_run (level : list Z) direction gold killed seed
    level' over gold' killed' seed' :
  level_wf level ->
  update_level level direction gold killed seed
    = (Finished (level', over, gold', killed'), seed') ->
  exists (g1 : game) (s1 : Seed),
    for_outcome (seqZ 0 LEVEL_SIZE)
      (fun y => for_outcome (seqZ 0 LEVEL_SIZE) (update_tile direction y))
      (Game level (static_level level) gold killed true false) seed = (Finished g1, s1) /\
    playing level (gm_level g1) (updated_level g1) /\
    key_has_been_collected g1 = true /\
    level' = updated_level (every_tile lock_tile (every_tile collect_tile g1)) /\
    over = game_over g1 /\ gold' = gold_collected g1 /\ killed' = enemies_killed g1.
Proof.
  intros Hwf. unfold update_level. cbv zeta. rewrite bind_eq.
  set (g0 := Game level (static_level level) gold killed true false).
  destruct (for_outcome _ _ g0 seed) as [[g1| |] s1] eqn:Hpass; cbn [fst snd];
    [|by unfold ret|by unfold ret].
  assert (H1 : first_pass_inv level gold killed g1).
  { apply (first_pass_holds level gold killed direction g0 g1 seed s1 Hpass).
    split; [by apply playing_start|]. by intros _. }
  destruct H1 as [Hpl _].
  assert (H2 : later_pass_inv level (gm_level g1) g1 (every_tile collect_tile g1)).
  { apply every_tile_inv; [intros; by apply collect_tile_inv|].
    split; [by apply collecting_start|done]. }
  assert (H3 : later_pass_inv level (gm_level g1) g1
                 (every_tile lock_tile (every_tile collect_tile g1))).
  { apply every_tile_inv; [intros; by apply lock_tile_inv|done]. }
  set (g3 := every_tile lock_tile (every_tile collect_tile g1)) in *.
  destruct H3 as ([Hul Hst Hso Hkn Hke] & Hl3 & Ho3 & Hg3 & Hk3).
  unfold ret. intros Heq. apply finished_inj in Heq as (<- & <- & <- & <-).
  rewrite copy_level_eq; [|rewrite Hl3; apply (pl_level_len _ _ _ Hpl)|done].
  exists g1, s1. split; [done|]. split; [done|].
  split; [apply (first_pass_flag direction g0 g1 seed s1 Hpass)|]. done.
Qed.

Lemma later_passes (g1 : game) :
  length (updated_level g1) = 484%nat -> key_has_been_collected g1 = true ->
  collecting_keys (gm_level g1) (updated_level g1) (every_tile collect_tile g1) /\
  locking (gm_level g1) (every_tile collect_tile g1)
    (every_tile lock_tile (every_tile collect_tile g1)).
Proof.
  intros Hlen Hflag.
  assert (H2 : collecting_keys (gm_level g1) (updated_level g1) (every_tile collect_tile g1)).
  { apply second_pass_keys. split; [done|]. split; [done|]. split; [done|].
    intros Hf. congruence. }
  split; [done|]. destruct H2 as (Hl & Hlen2 & _). by apply last_pass_locking.
Qed.

Lemma update_level_single (level : list Z) direction x0 y0 gold killed seed
    level' over gold' killed' seed' :
  level_wf level -> in_level x0 y0 -> only_player level (cell x0 y0) ->
  update_level level direction gold killed seed
    = (Finished (level', over, gold', killed'), seed') ->
  (forall i : nat, (i < 484)%nat ->
     Z.testbit (level' !!! i) PLAYER = bool_decide (i = player_target level direction x0 y0)) /\
  over = step_ends_game level direction x0 y0 /\
  gold' = gold + (if step_collects_gold level direction x0 y0 then 1 else 0).
Proof.
  intros Hwf [Hx0 Hy0] Hone Hrun.
  destruct (update_level_run level direction gold killed seed level' over gold' killed'
              seed' Hwf Hrun) as (g1 & s1 & Hpass & Hpl & Hflag & -> & -> & -> & ->).
  assert (Hafter : after_player level direction x0 y0 gold g1).
  { apply (first_pass_single level direction x0 y0 gold killed _ g1 seed s1 Hx0 Hy0 Hone Hpass).
    split; [by apply playing_start|]. split; [done|]. split; [|done].
    intros i Hi. cbn [updated_level]. rewrite static_level_lookup, Z.land_spec by done.
    apply andb_false_r. }
  destruct Hafter as (_ & Hpos & Hover & Hgold).
  destruct (later_passes g1 (pl_updated_len _ _ _ Hpl) Hflag)
    as ((_ & _ & Hsame2 & _) & (_ & _ & _ & Hsame3 & _)).
  split; [|done]. intros i Hi.
  rewrite Hsame3, Hsame2 by done. by apply Hpos.
Qed.

Lemma update_level_lock_passes (level : list Z) direction gold killed seed
    level' over gold' killed' seed' :
  level_wf level ->
  update_level level direction gold killed seed
    = (Finished (level', over, gold', killed'), seed') ->
  ((exists j : nat, (j < 484)%nat /\ Z.testbit (level' !!! j) KEY = true) ->
   forall i : nat, (i < 484)%nat ->
     Z.testbit (level' !!! i) LOCK = Z.testbit (level !!! i) LOCK) /\
  ((forall j : nat, (j < 484)%nat -> Z.testbit (level' !!! j) KEY = false) ->
   forall i : nat, (i < 484)%nat -> Z.testbit (level' !!! i) LOCK = false).
Proof.
  intros Hwf Hrun.
  destruct (update_level_run level direction gold killed seed level' over gold' killed'
              seed' Hwf Hrun) as (g1 & s1 & Hpass & Hpl & Hflag & -> & _).
  destruct (later_passes g1 (pl_updated_len _ _ _ Hpl) Hflag) as (Hkeys & Hlock).
  set (g2 := every_tile collect_tile g1) in *.
  set (g3 := every_tile lock_tile g2) in *.
  assert (Hkeys' := Hkeys). destruct Hkeys' as (Hl2 & Hlen2 & Hsame2 & Hsound2).
  destruct Hlock as (Hl3 & Hlen3 & Hf3 & Hsame3 & Hsound3).
  assert (Hnolock2 : forall i : nat, (i < 484)%nat ->
            Z.testbit (updated_level g2 !!! i) LOCK = false).
  { intros i Hi. rewrite Hsame2 by done. apply not_true_is_false. intros Hset.
    destruct (pl_moving _ _ _ Hpl i LOCK Hi ltac:(done) Hset) as [Hs|[Hs|Hs]];
      unfold static_bit, LOCK, FLOOR, WALL, SPIKES, EXIT, ENEMY, PLAYER in *; lia. }
  assert (Hmet : forall i : nat, (i < 484)%nat ->
            Z.testbit (gm_level g1 !!! i) KEY = true ->
            key_has_been_collected g2 = false /\
            Z.testbit (updated_level g2 !!! i) KEY = true).
  { intros i Hi Hk. destruct (cell_coords i Hi) as [[Hx Hy] Hc].
    rewrite <- Hc in Hk.
    destruct (second_pass_key_met (gm_level g1) (updated_level g1) g1 _ _ Hx Hy Hk)
      as (_ & Hf & Hs).
    - split; [done|]. split; [apply (pl_updated_len _ _ _ Hpl)|]. split; [done|].
      intros Hfalse. congruence.
    - rewrite Hc in Hs. done. }
  assert (Hlocked : forall i : nat, (i < 484)%nat ->
            key_has_been_collected g2 = false ->
            Z.testbit (gm_level g1 !!! i) LOCK = true ->
            Z.testbit (updated_level g3 !!! i) LOCK = true).
  { intros i Hi Hf Hk. destruct (cell_coords i Hi) as [[Hx Hy] Hc].
    rewrite <- Hc in Hk |- *.
    by apply (last_pass_locked (gm_level g1) g2 _ _ Hx Hy). }
  assert (Hlevel : forall i : nat, (i < 484)%nat ->
            Z.testbit (gm_level g1 !!! i) LOCK = Z.testbit (level !!! i) LOCK)
    by (intros i Hi; by apply (pl_level_fixed _ _ _ Hpl)).
  assert (Hkept : forall i : nat, (i < 484)%nat ->
            Z.testbit (updated_level g2 !!! i) KEY = true ->
            Z.testbit (gm_level g1 !!! i) KEY = true).
  { intros i Hi Hset.
    assert (H2 : later_pass_inv level (gm_level g1) g1 g2).
    { apply every_tile_inv; [intros; by apply collect_tile_inv|].
      split; [by apply collecting_start|done]. }
    destruct H2 as (Hco & _). apply (co_kept _ _ _ Hco i KEY Hi); [by right; left|done]. }
  split.
  - intros (j & Hj & Hkey) i Hi.
    rewrite Hsame3 in Hkey by done.
    destruct (Hmet j Hj (Hkept j Hj Hkey)) as [Hf _].
    rewrite <- Hlevel by done.
    destruct (Z.testbit (gm_level g1 !!! i) LOCK) eqn:Hk; [by apply Hlocked|].
    apply not_true_is_false. intros Hset.
    destruct (Hsound3 i Hi Hset) as [H|[_ H]]; [|congruence].
    rewrite Hnolock2 in H by done. done.
  - intros Hnokey i Hi. apply not_true_is_false. intros Hset.
    destruct (Hsound3 i Hi Hset) as [H|[Hf _]].
    + rewrite Hnolock2 in H by done. done.
    + destruct (Hsound2 Hf) as (j & Hj & Hk).
      destruct (Hmet j Hj Hk) as [_ Hs].
      specialize (Hnokey j Hj). rewrite Hsame3 in Hnokey by done. congruence.
Qed.

(** ** Evaluations for the sample runs *)

Lemma room_level_wf : level_wf room_level.
Proof. vm_compute. reflexivity. Qed.

Lemma room_level_no_player : no_player room_level.
Proof. apply find_player_None. vm_compute. reflexivity. Qed.

Lemma game_level_wf : level_wf game_level.
Proof. vm_compute. reflexivity. Qed.

Lemma sample_level_wf : level_wf sample_level.
Proof. vm_compute. reflexivity. Qed.

Lemma corridor_level_wf : level_wf corridor_level.
Proof. vm_compute. reflexivity. Qed.

Lemma walls_level_wf : level_wf (fill_level zero_level WALL).
Proof. vm_compute. reflexivity. Qed.

Lemma unplaced_check (level : list Z) :
  forallb (fun t => negb (has_bit EXIT t) && negb (has_bit LOCK t)
                    && negb (has_bit KEY t) && negb (has_bit PLAYER t)) level = true ->
  unplaced level.
Proof.
  intros Hall i. rewrite forallb_forall in Hall.
  destruct (decide (i < length level)%nat) as [Hi|Hi].
  - assert (Hin : In (level !!! i) level).
    { apply list_elem_of_In, list_elem_of_lookup. exists i.
      by apply list_lookup_lookup_total_lt. }
    apply Hall in Hin.
    apply andb_true_iff in Hin as [Hin Hp]. apply andb_true_iff in Hin as [Hin Hk].
    apply andb_true_iff in Hin as [He Hl].
    apply negb_true_iff in He, Hl, Hk, Hp. done.
  - rewrite list_lookup_total_alt, lookup_ge_None_2 by lia. vm_compute. done.
Qed.

Lemma only_player_check (level : list Z) (p : nat) :
  forallb (fun i => Bool.eqb (Z.testbit (level !!! i) PLAYER) (bool_decide (i = p)))
    (seq 0 484) = true ->
  only_player level p.
Proof.
  intros Hall i Hi. rewrite forallb_forall in Hall.
  apply eqb_prop, Hall, in_seq. lia.
Qed.

Lemma game_sample_run :
  update_level game_level RIGHT 0 0 corridor_seed
    = (Finished (game_sample_level, false, 1, 0), game_sample_seed).
Proof. vm_compute. reflexivity. Qed.

Lemma room_sample_run :
  update_level room_level RIGHT 0 0 corridor_seed
    = (Finished (room_level, false, 0, 0), corridor_seed).
Proof. vm_compute. reflexivity. Qed.

Lemma placer_sample_run :
  scatter_placer 64 room_level None corridor_seed
    = (Finished placer_sample_level, placer_sample_seed).
Proof. vm_compute. reflexivity. Qed.

Lemma rooms_sample_run :
  basic_room_generator 64 corridor_level corridor_seed
    = (Finished rooms_sample_level, rooms_sample_seed).
Proof. vm_compute. reflexivity. Qed.

Lemma digger_sample_run :
  digger_generator 64 (fill_level zero_level WALL) None corridor_seed
    = (Finished digger_sample_level, digger_sample_seed).
Proof. vm_compute. reflexivity. Qed.

Lemma corridor_scattered_eq :
  scatter_entities (float_lit 7 100) (float_lit 3 100) (float_lit 3 100)
    corridor_level corridor_seed = corridor_scattered.
Proof. vm_compute. reflexivity. Qed.

Lemma verified_sample_run :
  exists level seed,
    verified_scatter_placer 64 corridor_level None corridor_seed = (Finished level, seed).
Proof.
  pose (l1 := fst corridor_scattered). pose (s1 := snd corridor_scattered).
  pose (r2 := choose_floor 64 l1 s1).
  pose (l2 := <[cell 18 19 := Z.lor (l1 !!! cell 18 19) (Z.lor (BIT EXIT) (BIT LOCK))]> l1).
  pose (r3 := random_int_range 1 (LEVEL_SIZE - 1) (snd r2)).
  pose (r4 := random_int_range 1 (LEVEL_SIZE - 1) (snd r3)).
  pose (l3 := <[cell 7 13 := Z.lor (l2 !!! cell 7 13) (BIT KEY)]> l2).
  pose (r5 := random_int_range 1 (LEVEL_SIZE - 1) (snd r4)).
  pose (r6 := random_int_range 1 (LEVEL_SIZE - 1) (snd r5)).
  eexists _, _.
  apply (verified_scatter_placer_bare_floor 63 corridor_level l1 corridor_seed
           s1 (snd r2) (snd r3) (snd r4) (snd r5) (snd r6) 18 19 7 13 13 5).
  - rewrite corridor_scattered_eq. reflexivity.
  - vm_compute. reflexivity.
  - vm_compute. reflexivity.
  - vm_compute. reflexivity.
  - unfold in_level, LEVEL_SIZE. lia.
  - vm_compute. reflexivity.
  - vm_compute. reflexivity.
  - vm_compute. reflexivity.
  - unfold in_level, LEVEL_SIZE. lia.
  - vm_compute. reflexivity.
Qed.

(** ** Further properties of the code *)

(** X1. [find_player] returns the first tile, rows first, that holds the
    player, and nothing exactly when no tile of the level holds the
    player. *)
Theorem find_player_first_in_scan (level : Level) :
  (forall px py, find_player level = Some (px, py) <-> first_player level px py) /\
  (find_player level = None <-> no_player level).
Proof. split; [intros px py; apply find_player_Some|apply find_player_None]. Qed.



(** X3. [empty_level] leaves a level of the same size whose border tiles
    are bare walls and whose inner tiles are bare floor, whatever the level
    held. *)
Theorem empty_level_walled_room (level : Level) (x y : Z) :
  level_wf level -> in_level x y ->
  level_wf (empty_level level) /\
  empty_level level !!! cell x y =
    if (x =? 0) || (x =? LEVEL_SIZE - 1) || (y =? 0) || (y =? LEVEL_SIZE - 1)
    then BIT WALL else BIT FLOOR.
Proof.
  intros Hwf Hin. split; [|by apply empty_level_tiles].
  unfold level_wf. rewrite empty_level_any by done. apply empty_level_zero_length.
Qed.

Lemma empty_level_walled_room_witness :
  level_wf sample_level /\ in_level 21 7 /\
  level_wf (empty_level sample_level) /\
  empty_level sample_level !!! cell 21 7 =
    if (21 =? 0) || (21 =? LEVEL_SIZE - 1) || (7 =? 0) || (7 =? LEVEL_SIZE - 1)
    then BIT WALL else BIT FLOOR.
Proof.
  assert (Hin : in_level 21 7) by (unfold in_level, LEVEL_SIZE; lia).
  split; [exact sample_level_wf|]. split; [exact Hin|].
  exact (empty_level_walled_room sample_level 21 7 sample_level_wf Hin).
Defined.








(** X8. On a completable level [reverse_verified_scatter_generator]
    leaves each tile as it was or makes it a bare wall; a tile that holds
    the player is left as it was, no tile gains the player, and
    [find_player] finds the same tile as before. *)
Theorem scatter_refiner_tiles (level : Level) (seed : Seed) :
  level_wf level -> level_is_completable level = true ->
  level_wf (fst (reverse_verified_scatter_generator level seed)) /\
  (forall i : nat,
     fst (reverse_verified_scatter_generator level seed) !!! i = level !!! i \/
     fst (reverse_verified_scatter_generator level seed) !!! i = BIT WALL) /\
  (forall i : nat,
     has_bit PLAYER (fst (reverse_verified_scatter_generator level seed) !!! i)
       = has_bit PLAYER (level !!! i) /\
     (has_bit PLAYER (level !!! i) = true ->
      fst (reverse_verified_scatter_generator level seed) !!! i = level !!! i)) /\
  find_player (fst (reverse_verified_scatter_generator level seed)) = find_player level.
Proof.
  intros Hwf Hc.
  destruct (reverse_verified_scatter_generator_inv level seed Hwf Hc)
    as [(Hlen & _ & Htiles) Hplayers].
  split; [done|]. split; [done|]. split; [done|].
  apply same_players_find_player. intros x y _. apply Hplayers.
Qed.

Lemma scatter_refiner_tiles_witness :
  level_wf sample_level /\ level_is_completable sample_level = true /\
  level_wf (fst (reverse_verified_scatter_generator sample_level corridor_seed)) /\
  (forall i : nat,
     fst (reverse_verified_scatter_generator sample_level corridor_seed) !!! i
       = sample_level !!! i \/
     fst (reverse_verified_scatter_generator sample_level corridor_seed) !!! i = BIT WALL) /\
  (forall i : nat,
     has_bit PLAYER (fst (reverse_verified_scatter_generator sample_level corridor_seed) !!! i)
       = has_bit PLAYER (sample_level !!! i) /\
     (has_bit PLAYER (sample_level !!! i) = true ->
      fst (reverse_verified_scatter_generator sample_level corridor_seed) !!! i
        = sample_level !!! i)) /\
  find_player (fst (reverse_verified_scatter_generator sample_level corridor_seed))
    = find_player sample_level.
Proof.
  split; [exact sample_level_wf|]. split; [exact sample_level_completable|].
  exact (scatter_refiner_tiles sample_level corridor_seed
           sample_level_wf sample_level_completable).
Defined.

(** X9. [reverse_verified_fill_generator] returns a completable level
    when it is given one; each tile is as it was or a bare wall, and the
    tiles of the border are as they were. *)
Theorem fill_refiner_keeps_completable (level : Level) :
  level_wf level -> level_is_completable level = true ->
  level_wf (reverse_verified_fill_generator level) /\
  level_is_completable (reverse_verified_fill_generator level) = true /\
  (forall i : nat,
     reverse_verified_fill_generator level !!! i = level !!! i \/
     reverse_verified_fill_generator level !!! i = BIT WALL) /\
  (forall x y, in_level x y ->
     x = 0 \/ x = LEVEL_SIZE - 1 \/ y = 0 \/ y = LEVEL_SIZE - 1 ->
     reverse_verified_fill_generator level !!! cell x y = level !!! cell x y).
Proof.
  intros Hwf Hc.
  destruct (reverse_verified_fill_generator_inv level Hwf Hc) as (Hlen & Hc' & Htiles).
  split; [done|]. split; [done|]. split; [done|]. apply fill_generator_border.
Qed.

Lemma fill_refiner_keeps_completable_witness :
  level_wf sample_level /\ level_is_completable sample_level = true /\
  level_wf (reverse_verified_fill_generator sample_level) /\
  level_is_completable (reverse_verified_fill_generator sample_level) = true /\
  (forall i : nat,
     reverse_verified_fill_generator sample_level !!! i = sample_level !!! i \/
     reverse_verified_fill_generator sample_level !!! i = BIT WALL) /\
  (forall x y, in_level x y ->
     x = 0 \/ x = LEVEL_SIZE - 1 \/ y = 0 \/ y = LEVEL_SIZE - 1 ->
     reverse_verified_fill_generator sample_level !!! cell x y = sample_level !!! cell x y).
Proof.
  split; [exact sample_level_wf|]. split; [exact sample_level_completable|].
  exact (fill_refiner_keeps_completable sample_level
           sample_level_wf sample_level_completable).
Defined.

(** X10. On a level without a player
    [reverse_entity_preserving_scatter_generator] returns in its first
    attempt, from inside the loops: the level it leaves is the level it was
    given with the wall bit added to the first tile drawn, and nothing else
    is drawn. *)
Theorem entity_refiner_without_player (uninit : Z) (level : Level) (seed : Seed) :
  level_wf level -> no_player level ->
  reverse_entity_preserving_scatter_generator uninit level seed =
    (let x := random_int_range 1 (LEVEL_SIZE - 2) seed in
     let y := random_int_range 1 (LEVEL_SIZE - 2) (snd x) in
     (<[cell (fst x) (fst y) := Z.lor (level !!! cell (fst x) (fst y)) (BIT WALL)]> level,
      snd y)).
Proof. apply entity_generator_no_player. Qed.

Lemma entity_refiner_without_player_witness :
  level_wf room_level /\ no_player room_level /\
  reverse_entity_preserving_scatter_generator 0 room_level corridor_seed =
    (let x := random_int_range 1 (LEVEL_SIZE - 2) corridor_seed in
     let y := random_int_range 1 (LEVEL_SIZE - 2) (snd x) in
     (<[cell (fst x) (fst y) := Z.lor (room_level !!! cell (fst x) (fst y)) (BIT WALL)]>
        room_level,
      snd y)).
Proof.
  split; [exact room_level_wf|]. split; [exact room_level_no_player|].
  exact (entity_refiner_without_player 0 room_level corridor_seed
           room_level_wf room_level_no_player).
Defined.

(** X11. The entity that [print_ascii_level] prints for a tile is the
    highest of the nine entities that the tile holds, and entity 0 (a
    space) when it holds none. *)
Theorem top_entity_is_highest (tile : Tile) :
  (top_entity tile = 0 /\
   forall b, 1 <= b <= ENTITY_TYPE_COUNT -> has_bit b tile = false) \/
  (1 <= top_entity tile <= ENTITY_TYPE_COUNT /\
   has_bit (top_entity tile) tile = true /\
   forall b, top_entity tile < b <= ENTITY_TYPE_COUNT -> has_bit b tile = false).
Proof. apply top_entity_highest. Qed.

(** X12. [print_ascii_level] writes 22 lines of 22 characters, each
    followed by a new line: the character at column [x] of line [y] is
    that of the top entity of the tile [x, y]. *)
Theorem print_ascii_level_layout (level : Level) (x y : Z) :
  0 <= x <= LEVEL_SIZE -> 0 <= y < LEVEL_SIZE ->
  length (print_ascii_level level) = 506%nat /\
  print_ascii_level level !!! Z.to_nat (x + y * (LEVEL_SIZE + 1)) =
    if x =? LEVEL_SIZE then "010"%char
    else entity_chars !!! Z.to_nat (top_entity (level !!! cell x y)).
Proof.
  intros Hx Hy. split; [apply print_ascii_level_length|by apply print_ascii_level_lookup].
Qed.

Lemma print_ascii_level_layout_witness :
  0 <= 5 <= LEVEL_SIZE /\ 0 <= 5 < LEVEL_SIZE /\
  length (print_ascii_level sample_level) = 506%nat /\
  print_ascii_level sample_level !!! Z.to_nat (5 + 5 * (LEVEL_SIZE + 1)) =
    if 5 =? LEVEL_SIZE then "010"%char
    else entity_chars !!! Z.to_nat (top_entity (sample_level !!! cell 5 5)).
Proof.
  assert (Hx : 0 <= 5 <= LEVEL_SIZE) by (unfold LEVEL_SIZE; lia).
  assert (Hy : 0 <= 5 < LEVEL_SIZE) by (unfold LEVEL_SIZE; lia).
  split; [exact Hx|]. split; [exact Hy|].
  exact (print_ascii_level_layout sample_level 5 5 Hx Hy).
Defined.

(** X13. [scatter_generator] leaves nothing but bare walls and bare
    floor, whatever the level held and whatever is drawn. *)
Theorem scatter_generator_walls_and_floor (level : Level) (seed : Seed) :
  level_wf level ->
  level_wf (fst (scatter_generator level seed)) /\
  Forall (fun t => t = BIT WALL \/ t = BIT FLOOR) (fst (scatter_generator level seed)).
Proof. apply scatter_generator_inv. Qed.

Lemma scatter_generator_walls_and_floor_witness :
  level_wf sample_level /\
  level_wf (fst (scatter_generator sample_level corridor_seed)) /\
  Forall (fun t => t = BIT WALL \/ t = BIT FLOOR)
    (fst (scatter_generator sample_level corridor_seed)).
Proof.
  split; [exact sample_level_wf|].
  exact (scatter_generator_walls_and_floor sample_level corridor_seed sample_level_wf).
Defined.

(** X14. When [scatter_placer] returns, the locked exit, the key and the
    player are on three different tiles that were bare floor, every other
    tile differs from the level given at most by the gold, the enemy or the
    spikes it has gained, and, when the level given held no exit, lock, key
    or player, there is exactly one tile with each (the exit under the
    lock). *)
Theorem scatter_placer_one_of_each (fuel : nat) (level : Level)
    (parameters : option (float * float * float)) (seed : Seed)
    (level' : Level) (seed' : Seed) :
  level_wf level ->
  scatter_placer fuel level parameters seed = (Finished level', seed') ->
  exists i j k : nat,
    ((i < 484)%nat /\ (j < 484)%nat /\ (k < 484)%nat) /\
    (i <> j /\ i <> k /\ j <> k) /\
    (level !!! i = BIT FLOOR /\ level !!! j = BIT FLOOR /\ level !!! k = BIT FLOOR) /\
    level' !!! i = Z.lor (Z.lor (BIT FLOOR) (BIT EXIT)) (BIT LOCK) /\
    level' !!! j = Z.lor (BIT FLOOR) (BIT KEY) /\
    level' !!! k = Z.lor (BIT FLOOR) (BIT PLAYER) /\
    (forall n : nat, n <> i -> n <> j -> n <> k ->
       scattered (level !!! n) (level' !!! n)) /\
    (unplaced level -> placed_once level' i j k).
Proof. apply scatter_placer_once. Qed.

Lemma scatter_placer_one_of_each_witness :
  level_wf room_level /\
  scatter_placer 64 room_level None corridor_seed
    = (Finished placer_sample_level, placer_sample_seed) /\
  exists i j k : nat,
    ((i < 484)%nat /\ (j < 484)%nat /\ (k < 484)%nat) /\
    (i <> j /\ i <> k /\ j <> k) /\
    (room_level !!! i = BIT FLOOR /\ room_level !!! j = BIT FLOOR /\
     room_level !!! k = BIT FLOOR) /\
    placer_sample_level !!! i = Z.lor (Z.lor (BIT FLOOR) (BIT EXIT)) (BIT LOCK) /\
    placer_sample_level !!! j = Z.lor (BIT FLOOR) (BIT KEY) /\
    placer_sample_level !!! k = Z.lor (BIT FLOOR) (BIT PLAYER) /\
    (forall n : nat, n <> i -> n <> j -> n <> k ->
       scattered (room_level !!! n) (placer_sample_level !!! n)) /\
    (unplaced room_level -> placed_once placer_sample_level i j k).
Proof.
  split; [exact room_level_wf|]. split; [exact placer_sample_run|].
  exact (scatter_placer_one_of_each 64 room_level None corridor_seed
           placer_sample_level placer_sample_seed room_level_wf placer_sample_run).
Defined.

(** X15. When [verified_scatter_placer] returns on a level that held no
    exit, lock, key or player, exactly one tile holds the exit, the same
    tile and no other holds the lock, exactly one tile holds the key and
    exactly one the player (not always three different tiles), and no tile
    has gained or lost floor or wall. *)
Theorem verified_scatter_placer_one_of_each (fuel : nat) (level : Level)
    (parameters : option (float * float * float)) (seed : Seed)
    (level' : Level) (seed' : Seed) :
  level_wf level -> unplaced level ->
  verified_scatter_placer fuel level parameters seed = (Finished level', seed') ->
  exists i j k : nat,
    ((i < 484)%nat /\ (j < 484)%nat /\ (k < 484)%nat) /\
    placed_once level' i j k /\
    forall n : nat,
      has_bit FLOOR (level' !!! n) = has_bit FLOOR (level !!! n) /\
      has_bit WALL (level' !!! n) = has_bit WALL (level !!! n).
Proof. apply verified_scatter_placer_once. Qed.

Lemma verified_scatter_placer_one_of_each_witness :
  level_wf corridor_level /\ unplaced corridor_level /\
  exists level' seed',
    verified_scatter_placer 64 corridor_level None corridor_seed = (Finished level', seed') /\
    exists i j k : nat,
      ((i < 484)%nat /\ (j < 484)%nat /\ (k < 484)%nat) /\
      placed_once level' i j k /\
      forall n : nat,
        has_bit FLOOR (level' !!! n) = has_bit FLOOR (corridor_level !!! n) /\
        has_bit WALL (level' !!! n) = has_bit WALL (corridor_level !!! n).
Proof.
  assert (Hun : unplaced corridor_level)
    by (apply unplaced_check; vm_compute; reflexivity).
  split; [exact corridor_level_wf|]. split; [exact Hun|].
  destruct verified_sample_run as (level' & seed' & Hrun).
  exists level', seed'. split; [exact Hrun|].
  exact (verified_scatter_placer_one_of_each 64 corridor_level None corridor_seed
           level' seed' corridor_level_wf Hun Hrun).
Defined.

(** X16. When [basic_room_generator] returns, the level has its size,
    each tile is as it was or bare floor, and the tiles of the border are
    as they were: the rooms stay inside the outer wall. *)
Theorem basic_room_generator_keeps_border (fuel : nat) (level : Level) (seed : Seed)
    (level' : Level) (seed' : Seed) :
  basic_room_generator fuel level seed = (Finished level', seed') ->
  length level' = length level /\
  (forall j : nat, level' !!! j = level !!! j \/ level' !!! j = BIT FLOOR) /\
  (forall x y, in_level x y ->
     x = 0 \/ x = LEVEL_SIZE - 1 \/ y = 0 \/ y = LEVEL_SIZE - 1 ->
     level' !!! cell x y = level !!! cell x y).
Proof.
  intros Hrun.
  destruct (basic_rooms_inv level fuel 8 level seed level' seed' Hrun) as [[Hlen Ht] Hb].
  { split; [apply dug_from_refl|done]. }
  split; [done|]. split; [done|].
  intros x y Hin Hborder. by apply Hb, outside_inner_border.
Qed.

Lemma basic_room_generator_keeps_border_witness :
  basic_room_generator 64 corridor_level corridor_seed
    = (Finished rooms_sample_level, rooms_sample_seed) /\
  length rooms_sample_level = length corridor_level /\
  (forall j : nat,
     rooms_sample_level !!! j = corridor_level !!! j \/
     rooms_sample_level !!! j = BIT FLOOR) /\
  (forall x y, in_level x y ->
     x = 0 \/ x = LEVEL_SIZE - 1 \/ y = 0 \/ y = LEVEL_SIZE - 1 ->
     rooms_sample_level !!! cell x y = corridor_level !!! cell x y).
Proof.
  split; [exact rooms_sample_run|].
  exact (basic_room_generator_keeps_border 64 corridor_level corridor_seed
           rooms_sample_level rooms_sample_seed rooms_sample_run).
Defined.

(** X17. When [digger_generator] returns, the level has its size and each
    tile is as it was or bare floor: the digger lays floor and nothing
    else. *)
Theorem digger_generator_lays_floor (fuel : nat) (level : Level)
    (parameters : option (float * float * float)) (seed : Seed)
    (level' : Level) (seed' : Seed) :
  digger_generator fuel level parameters seed = (Finished level', seed') ->
  length level' = length level /\
  forall j : nat, level' !!! j = level !!! j \/ level' !!! j = BIT FLOOR.
Proof.
  unfold digger_generator. cbv zeta.
  destruct (match parameters with Some (_, p1, p2) => _ | None => _ end) as [step portion].
  intros Hrun.
  apply (digger_iterations_inv level fuel step portion _ level level' seed seed' Hrun).
  apply dug_from_refl.
Qed.

Lemma digger_generator_lays_floor_witness :
  digger_generator 64 (fill_level zero_level WALL) None corridor_seed
    = (Finished digger_sample_level, digger_sample_seed) /\
  length digger_sample_level = length (fill_level zero_level WALL) /\
  forall j : nat,
    digger_sample_level !!! j = fill_level zero_level WALL !!! j \/
    digger_sample_level !!! j = BIT FLOOR.
Proof.
  split; [exact digger_sample_run|].
  exact (digger_generator_lays_floor 64 (fill_level zero_level WALL) None corridor_seed
           digger_sample_level digger_sample_seed digger_sample_run).
Defined.

(** X18. The flood that the editor starts with the visitor
    [verify_level] leaves each tile as it was or with the spikes bit
    added, and adds it only to tiles that hold floor; the number of steps
    it returns is between 0 and 484. *)
Theorem editor_flood_spikes (level : Level) (tx ty : Z) :
  (forall j : nat,
     fr_level (editor_flood level tx ty) !!! j = level !!! j \/
     (fr_level (editor_flood level tx ty) !!! j = Z.lor (level !!! j) (BIT SPIKES) /\
      Z.testbit (level !!! j) FLOOR = true)) /\
  0 <= fr_steps (editor_flood level tx ty) <= LEVEL_SIZE * LEVEL_SIZE /\
  length (fr_level (editor_flood level tx ty)) = length level.
Proof.
  destruct (editor_flood_inv level tx ty) as [Hs Hb]. split; [exact Hs|exact Hb].
Qed.

(** X19. [update_level] leaves the floor, the walls, the spikes and the
    exits where they were; the level it leaves has its size and its tiles
    hold entity bits only. *)
Theorem update_level_static (level : Level) (direction gold killed : Z) (seed : Seed)
    (level' : Level) (over : bool) (gold' killed' : Z) (seed' : Seed) :
  level_wf level ->
  update_level level direction gold killed seed
    = (Finished (level', over, gold', killed'), seed') ->
  level_wf level' /\
  (forall (i : nat) (b : Z), (i < 484)%nat ->
     b = FLOOR \/ b = WALL \/ b = SPIKES \/ b = EXIT ->
     Z.testbit (level' !!! i) b = Z.testbit (level !!! i) b) /\
  (forall (i : nat) (b : Z), (i < 484)%nat -> 0 <= b ->
     Z.testbit (level' !!! i) b = true -> 1 <= b <= ENTITY_TYPE_COUNT).
Proof.
  intros Hwf Hrun.
  destruct (update_level_inv level direction gold killed seed level' over gold' killed'
              seed' Hwf Hrun) as [[Hlen Hst Hso Hkn Hke] _].
  split; [exact Hlen|]. split; [exact Hst|exact Hkn].
Qed.

Lemma update_level_static_witness :
  level_wf game_level /\
  update_level game_level RIGHT 0 0 corridor_seed
    = (Finished (game_sample_level, false, 1, 0), game_sample_seed) /\
  level_wf game_sample_level /\
  (forall (i : nat) (b : Z), (i < 484)%nat ->
     b = FLOOR \/ b = WALL \/ b = SPIKES \/ b = EXIT ->
     Z.testbit (game_sample_level !!! i) b = Z.testbit (game_level !!! i) b) /\
  (forall (i : nat) (b : Z), (i < 484)%nat -> 0 <= b ->
     Z.testbit (game_sample_level !!! i) b = true -> 1 <= b <= ENTITY_TYPE_COUNT).
Proof.
  split; [exact game_level_wf|]. split; [exact game_sample_run|].
  exact (update_level_static game_level RIGHT 0 0 corridor_seed game_sample_level
           false 1 0 game_sample_seed game_level_wf game_sample_run).
Defined.

(** X20. [update_level] puts no player and no enemy on a wall: a tile
    that holds one after the step held no wall, or held that entity
    already. *)
Theorem update_level_walls_solid (level : Level) (direction gold killed : Z) (seed : Seed)
    (level' : Level) (over : bool) (gold' killed' : Z) (seed' : Seed)
    (i : nat) (b : Z) :
  level_wf level ->
  update_level level direction gold killed seed
    = (Finished (level', over, gold', killed'), seed') ->
  (i < 484)%nat -> b = ENEMY \/ b = PLAYER ->
  Z.testbit (level' !!! i) b = true ->
  Z.testbit (level !!! i) WALL = false \/ Z.testbit (level !!! i) b = true.
Proof.
  intros Hwf Hrun.
  destruct (update_level_inv level direction gold killed seed level' over gold' killed'
              seed' Hwf Hrun) as [[Hlen Hst Hso Hkn Hke] _].
  apply Hso.
Qed.

Lemma update_level_walls_solid_witness :
  level_wf game_level /\
  update_level game_level RIGHT 0 0 corridor_seed
    = (Finished (game_sample_level, false, 1, 0), game_sample_seed) /\
  (cell 6 5 < 484)%nat /\ (PLAYER = ENEMY \/ PLAYER = PLAYER) /\
  Z.testbit (game_sample_level !!! cell 6 5) PLAYER = true /\
  (Z.testbit (game_level !!! cell 6 5) WALL = false \/
   Z.testbit (game_level !!! cell 6 5) PLAYER = true).
Proof.
  assert (Hi : (cell 6 5 < 484)%nat) by (vm_compute; lia).
  assert (Hb : PLAYER = ENEMY \/ PLAYER = PLAYER) by (right; reflexivity).
  assert (Hp : Z.testbit (game_sample_level !!! cell 6 5) PLAYER = true)
    by (vm_compute; reflexivity).
  split; [exact game_level_wf|]. split; [exact game_sample_run|].
  split; [exact Hi|]. split; [exact Hb|]. split; [exact Hp|].
  exact (update_level_walls_solid game_level RIGHT 0 0 corridor_seed game_sample_level
           false 1 0 game_sample_seed (cell 6 5) PLAYER
           game_level_wf game_sample_run Hi Hb Hp).
Defined.

(** X21. [update_level] makes no gold, no key and no lock: a tile that
    holds one after the step held it before. *)
Theorem update_level_collectables (level : Level) (direction gold killed : Z) (seed : Seed)
    (level' : Level) (over : bool) (gold' killed' : Z) (seed' : Seed)
    (i : nat) (b : Z) :
  level_wf level ->
  update_level level direction gold killed seed
    = (Finished (level', over, gold', killed'), seed') ->
  (i < 484)%nat -> b = GOLD \/ b = KEY \/ b = LOCK ->
  Z.testbit (level' !!! i) b = true ->
  Z.testbit (level !!! i) b = true.
Proof.
  intros Hwf Hrun.
  destruct (update_level_inv level direction gold killed seed level' over gold' killed'
              seed' Hwf Hrun) as [[Hlen Hst Hso Hkn Hke] _].
  apply Hke.
Qed.

Lemma update_level_collectables_witness :
  level_wf game_level /\
  update_level game_level RIGHT 0 0 corridor_seed
    = (Finished (game_sample_level, false, 1, 0), game_sample_seed) /\
  (cell 7 9 < 484)%nat /\ (KEY = GOLD \/ KEY = KEY \/ KEY = LOCK) /\
  Z.testbit (game_sample_level !!! cell 7 9) KEY = true /\
  Z.testbit (game_level !!! cell 7 9) KEY = true.
Proof.
  assert (Hi : (cell 7 9 < 484)%nat) by (vm_compute; lia).
  assert (Hb : KEY = GOLD \/ KEY = KEY \/ KEY = LOCK) by (right; left; reflexivity).
  assert (Hp : Z.testbit (game_sample_level !!! cell 7 9) KEY = true)
    by (vm_compute; reflexivity).
  split; [exact game_level_wf|]. split; [exact game_sample_run|].
  split; [exact Hi|]. split; [exact Hb|]. split; [exact Hp|].
  exact (update_level_collectables game_level RIGHT 0 0 corridor_seed game_sample_level
           false 1 0 game_sample_seed (cell 7 9) KEY
           game_level_wf game_sample_run Hi Hb Hp).
Defined.

(** X22. On a level without a player [update_level] returns false (the
    game goes on) and leaves the counters of gold and of enemies killed as
    they were. *)
Theorem update_level_without_player (level : Level) (direction gold killed : Z)
    (seed : Seed) (level' : Level) (over : bool) (gold' killed' : Z) (seed' : Seed) :
  level_wf level -> no_player level ->
  update_level level direction gold killed seed
    = (Finished (level', over, gold', killed'), seed') ->
  over = false /\ gold' = gold /\ killed' = killed.
Proof.
  intros Hwf Hno Hrun.
  destruct (update_level_inv level direction gold killed seed level' over gold' killed'
              seed' Hwf Hrun) as [_ Hq].
  apply Hq. intros i Hi. rewrite <- has_bit_testbit by done. by apply no_player_index.
Qed.

Lemma update_level_without_player_witness :
  level_wf room_level /\ no_player room_level /\
  update_level room_level RIGHT 0 0 corridor_seed
    = (Finished (room_level, false, 0, 0), corridor_seed) /\
  false = false /\ 0 = 0 /\ 0 = 0.
Proof.
  split; [exact room_level_wf|]. split; [exact room_level_no_player|].
  split; [exact room_sample_run|].
  exact (update_level_without_player room_level RIGHT 0 0 corridor_seed room_level
           false 0 0 corridor_seed room_level_wf room_level_no_player room_sample_run).
Defined.

(** X23. With one player in the level, at [x, y], after [update_level]
    the player is on exactly one tile: the tile next to [x, y] in the
    direction given when that tile holds no wall, and [x, y] when it does
    (or when the direction is none of the four). *)
Theorem update_level_player_step (level : Level) (direction x y gold killed : Z)
    (seed : Seed) (level' : Level) (over : bool) (gold' killed' : Z) (seed' : Seed)
    (i : nat) :
  level_wf level -> in_level x y -> only_player level (cell x y) ->
  update_level level direction gold killed seed
    = (Finished (level', over, gold', killed'), seed') ->
  (i < 484)%nat ->
  Z.testbit (level' !!! i) PLAYER = bool_decide (i = player_target level direction x y).
Proof.
  intros Hwf Hin Hone Hrun.
  destruct (update_level_single level direction x y gold killed seed level' over gold'
              killed' seed' Hwf Hin Hone Hrun) as [Hpos _].
  apply Hpos.
Qed.

Lemma update_level_player_step_witness :
  level_wf game_level /\ in_level 5 5 /\ only_player game_level (cell 5 5) /\
  update_level game_level RIGHT 0 0 corridor_seed
    = (Finished (game_sample_level, false, 1, 0), game_sample_seed) /\
  (cell 6 5 < 484)%nat /\
  Z.testbit (game_sample_level !!! cell 6 5) PLAYER
    = bool_decide (cell 6 5 = player_target game_level RIGHT 5 5).
Proof.
  assert (Hin : in_level 5 5) by (unfold in_level, LEVEL_SIZE; lia).
  assert (Hone : only_player game_level (cell 5 5))
    by (apply only_player_check; vm_compute; reflexivity).
  assert (Hi : (cell 6 5 < 484)%nat) by (vm_compute; lia).
  split; [exact game_level_wf|]. split; [exact Hin|]. split; [exact Hone|].
  split; [exact game_sample_run|]. split; [exact Hi|].
  exact (update_level_player_step game_level RIGHT 5 5 0 0 corridor_seed game_sample_level
           false 1 0 game_sample_seed (cell 6 5)
           game_level_wf Hin Hone game_sample_run Hi).
Defined.

(** X24. With one player in the level, at [x, y], [update_level] returns
    true exactly when the tile the player heads for holds no wall and holds
    spikes or an exit without a lock, and the counter of gold goes up by
    one exactly when that tile holds no wall and holds gold. *)
Theorem update_level_step_result (level : Level) (direction x y gold killed : Z)
    (seed : Seed) (level' : Level) (over : bool) (gold' killed' : Z) (seed' : Seed) :
  level_wf level -> in_level x y -> only_player level (cell x y) ->
  update_level level direction gold killed seed
    = (Finished (level', over, gold', killed'), seed') ->
  over = step_ends_game level direction x y /\
  gold' = gold + (if step_collects_gold level direction x y then 1 else 0).
Proof.
  intros Hwf Hin Hone Hrun.
  destruct (update_level_single level direction x y gold killed seed level' over gold'
              killed' seed' Hwf Hin Hone Hrun) as [_ Hres].
  exact Hres.
Qed.

Lemma update_level_step_result_witness :
  level_wf game_level /\ in_level 5 5 /\ only_player game_level (cell 5 5) /\
  update_level game_level RIGHT 0 0 corridor_seed
    = (Finished (game_sample_level, false, 1, 0), game_sample_seed) /\
  false = step_ends_game game_level RIGHT 5 5 /\
  1 = 0 + (if step_collects_gold game_level RIGHT 5 5 then 1 else 0).
Proof.
  assert (Hin : in_level 5 5) by (unfold in_level, LEVEL_SIZE; lia).
  assert (Hone : only_player game_level (cell 5 5))
    by (apply only_player_check; vm_compute; reflexivity).
  split; [exact game_level_wf|]. split; [exact Hin|]. split; [exact Hone|].
  split; [exact game_sample_run|].
  exact (update_level_step_result game_level RIGHT 5 5 0 0 corridor_seed game_sample_level
           false 1 0 game_sample_seed game_level_wf Hin Hone game_sample_run).
Defined.

(** X25. After [update_level] the locks are all there or all gone: while
    some tile still holds a key, each tile holds a lock exactly when it held
    one before; once no tile holds a key, no tile holds a lock. *)
Theorem update_level_locks_follow_keys (level : Level) (direction gold killed : Z) (seed : Seed)
    (level' : Level) (over : bool) (gold' killed' : Z) (seed' : Seed) :
  level_wf level ->
  update_level level direction gold killed seed
    = (Finished (level', over, gold', killed'), seed') ->
  ((exists j : nat, (j < 484)%nat /\ Z.testbit (level' !!! j) KEY = true) ->
   forall i : nat, (i < 484)%nat ->
     Z.testbit (level' !!! i) LOCK = Z.testbit (level !!! i) LOCK) /\
  ((forall j : nat, (j < 484)%nat -> Z.testbit (level' !!! j) KEY = false) ->
   forall i : nat, (i < 484)%nat -> Z.testbit (level' !!! i) LOCK = false).
Proof. apply update_level_lock_passes. Qed.

Lemma update_level_locks_follow_keys_witness :
  level_wf game_level /\
  update_level game_level RIGHT 0 0 corridor_seed
    = (Finished (game_sample_level, false, 1, 0), game_sample_seed) /\
  ((exists j : nat, (j < 484)%nat /\ Z.testbit (game_sample_level !!! j) KEY = true) ->
   forall i : nat, (i < 484)%nat ->
     Z.testbit (game_sample_level !!! i) LOCK = Z.testbit (game_level !!! i) LOCK) /\
  ((forall j : nat, (j < 484)%nat -> Z.testbit (game_sample_level !!! j) KEY = false) ->
   forall i : nat, (i < 484)%nat -> Z.testbit (game_sample_level !!! i) LOCK = false).
Proof.
  split; [exact game_level_wf|]. split; [exact game_sample_run|].
  exact (update_level_locks_follow_keys game_level RIGHT 0 0 corridor_seed game_sample_level
           false 1 0 game_sample_seed game_level_wf game_sample_run).
Defined.
